(** * UI-TARS action parser: a shallow embedding of [actionParser.ts]

    The development follows the layout of the source file
    [packages/ui-tars/action-parser/src/actionParser.ts]:

    - [JsString]: ECMAScript strings as sequences of UTF-16 code units and the
      [String.prototype] methods the parser calls;
    - [Regex]: the backtracking matcher of ECMA-262 (continuation-passing, as
      in the language specification) and the [RegExp]-driven string methods
      [match], [replace] and [split];
    - [JsNumber]: IEEE-754 binary64 numbers, [Math.*], [parseFloat] and
      [JSON.stringify] on arrays of numbers;
    - [JsObject]: insertion-ordered property bags;
    - [ActionParser]: the functions of the source; the blocks of
      [parseActionVlm] and [parseAction] that the properties refer to are
      definitions of their own, named after what they compute;
    - [OllamaModel]: [convertToOllamaMessages] of the Ollama model, which
      calls the parser;
    - [Notions], [Language], [Shapes], the facts and the properties
      established about the code. *)

From Stdlib Require Import String Ascii.
From Stdlib Require Import ZArith NArith PArith List Bool Lia.
From Stdlib Require Import SpecFloat.
Import ListNotations.

Set Implicit Arguments.
Unset Strict Implicit.

(* ------------------------------------------------------------------------- *)
(** ** Strings *)

Module JsString.

(** A string value is a finite sequence of 16-bit code units. *)
Definition codeunit := N.
Definition jsstring := list codeunit.

Definition cu (a : ascii) : codeunit := N_of_ascii a.

(** ASCII literals.  Rocq string literals have no escape sequences: the
    literal ["\n"] denotes the two code units backslash, [n]. *)
Fixpoint js (s : string) : jsstring :=
  match s with
  | EmptyString => []
  | String a r => cu a :: js r
  end.

Definition LF : codeunit := 10%N.
Definition CR : codeunit := 13%N.
Definition DQUOTE : codeunit := 34%N.
Definition SQUOTE : codeunit := 39%N.
Definition BACKSLASH : codeunit := 92%N.
(** U+FF1A FULLWIDTH COLON *)
Definition FULLWIDTH_COLON : codeunit := 65306%N.

Fixpoint jseqb (a b : jsstring) : bool :=
  match a, b with
  | [], [] => true
  | x :: a', y :: b' => N.eqb x y && jseqb a' b'
  | _, _ => false
  end.

Definition inRange (lo hi c : codeunit) : bool := (N.leb lo c && N.leb c hi)%bool.

(** WhiteSpace and LineTerminator code points of ECMA-262; this is the set
    removed by [trim] and matched by the class escape [\s]. *)
Definition isWhiteSpace (c : codeunit) : bool :=
  (existsb (N.eqb c)
     [9; 10; 11; 12; 13; 32; 160; 5760; 8232; 8233; 8239; 8287; 12288; 65279]%N
   || inRange 8192%N 8202%N c)%bool.

Fixpoint trimStart (s : jsstring) : jsstring :=
  match s with
  | c :: t => if isWhiteSpace c then trimStart t else s
  | [] => []
  end.

Definition trimEnd (s : jsstring) : jsstring := rev (trimStart (rev s)).

Definition trim (s : jsstring) : jsstring := trimEnd (trimStart s).

(** [startsWith s p]: [p] is a prefix of [s]. *)
Fixpoint startsWith (s p : jsstring) {struct p} : bool :=
  match p, s with
  | [], _ => true
  | x :: p', y :: s' => N.eqb x y && startsWith s' p'
  | _ :: _, [] => false
  end.

Fixpoint includes (s sub : jsstring) : bool :=
  if startsWith s sub then true
  else match s with
       | [] => false
       | _ :: t => includes t sub
       end.

(** [indexOf s c] for a one-unit search string; [None] is the result [-1]. *)
Fixpoint indexOf (s : jsstring) (c : codeunit) : option nat :=
  match s with
  | [] => None
  | x :: t => if N.eqb x c then Some 0
              else match indexOf t c with
                   | Some i => Some (S i)
                   | None => None
                   end
  end.

(** [s.substring(a, b)] and [s.substring(a)] for [0 <= a <= b]. *)
Definition substring (s : jsstring) (a b : nat) : jsstring := firstn (b - a) (skipn a s).
Definition substringFrom (s : jsstring) (a : nat) : jsstring := skipn a s.

End JsString.
Import JsString.

(* ------------------------------------------------------------------------- *)
(** ** Regular expressions *)

Module Regex.

(** Abstract syntax of the patterns that occur in the source.  An atom that
    consumes one code unit (a literal, a class, a class escape or the dot) is
    [Chr] with its membership test. *)
Inductive regex : Type :=
| Eps
| Chr (p : codeunit -> bool)
| Seq (a b : regex)
| Alt (a b : regex)
| Grp (i : nat) (a : regex)            (* capturing group number [i] *)
| Star (greedy : bool) (a : regex)     (* [a*] and [a*?] *)
| Plus (greedy : bool) (a : regex)     (* [a+] and [a+?] *)
| Opt (greedy : bool) (a : regex)      (* [a?] *)
| Bol                                  (* [^], no [m] flag *)
| Eol                                  (* [$], no [m] flag *)
| Ahead (a : regex)                    (* [(?=a)] *)
| NotBehind (l : list jsstring).       (* [(?<!l1|l2|...)] with literal alternatives *)

(** Atoms *)
Definition lit1 (c : codeunit) : regex := Chr (N.eqb c).
Definition oneOf (l : list codeunit) : regex := Chr (fun c => existsb (N.eqb c) l).
Definition noneOf (l : list codeunit) : regex := Chr (fun c => negb (existsb (N.eqb c) l)).
Definition isLineTerminator (c : codeunit) : bool :=
  existsb (N.eqb c) [10; 13; 8232; 8233]%N.
Definition dot : regex := Chr (fun c => negb (isLineTerminator c)).
Definition anyUnit : regex := Chr (fun _ => true).                (* [[\s\S]] *)
Definition isDigit (c : codeunit) : bool := inRange 48%N 57%N c.
Definition isWordChar (c : codeunit) : bool :=
  (inRange 97%N 122%N c || inRange 65%N 90%N c || isDigit c || N.eqb c 95%N)%bool.
Definition space : regex := Chr isWhiteSpace.                      (* [\s] *)
Definition word : regex := Chr isWordChar.                         (* [\w] *)
Definition digit : regex := Chr isDigit.                           (* [\d] *)

Fixpoint lit (s : jsstring) : regex :=
  match s with
  | [] => Eps
  | [c] => lit1 c
  | c :: t => Seq (lit1 c) (lit t)
  end.

(** Canonicalize of ECMA-262 for the [i] flag without the [u] flag, on the
    ASCII letters met in the source patterns: a pattern letter matches
    exactly its two ASCII cases (a non-ASCII unit whose upper case is ASCII
    keeps its own value under Canonicalize). *)
Definition asciiUpper (c : codeunit) : codeunit :=
  if inRange 97%N 122%N c then (c - 32)%N else c.
Definition lit1i (c : codeunit) : regex := Chr (fun d => N.eqb (asciiUpper d) (asciiUpper c)).
Fixpoint liti (s : jsstring) : regex :=
  match s with
  | [] => Eps
  | [c] => lit1i c
  | c :: t => Seq (lit1i c) (liti t)
  end.

Fixpoint seqs (l : list regex) : regex :=
  match l with
  | [] => Eps
  | [a] => a
  | a :: t => Seq a (seqs t)
  end.

(** Capture groups that occur in a pattern (cleared when a quantified atom
    starts a new iteration). *)
Fixpoint groups (r : regex) : list nat :=
  match r with
  | Seq a b | Alt a b => groups a ++ groups b
  | Grp i a => i :: groups a
  | Star _ a | Plus _ a | Opt _ a | Ahead a => groups a
  | _ => []
  end.

(** A match state: the code units before the current position (nearest
    first), the code units from the current position on, and the captures. *)
Record state : Type := mkState {
  pre : jsstring;
  suf : jsstring;
  caps : list (nat * jsstring)
}.

Definition cont := state -> option state.

Fixpoint capture (i : nat) (c : list (nat * jsstring)) : option jsstring :=
  match c with
  | [] => None
  | (j, v) :: t => if Nat.eqb i j then Some v else capture i t
  end.

Definition clear (gs : list nat) (x : state) : state :=
  mkState (pre x) (suf x)
          (filter (fun kv => negb (existsb (Nat.eqb (fst kv)) gs)) (caps x)).

Definition advance (c : codeunit) (t : jsstring) (x : state) : state :=
  mkState (c :: pre x) t (caps x).

(** Text consumed between an earlier state [x] and a later state [y]. *)
Definition consumed (x y : state) : jsstring :=
  firstn (length (suf x) - length (suf y)) (suf x).

(** RepeatMatcher with [min = 0] and no upper bound.  An iteration that
    consumes nothing is rejected (the empty check of ECMA-262); every
    admitted iteration therefore shortens the remaining input, and [n], the
    number of remaining code units, bounds the number of iterations (any
    larger [n] gives the same result). *)
Fixpoint repeatMatcher (m : cont -> state -> option state) (gs : list nat)
    (greedy : bool) (k : cont) (n : nat) (x : state) : option state :=
  let iterate (_ : unit) :=
    match n with
    | 0 => None
    | S n' =>
        m (fun y => if Nat.ltb (length (suf y)) (length (suf x))
                    then repeatMatcher m gs greedy k n' y else None)
          (clear gs x)
    end in
  if greedy then
    match iterate tt with
    | Some z => Some z
    | None => k x
    end
  else
    match k x with
    | Some z => Some z
    | None => iterate tt
    end.

(** The matcher of a pattern, applied to a continuation and a state. *)
Fixpoint mtch (r : regex) (k : cont) (x : state) {struct r} : option state :=
  match r with
  | Eps => k x
  | Chr p =>
      match suf x with
      | c :: t => if p c then k (advance c t x) else None
      | [] => None
      end
  | Seq a b => mtch a (mtch b k) x
  | Alt a b =>
      match mtch a k x with
      | Some z => Some z
      | None => mtch b k x
      end
  | Grp i a =>
      mtch a (fun y => k (mkState (pre y) (suf y) ((i, consumed x y) :: caps y))) x
  | Star g a => repeatMatcher (mtch a) (groups a) g k (length (suf x)) x
  | Plus g a =>
      mtch a (fun y => repeatMatcher (mtch a) (groups a) g k (length (suf y)) y)
           (clear (groups a) x)
  | Opt g a =>
      if g then
        match mtch a (fun y => if Nat.ltb (length (suf y)) (length (suf x))
                               then k y else None) (clear (groups a) x) with
        | Some z => Some z
        | None => k x
        end
      else
        match k x with
        | Some z => Some z
        | None => mtch a (fun y => if Nat.ltb (length (suf y)) (length (suf x))
                                   then k y else None) (clear (groups a) x)
        end
  | Bol => match pre x with [] => k x | _ :: _ => None end
  | Eol => match suf x with [] => k x | _ :: _ => None end
  | Ahead a =>
      match mtch a Some x with
      | Some y => k (mkState (pre x) (suf x) (caps y))
      | None => None
      end
  | NotBehind l =>
      if existsb (fun s => startsWith (pre x) (rev s)) l then None else k x
  end.

(** A successful match: the state it started in and the state it ended in. *)
Record found : Type := mkFound {
  f_start : state;
  f_end : state
}.

Definition matched (f : found) : jsstring := consumed (f_start f) (f_end f).
(** [m[i]] for [i >= 1]; [None] is [undefined]. *)
Definition group (i : nat) (f : found) : option jsstring := capture i (caps (f_end f)).

(** One attempt at the current position. *)
Definition matchAt (r : regex) (p s : jsstring) : option found :=
  match mtch r Some (mkState p s []) with
  | Some y => Some (mkFound (mkState p s []) y)
  | None => None
  end.

(** [RegExp.prototype.exec] without flags: the leftmost position at which the
    pattern matches. *)
Fixpoint searchFrom (r : regex) (p s : jsstring) : option found :=
  match matchAt r p s with
  | Some f => Some f
  | None =>
      match s with
      | [] => None
      | c :: t => searchFrom r (c :: p) t
      end
  end.

(** [s.match(r)] for a pattern without the [g] flag. *)
Definition exec (r : regex) (s : jsstring) : option found := searchFrom r [] s.

(** [s.replace(r, rep)] for a pattern with the [g] flag and a replacement
    text without [$].  [skip] counts the code units of the current match
    still to be dropped. *)
Fixpoint replaceGo (r : regex) (rep : jsstring) (p s : jsstring) (skip : nat)
  : jsstring :=
  match skip with
  | S n =>
      match s with
      | [] => []
      | c :: t => replaceGo r rep (c :: p) t n
      end
  | 0 =>
      match matchAt r p s with
      | Some f =>
          match length (matched f) with
          | 0 => rep ++ match s with
                        | [] => []
                        | c :: t => c :: replaceGo r rep (c :: p) t 0
                        end
          | S n => rep ++ match s with
                          | [] => []
                          | c :: t => replaceGo r rep (c :: p) t n
                          end
          end
      | None =>
          match s with
          | [] => []
          | c :: t => c :: replaceGo r rep (c :: p) t 0
          end
      end
  end.

Definition replaceAll (r : regex) (rep : jsstring) (s : jsstring) : jsstring :=
  replaceGo r rep [] s 0.

(** [s.match(r)] for a pattern with the [g] flag: the matched texts, in
    order; the empty list stands for the result [null]. *)
Fixpoint matchGo (r : regex) (p s : jsstring) (skip : nat) : list jsstring :=
  match skip with
  | S n =>
      match s with
      | [] => []
      | c :: t => matchGo r (c :: p) t n
      end
  | 0 =>
      match matchAt r p s with
      | Some f =>
          matched f ::
          match s with
          | [] => []
          | c :: t => matchGo r (c :: p) t (pred (length (matched f)))
          end
      | None =>
          match s with
          | [] => []
          | c :: t => matchGo r (c :: p) t 0
          end
      end
  end.

Definition matchAll (r : regex) (s : jsstring) : list jsstring := matchGo r [] s 0.

(** [s.split(r)] for a pattern without capture groups and no limit.
    [piece] holds the units of the substring under construction, last unit
    first. *)
Fixpoint splitGo (r : regex) (p s : jsstring) (piece : jsstring) (skip : nat)
  : list jsstring :=
  match s with
  | [] => [rev piece]
  | c :: t =>
      match skip with
      | S n => splitGo r (c :: p) t piece n
      | 0 =>
          match matchAt r p s with
          | Some f =>
              match length (matched f) with
              | 0 =>
                  match piece with
                  | [] => splitGo r (c :: p) t [c] 0
                  | _ :: _ => rev piece :: splitGo r (c :: p) t [c] 0
                  end
              | S n => rev piece :: splitGo r (c :: p) t [] n
              end
          | None => splitGo r (c :: p) t (c :: piece) 0
          end
      end
  end.

Definition split (r : regex) (s : jsstring) : list jsstring :=
  match s with
  | [] => match matchAt r [] [] with Some _ => [] | None => [[]] end
  | _ :: _ => splitGo r [] s [] 0
  end.

End Regex.
Import Regex.

(* ------------------------------------------------------------------------- *)
(** ** Numbers *)

Module JsNumber.

Local Open Scope Z_scope.

(** The Number type: IEEE-754 binary64, with the arithmetic of the standard
    library's executable specification of floating-point numbers
    (round to nearest, ties to even). *)
Definition number := spec_float.
Definition prec : Z := 53.
Definition emax : Z := 1024.

Definition NaN : number := S754_nan.
Definition Infinity : number := S754_infinity false.
Definition ofZ (z : Z) : number := binary_normalize prec emax z 0 false.

Definition add : number -> number -> number := SFadd prec emax.
Definition sub : number -> number -> number := SFsub prec emax.
Definition mul : number -> number -> number := SFmul prec emax.
Definition div : number -> number -> number := SFdiv prec emax.
Definition sqrt : number -> number := SFsqrt prec emax.
Definition ltb : number -> number -> bool := SFltb.
(** [x > y] *)
Definition gtb (x y : number) : bool := SFltb y x.

(** ToBoolean on a Number. *)
Definition truthy (x : number) : bool :=
  match x with
  | S754_zero _ | S754_nan => false
  | _ => true
  end.

Definition Math_max (a b : number) : number :=
  match SFcompare a b with
  | None => NaN
  | Some Lt => b
  | Some Gt => a
  | Some Eq => match a with S754_zero true => b | _ => a end
  end.

Definition Math_min (a b : number) : number :=
  match SFcompare a b with
  | None => NaN
  | Some Lt => a
  | Some Gt => b
  | Some Eq => match a with S754_zero false => b | _ => a end
  end.

(** The integer [q] as a Number, with a zero result taking the sign [s]. *)
Definition integral (s : bool) (q : Z) : number :=
  if Z.eqb q 0 then S754_zero s else ofZ q.

Definition signed (s : bool) (m : positive) : Z := if s then Zneg m else Zpos m.

Definition Math_floor (x : number) : number :=
  match x with
  | S754_finite s m e =>
      if Z.leb 0 e then x
      else integral s (Z.div (signed s m) (Z.pow 2 (- e)))
  | _ => x
  end.

Definition Math_ceil (x : number) : number :=
  match x with
  | S754_finite s m e =>
      if Z.leb 0 e then x
      else integral s (- Z.div (- signed s m) (Z.pow 2 (- e)))
  | _ => x
  end.

(** [Math.round]: the nearest integer, a tie going towards +Infinity. *)
Definition Math_round (x : number) : number :=
  match x with
  | S754_finite s m e =>
      if Z.leb 0 e then x
      else integral s (Z.div (2 * signed s m + Z.pow 2 (- e)) (Z.pow 2 (- e + 1)))
  | _ => x
  end.

(** The Number nearest to the decimal [(-1)^s * m * 10^p]. *)
Definition ofDecimal (s : bool) (m : N) (p : Z) : number :=
  match m with
  | N0 => S754_zero s
  | Npos q =>
      if Z.leb 0 p then binary_round prec emax s (q * Z.to_pos (Z.pow 10 p)) 0
      else
        let '(mz, ez, lz) :=
          SFdiv_core_binary prec emax (Zpos q) 0 (Z.pow 10 (- p)) 0 in
        binary_round_aux prec emax s mz ez lz
  end.

(** *** [parseFloat] *)

Definition digitVal (c : codeunit) : N := (c - 48)%N.

(** The longest run of decimal digits at the head of [s]: its value, its
    length, and the rest of [s]. *)
Fixpoint digitsRun (s : jsstring) (acc : N) (len : nat) : N * nat * jsstring :=
  match s with
  | c :: t => if isDigit c then digitsRun t (acc * 10 + digitVal c)%N (S len)
              else (acc, len, s)
  | [] => (acc, len, [])
  end.

(** An ExponentPart at the head of [s], if there is a complete one. *)
Definition exponentPart (s : jsstring) : Z :=
  match s with
  | c :: t =>
      if (N.eqb c 101 || N.eqb c 69)%bool then
        let '(neg, t') :=
          match t with
          | d :: u => if N.eqb d 45 then (true, u)
                      else if N.eqb d 43 then (false, u) else (false, t)
          | [] => (false, t)
          end in
        let '(v, len, _) := digitsRun t' 0%N 0%nat in
        match len with
        | O => 0%Z
        | S _ => if neg then (- Z.of_N v)%Z else Z.of_N v
        end
      else 0%Z
  | [] => 0%Z
  end.

(** The longest prefix that is a StrDecimalLiteral without sign. *)
Definition unsignedDecimal (s : bool) (t : jsstring) : number :=
  if startsWith t (js "Infinity") then S754_infinity s
  else
    let '(ip, ilen, r1) := digitsRun t 0%N 0%nat in
    match r1 with
    | c :: r2 =>
        if N.eqb c 46 then
          let '(m, flen, r3) := digitsRun r2 ip 0%nat in
          match ilen, flen with
          | O, O => NaN
          | _, _ => ofDecimal s m (exponentPart r3 - Z.of_nat flen)
          end
        else
          match ilen with
          | O => NaN
          | S _ => ofDecimal s ip (exponentPart r1)
          end
    | [] =>
        match ilen with
        | O => NaN
        | S _ => ofDecimal s ip 0
        end
    end.

Definition parseFloat (str : jsstring) : number :=
  match trimStart str with
  | c :: t =>
      if N.eqb c 45 then unsignedDecimal true t
      else if N.eqb c 43 then unsignedDecimal false t
      else unsignedDecimal false (c :: t)
  | [] => NaN
  end.

(** *** Number to String *)

Fixpoint decimalDigits (fuel : nat) (n : N) (acc : jsstring) : jsstring :=
  match fuel with
  | O => acc
  | S f =>
      let acc' := (48 + N.modulo n 10)%N :: acc in
      if N.ltb n 10 then acc' else decimalDigits f (N.div n 10) acc'
  end.

(** The decimal numeral of a natural number. *)
Definition natural (n : N) : jsstring := decimalDigits (S (N.to_nat (N.log2 n))) n [].

(** [10^(n-1) <= m * 2^e < 10^n] decides [n]; [decade] searches it upwards
    from [n]. *)
Definition belowPow10 (m : positive) (e n : Z) : bool :=
  (* m * 2^e < 10^n *)
  let lhs := (Zpos m * Z.pow 2 (Z.max 0 e) * Z.pow 10 (Z.max 0 (- n)))%Z in
  let rhs := (Z.pow 10 (Z.max 0 n) * Z.pow 2 (Z.max 0 (- e)))%Z in
  Z.ltb lhs rhs.

Fixpoint decade (fuel : nat) (m : positive) (e n : Z) : Z :=
  match fuel with
  | O => n
  | S f => if belowPow10 m e n then n else decade f m e (n + 1)
  end.

(** [floor (m * 2^e / 10^p)] *)
Definition scaled (m : positive) (e p : Z) : Z :=
  Z.div (Zpos m * Z.pow 2 (Z.max 0 e) * Z.pow 10 (Z.max 0 (- p)))
        (Z.pow 10 (Z.max 0 p) * Z.pow 2 (Z.max 0 (- e))).

(** Twice the distance between [s * 10^p] and [m * 2^e], on a common
    denominator. *)
Definition distance (m : positive) (e : Z) (s p : Z) : Z :=
  Z.abs (s * Z.pow 10 (Z.max 0 p) * Z.pow 2 (Z.max 0 (- e))
         - Zpos m * Z.pow 2 (Z.max 0 e) * Z.pow 10 (Z.max 0 (- p))).

Definition specEqb (a b : number) : bool :=
  match a, b with
  | S754_finite s1 m1 e1, S754_finite s2 m2 e2 =>
      (Bool.eqb s1 s2 && Pos.eqb m1 m2 && Z.eqb e1 e2)%bool
  | _, _ => false
  end.

(** A [k]-digit significand [s] with [s * 10^(n-k)] rounding to [x]. *)
Definition candidate (x : number) (k n s : Z) : bool :=
  (Z.leb (Z.pow 10 (k - 1)) s && Z.ltb s (Z.pow 10 k)
   && specEqb (ofDecimal false (Z.to_N s) (n - k)) x)%bool.

(** The candidates for [k] digits, nearest to [x] first. *)
Definition candidates (m : positive) (e : Z) (k n : Z) : list (Z * Z) :=
  let s0 := scaled m e (n - k) in
  if Z.leb (distance m e s0 (n - k)) (distance m e (s0 + 1) (n - k))
  then [(s0, n); (s0 + 1, n)] else [(s0 + 1, n); (s0, n)].

(** The digits [s], their count [k] and the exponent [n] of Number::toString:
    [k] as small as possible, and [s * 10^(n-k)] as close to [x] as possible. *)
Fixpoint shortest (fuel : nat) (m : positive) (e : Z) (n0 : Z) (k : Z)
  : Z * Z * Z :=
  let x := S754_finite false m e in
  match find (fun sn => candidate x k (snd sn) (fst sn))
             (candidates m e k n0 ++ candidates m e k (n0 + 1)) with
  | Some (s, n) => (s, k, n)
  | None =>
      match fuel with
      | O => (scaled m e (n0 - k), k, n0)
      | S f => shortest f m e n0 (k + 1)
      end
  end.

Definition zeros (n : Z) : jsstring := repeat 48%N (Z.to_nat n).

Definition formatDecimal (s k n : Z) : jsstring :=
  let ds := natural (Z.to_N s) in
  if (Z.leb k n && Z.leb n 21)%bool then ds ++ zeros (n - k)
  else if (Z.ltb 0 n && Z.leb n 21)%bool then
    firstn (Z.to_nat n) ds ++ [46%N] ++ skipn (Z.to_nat n) ds
  else if (Z.ltb (-6) n && Z.leb n 0)%bool then
    [48%N; 46%N] ++ zeros (- n) ++ ds
  else
    let ex := [101%N; (if Z.ltb (n - 1) 0 then 45%N else 43%N)]
              ++ natural (Z.to_N (Z.abs (n - 1))) in
    match ds with
    | d :: ((_ :: _) as r) => d :: 46%N :: r ++ ex
    | _ => ds ++ ex
    end.

(** Number::toString with radix 10. *)
Definition toString (x : number) : jsstring :=
  match x with
  | S754_nan => js "NaN"
  | S754_zero _ => js "0"
  | S754_infinity s => (if s then [45%N] else []) ++ js "Infinity"
  | S754_finite s m e =>
      let n0 := decade 700%nat m e (-330) in
      let '(d, k, n) := shortest 17%nat m e n0 1 in
      (if s then [45%N] else []) ++ formatDecimal d k n
  end.

Definition isFinite (x : number) : bool :=
  match x with
  | S754_nan | S754_infinity _ => false
  | _ => true
  end.

Fixpoint join (sep : jsstring) (l : list jsstring) : jsstring :=
  match l with
  | [] => []
  | [a] => a
  | a :: t => a ++ sep ++ join sep t
  end.

(** [JSON.stringify] on an array of Numbers. *)
Definition JSON_stringify (l : list number) : jsstring :=
  js "[" ++ join (js ",") (map (fun x => if isFinite x then toString x else js "null") l)
     ++ js "]".

End JsNumber.
Import JsNumber.

(* ------------------------------------------------------------------------- *)
(** ** Objects used as property bags *)

Module JsObject.

(** An ordinary object with string keys, its properties in creation order. *)
Definition obj (V : Type) : Type := list (jsstring * V).

Definition empty {V : Type} : obj V := [].

Fixpoint get {V : Type} (k : jsstring) (o : obj V) : option V :=
  match o with
  | [] => None
  | (k', v) :: t => if jseqb k k' then Some v else get k t
  end.

Fixpoint update {V : Type} (k : jsstring) (v : V) (o : obj V) : obj V :=
  match o with
  | [] => [(k, v)]
  | (k', v') :: t => if jseqb k k' then (k, v) :: t else (k', v') :: update k v t
  end.

(** [o[k] = v] for a computed key.  The accessor [__proto__] inherited from
    [Object.prototype] receives the assignment made under that key; the
    parser only makes it with a string value, which the accessor ignores. *)
Definition set {V : Type} (k : jsstring) (v : V) (o : obj V) : obj V :=
  if jseqb k (js "__proto__") then o else update k v o.

(** The array index denoted by a key, if it is the canonical numeral of an
    integer below [2^32 - 1]. *)
Definition arrayIndex (k : jsstring) : option N :=
  match k with
  | [] => None
  | c :: t =>
      if (forallb isDigit k && (negb (N.eqb c 48) || match t with [] => true | _ => false end))%bool
      then
        let v := fold_left (fun a d => (a * 10 + digitVal d)%N) k 0%N in
        if N.ltb v 4294967295 then Some v else None
      else None
  end.

Fixpoint insertIndexed {V : Type} (i : N) (kv : jsstring * V)
    (l : list (N * (jsstring * V))) : list (N * (jsstring * V)) :=
  match l with
  | [] => [(i, kv)]
  | (j, kv') :: t => if N.ltb i j then (i, kv) :: l else (j, kv') :: insertIndexed i kv t
  end.

(** [Object.entries(o)]: array-index keys in ascending numeric order, then
    the other keys in creation order. *)
Definition entries {V : Type} (o : obj V) : list (jsstring * V) :=
  let indexed :=
    fold_left (fun acc kv => match arrayIndex (fst kv) with
                             | Some i => insertIndexed i kv acc
                             | None => acc
                             end) o [] in
  map snd indexed
  ++ filter (fun kv => match arrayIndex (fst kv) with Some _ => false | None => true end) o.

End JsObject.

(* ------------------------------------------------------------------------- *)
(** ** Effects: the console and exceptions *)

Module Effects.

(** The only exception the operations of the parser can raise: a property
    read on [undefined]. *)
Inductive JsError : Type := TypeError.

(** A line written with [console.error], kept as the template that produced
    it and the values interpolated into it. *)
Inductive logEntry : Type :=
| AspectRatioTooLarge (maxRatio ratio : number)
| FailedToParseAction (actionStr : jsstring) (e : JsError).

Definition console := list logEntry.

Inductive outcome (A : Type) : Type :=
| Returned (a : A)
| Thrown (e : JsError).
Arguments Returned {A} a.
Arguments Thrown {A} e.

(** Computations that may write to the console and may throw. *)
Definition M (A : Type) : Type := console -> outcome A * console.

Definition ret {A : Type} (a : A) : M A := fun c => (Returned a, c).

Definition bind {A B : Type} (m : M A) (f : A -> M B) : M B :=
  fun c =>
    match m c with
    | (Returned a, c') => f a c'
    | (Thrown e, c') => (Thrown e, c')
    end.

Definition throw {A : Type} (e : JsError) : M A := fun c => (Thrown e, c).

Definition console_error (l : logEntry) : M unit := fun c => (Returned tt, c ++ [l]).

Definition tryCatch {A : Type} (body : M A) (handler : JsError -> M A) : M A :=
  fun c =>
    match body c with
    | (Returned a, c') => (Returned a, c')
    | (Thrown e, c') => handler e c'
    end.

(** [v.m(...)] where [v] may be [undefined]. *)
Definition defined {A : Type} (o : option A) : M A :=
  match o with
  | Some a => ret a
  | None => throw TypeError
  end.

(** [for (const x of l) acc = f acc x] *)
Fixpoint forOf {A S : Type} (l : list A) (f : S -> A -> M S) (s : S) : M S :=
  match l with
  | [] => ret s
  | a :: t => bind (f s a) (forOf t f)
  end.

End Effects.
Import Effects.

Declare Scope js_scope.
Delimit Scope js_scope with js'.
Notation "x <- m ;; k" := (bind m (fun x => k))
  (at level 61, m at next level, right associativity) : js_scope.
Notation "m ;;; k" := (bind m (fun _ => k))
  (at level 61, right associativity) : js_scope.

(* ------------------------------------------------------------------------- *)
(** ** The action parser *)

Module ActionParser.

Import JsObject.
Local Open Scope js_scope.

(** Modelled from the spec: the declaration of [UITarsModelVersion] is in
    [@ui-tars/shared/types], outside the parser package; the data model gives
    the model coordinate space as the enumeration [V1_0], [V1_5]. *)
Inductive UITarsModelVersion : Type := V1_0 | V1_5.

Definition isV1_5 (v : UITarsModelVersion) : bool :=
  match v with V1_5 => true | V1_0 => false end.

Inductive Mode : Type := bc | o1.

Record ScreenContext : Type := mkScreen { width : number; height : number }.

(** A value of [ActionInputs]: a string, or the coordinate array stored
    under [start_coords] and [end_coords]. *)
Inductive inputValue : Type :=
| VString (s : jsstring)
| VCoords (l : list number).

Definition ActionInputs := obj inputValue.

(** [reflection] is a string or [null]; [action_type] holds what
    [actionInstance.function] held, a string or, if the first group of the
    function-call pattern took no part in the match, [undefined]. *)
Record PredictionParsed : Type := mkParsed {
  reflection : option jsstring;
  thought : jsstring;
  action_type : option jsstring;
  action_inputs : ActionInputs
}.

(** The object returned by [parseAction]. *)
Record ActionCall : Type := mkCall {
  function : option jsstring;
  args : obj jsstring
}.

(** A value interpolated into a template literal. *)
Inductive interpolated : Type :=
| Text (s : jsstring)
| Undefined
| Null.

Definition ofGroup (o : option jsstring) : interpolated :=
  match o with Some s => Text s | None => Undefined end.

Definition toStr (v : interpolated) : jsstring :=
  match v with
  | Text s => s
  | Undefined => js "undefined"
  | Null => js "null"
  end.

(** [s.split(',')] *)
Fixpoint splitComma (s : jsstring) (piece : jsstring) : list jsstring :=
  match s with
  | [] => [rev piece]
  | c :: t => if N.eqb c 44 then rev piece :: splitComma t []
              else splitComma t (c :: piece)
  end.

Fixpoint mapi {A B : Type} (f : A -> nat -> B) (l : list A) (i : nat) : list B :=
  match l with
  | [] => []
  | a :: t => f a i :: mapi f t (S i)
  end.

(** *** Patterns of the source, in order of appearance *)

(** [Action[:：]] *)
Definition actionMarker : regex :=
  Seq (lit (js "Action")) (oneOf [58%N; FULLWIDTH_COLON]).
(** [(?=\s*Action[:：]|$)] *)
Definition beforeAction : regex :=
  Ahead (Alt (Seq (Star true space) actionMarker) Eol).
(** [/Thought: ([\s\S]+?)(?=\s*Action[:：]|$)/] *)
Definition thoughtPattern : regex :=
  seqs [lit (js "Thought: "); Grp 1 (Plus false anyUnit); beforeAction].
(** [/Reflection: ([\s\S]+?)Action_Summary: ([\s\S]+?)(?=\s*Action[:：]|$)/] *)
Definition reflectionPattern : regex :=
  seqs [lit (js "Reflection: "); Grp 1 (Plus false anyUnit);
        lit (js "Action_Summary: "); Grp 2 (Plus false anyUnit); beforeAction].
(** [/Action_Summary: (.+?)(?=\s*Action[:：]|$)/] *)
Definition summaryPattern : regex :=
  seqs [lit (js "Action_Summary: "); Grp 1 (Plus false dot); beforeAction].
(** [/<Thought>\s*(.*?)\s*<\/Thought>/] *)
Definition o1ThoughtPattern : regex :=
  seqs [lit (js "<Thought>"); Star true space; Grp 1 (Star false dot);
        Star true space; lit (js "</Thought>")].
(** [/\nAction_Summary:\s*(.*?)\s*Action:/] *)
Definition o1SummaryPattern : regex :=
  seqs [lit1 LF; lit (js "Action_Summary:"); Star true space;
        Grp 1 (Star false dot); Star true space; lit (js "Action:")].
(** [/\nAction:\s*(.*?)\s*<\/Output>/] *)
Definition o1ActionPattern : regex :=
  seqs [lit1 LF; lit (js "Action:"); Star true space; Grp 1 (Star false dot);
        Star true space; lit (js "</Output>")].
(** [/\n+/] *)
Definition newlines : regex := Plus true (lit1 LF).
(** [/\\n/g]: a backslash followed by [n] *)
Definition escapedNewline : regex := lit [BACKSLASH; 110%N].
(** [/[()[\]]/g] *)
Definition brackets : regex := oneOf [40%N; 41%N; 91%N; 93%N].
(** [/<\|box_start\|>|<\|box_end\|>/g] *)
Definition boxMarkers : regex := Alt (lit (js "<|box_start|>")) (lit (js "<|box_end|>")).
(** [/(?<!start_|end_)point=/g] *)
Definition barePoint : regex :=
  Seq (NotBehind [js "start_"; js "end_"]) (lit (js "point=")).
(** [/start_point=/g], [/end_point=/g] *)
Definition startPoint : regex := lit (js "start_point=").
Definition endPoint : regex := lit (js "end_point=").
(** The function-call pattern of step 2: [^], a group of one or more [\w],
    an opening parenthesis, a group of any number of [.], a closing
    parenthesis, [$]. *)
Definition functionPattern : regex :=
  seqs [Bol; Grp 1 (Plus true word); lit1 40%N; Grp 2 (Star true dot); lit1 41%N; Eol].
(** [/([^,']|'[^']*')+/g] *)
Definition argPairPattern : regex :=
  Plus true (Grp 1 (Alt (noneOf [44%N; SQUOTE])
                        (seqs [lit1 SQUOTE; Star true (noneOf [SQUOTE]); lit1 SQUOTE]))).
(** A quote (single or double) at the start, or one at the end, with [g]. *)
Definition surroundingQuotes : regex :=
  Alt (Seq Bol (oneOf [SQUOTE; DQUOTE])) (Seq (oneOf [SQUOTE; DQUOTE]) Eol).
(** [/<bbox>|<\/bbox>/g], [/<point>|<\/point>/g], [/\s+/g] *)
Definition bboxTags : regex := Alt (lit (js "<bbox>")) (lit (js "</bbox>")).
Definition pointTags : regex := Alt (lit (js "<point>")) (lit (js "</point>")).
Definition spaces : regex := Plus true space.
(** [\d+(?:\.\d+)?] *)
Definition decimal : regex :=
  Seq (Plus true digit) (Opt true (Seq (lit1 46%N) (Plus true digit))).
(** [/[([{]\s*(\d+(?:\.\d+)?)\s*,\s*(\d+(?:\.\d+)?)[\])}]/] *)
Definition coordPattern : regex :=
  seqs [oneOf [40%N; 91%N; 123%N]; Star true space; Grp 1 decimal; Star true space;
        lit1 44%N; Star true space; Grp 2 decimal; oneOf [93%N; 41%N; 125%N]].
(** [text], [value] or [input], white space, [:] or [=], white space, an
    optional quote, a group of one or more units other than a quote or [}],
    an optional quote; with [i]. *)
Definition labelledTextPattern : regex :=
  seqs [Alt (liti (js "text")) (Alt (liti (js "value")) (liti (js "input")));
        Star true space; oneOf [58%N; 61%N]; Star true space;
        Opt true (oneOf [SQUOTE; DQUOTE]);
        Grp 1 (Plus true (noneOf [SQUOTE; DQUOTE; 125%N]));
        Opt true (oneOf [SQUOTE; DQUOTE])].
(** [type], white space (at least one), an optional quote, a group of one
    or more units other than a quote, an optional quote; with [i]. *)
Definition typedTextPattern : regex :=
  seqs [liti (js "type"); Plus true space; Opt true (oneOf [SQUOTE; DQUOTE]);
        Grp 1 (Plus true (noneOf [SQUOTE; DQUOTE]));
        Opt true (oneOf [SQUOTE; DQUOTE])].

Section Parser.

(** Constants imported from [@ui-tars/shared/types], whose declarations are
    outside the parser package. *)
Variables MAX_RATIO IMAGE_FACTOR MIN_PIXELS MAX_PIXELS_V1_5 : number.

(** [String.prototype.toLowerCase]: the case mapping of the Unicode
    Character Database shipped with the runtime. *)
Variable toLowerCase : jsstring -> jsstring.

Definition roundByFactor (num factor : number) : number :=
  mul (Math_round (div num factor)) factor.

Definition floorByFactor (num factor : number) : number :=
  mul (Math_floor (div num factor)) factor.

Definition ceilByFactor (num factor : number) : number :=
  mul (Math_ceil (div num factor)) factor.

(** The result is the pair [[wBar, hBar]]; [None] is [null]. *)
Definition smartResizeForV15 (height width : number)
    (maxRatio factor minPixels maxPixels : number) : M (option (number * number)) :=
  if gtb (div (Math_max height width) (Math_min height width)) maxRatio then
    console_error
      (AspectRatioTooLarge maxRatio (div (Math_max height width) (Math_min height width))) ;;;
    ret None
  else
    let wBar := Math_max factor (roundByFactor width factor) in
    let hBar := Math_max factor (roundByFactor height factor) in
    if gtb (mul hBar wBar) maxPixels then
      let beta := sqrt (div (mul height width) maxPixels) in
      let hBar := floorByFactor (div height beta) factor in
      let wBar := floorByFactor (div width beta) factor in
      ret (Some (wBar, hBar))
    else if ltb (mul hBar wBar) minPixels then
      let beta := sqrt (div minPixels (mul height width)) in
      let hBar := ceilByFactor (mul height beta) factor in
      let wBar := ceilByFactor (mul width beta) factor in
      ret (Some (wBar, hBar))
    else ret (Some (wBar, hBar)).

(** *** [parseAction] *)

(** Steps 1 of [parseAction]: trimming, box markers, point spellings. *)
Definition preprocess (actionStr : jsstring) : jsstring :=
  let actionStr := trim actionStr in
  let actionStr := replaceAll boxMarkers [] actionStr in
  replaceAll endPoint (js "end_box=")
    (replaceAll startPoint (js "start_box=")
       (replaceAll barePoint (js "start_box=") actionStr)).

(** The body of the loop over [argPairs]. *)
Definition addPair (kwargs : obj jsstring) (pair : jsstring) : obj jsstring :=
  match indexOf pair 61%N with
  | None => kwargs
  | Some splitIdx =>
      let key := trim (substring pair 0 splitIdx) in
      let value :=
        replaceAll surroundingQuotes [] (trim (substringFrom pair (splitIdx + 1))) in
      let value :=
        if includes value (js "<bbox>")
        then js "(" ++ replaceAll spaces (js ",") (replaceAll bboxTags [] value) ++ js ")"
        else value in
      let value :=
        if includes value (js "<point>")
        then js "(" ++ replaceAll spaces (js ",") (replaceAll pointTags [] value) ++ js ")"
        else value in
      set key value kwargs
  end.

Definition commonActions : list jsstring :=
  [js "click"; js "type"; js "drag"; js "scroll"; js "wait"; js "hover";
   js "finished"; js "call_user"].

(** Step 3 of [parseAction], entered with the action keyword found. *)
Definition heuristicCall (actionStr actionFound : jsstring) : M (option ActionCall) :=
  let kwargs : obj jsstring := empty in
  let kwargs :=
    match exec coordPattern actionStr with
    | Some coordMatch =>
        set (js "start_box")
            (js "(" ++ toStr (ofGroup (group 1 coordMatch)) ++ js ","
                    ++ toStr (ofGroup (group 2 coordMatch)) ++ js ")") kwargs
    | None => kwargs
    end in
  kwargs <-
    (if jseqb actionFound (js "type") then
       let textMatch :=
         match exec labelledTextPattern actionStr with
         | Some m => Some m
         | None => exec typedTextPattern actionStr
         end in
       match textMatch with
       | Some m =>
           content <- defined (group 1 m) ;;
           ret (set (js "content") (trim content) kwargs)
       | None => ret kwargs
       end
     else ret kwargs) ;;
  ret (Some (mkCall (Some actionFound) kwargs)).

(** The statements inside [try]. *)
Definition parseActionBody (actionStr : jsstring) : M (option ActionCall) :=
  match exec functionPattern actionStr with
  | Some m =>
      let functionName := group 1 m in
      let argsStr := group 2 m in
      let kwargs : obj jsstring := empty in
      argsStr <- defined argsStr ;;
      let kwargs :=
        match trim argsStr with
        | _ :: _ => fold_left addPair (matchAll argPairPattern argsStr) kwargs
        | [] => kwargs
        end in
      ret (Some (mkCall functionName kwargs))
  | None =>
      let lowerStr := toLowerCase actionStr in
      match find (fun act => includes lowerStr act) commonActions with
      | Some actionFound => heuristicCall actionStr actionFound
      | None => ret None
      end
  end.

(** [None] is the result [null]. *)
Definition parseAction (actionStr : jsstring) : M (option ActionCall) :=
  let actionStr := preprocess actionStr in
  tryCatch (parseActionBody actionStr)
           (fun e => console_error (FailedToParseAction actionStr e) ;;; ret None).

(** *** [parseActionVlm] *)

(** The [bc] branch, first part: [(reflection, thought)]. *)
Definition bcThought (text : jsstring) : M (option jsstring * option jsstring) :=
  if includes text (js "Thought:") then
    match exec thoughtPattern text with
    | Some thoughtMatch =>
        t <- defined (group 1 thoughtMatch) ;;
        ret (None, Some (trim t))
    | None => ret (None, None)
    end
  else if startsWith text (js "Reflection:") then
    match exec reflectionPattern text with
    | Some reflectionMatch =>
        t <- defined (group 2 reflectionMatch) ;;
        r <- defined (group 1 reflectionMatch) ;;
        ret (Some (trim r), Some (trim t))
    | None => ret (None, None)
    end
  else if startsWith text (js "Action_Summary:") then
    match exec summaryPattern text with
    | Some summaryMatch =>
        t <- defined (group 1 summaryMatch) ;;
        ret (None, Some (trim t))
    | None => ret (None, None)
    end
  else ret (None, None).

(** [a[a.length - 1]]; [None] is [undefined]. *)
Definition lastElement {A : Type} (a : list A) : option A := nth_error a (length a - 1).

Definition actionKeywords : list jsstring :=
  [js "Action:"; js "Action" ++ [FULLWIDTH_COLON]].

(** The [bc] branch, second part: the action string. *)
Definition bcActionStr (text : jsstring) : option jsstring :=
  if negb (existsb (fun keyword => includes text keyword) actionKeywords) then
    Some text
  else
    let actionParts := split actionMarker text in
    lastElement actionParts.

Definition captureOrNull (r : regex) (text : jsstring) : interpolated :=
  match exec r text with
  | Some m => ofGroup (group 1 m)
  | None => Null
  end.

(** The template literal composing the [o1] thought. *)
Definition o1Thought (text : jsstring) : jsstring :=
  let thoughtContent := captureOrNull o1ThoughtPattern text in
  let actionSummaryContent := captureOrNull o1SummaryPattern text in
  toStr thoughtContent ++ [LF] ++ js "<Action_Summary>" ++ [LF]
    ++ toStr actionSummaryContent.

(** [actionContent || ''] *)
Definition o1ActionStr (text : jsstring) : jsstring :=
  match captureOrNull o1ActionPattern text with
  | Text s => s
  | _ => []
  end.

(** [(reflection, thought, actionStr)] as the branches on [mode] leave them,
    for the trimmed [text]. *)
Definition segment (mode : Mode) (text : jsstring)
  : M (option jsstring * option jsstring * option jsstring) :=
  match mode with
  | bc =>
      rt <- bcThought text ;;
      ret (fst rt, snd rt, bcActionStr text)
  | o1 => ret (None, Some (o1Thought text), Some (o1ActionStr text))
  end.

(** [actionStr.split(/\n+/).filter(a => a.trim() !== '')] *)
Definition tokenize (actionStr : jsstring) : list jsstring :=
  filter (fun a => negb (jseqb (trim a) [])) (split newlines actionStr).

(** The argument handed to [parseAction] for a token. *)
Definition unescape (rawStr : jsstring) : jsstring :=
  trimStart (replaceAll escapedNewline [BACKSLASH; 110%N] rawStr).

Definition pick (p : number * number) (factorIndex : nat) : number :=
  match factorIndex with 0 => fst p | _ => snd p end.

(** [isNumber] of lodash on a Number or [undefined]: the test is
    [typeof value == 'number'], which every Number passes, [NaN] and the
    infinities included. *)
Definition isNumber (v : option number) : bool :=
  match v with Some _ => true | None => false end.

(** ToNumber, applied by the arithmetic operators. *)
Definition toNumber (v : option number) : number :=
  match v with Some x => x | None => NaN end.

Definition orElse {A : Type} (v d : option A) : option A :=
  match v with Some _ => v | None => d end.

(** One component of the array stored under [start_coords] or [end_coords]. *)
Definition centre (a b : option number) (extent factor : number)
    (scaleFactor : option number) : number :=
  mul (div (Math_round
              (mul (mul (div (add (toNumber a) (toNumber b)) (ofZ 2)) extent) factor))
           factor)
      (match scaleFactor with Some f => f | None => ofZ 1 end).

(** The numbers of a box argument, divided by their factors. *)
Definition normalizeBox (factors : number * number) (modelVer : UITarsModelVersion)
    (smartResizeFactors : option (number * number)) (oriBox : jsstring) : list number :=
  let numbers :=
    filter (fun ori => negb (jseqb ori []))
           (splitComma (replaceAll brackets [] oriBox) []) in
  let floatNumbers :=
    mapi (fun num idx =>
            let factorIndex := Nat.modulo idx 2 in
            match isV1_5 modelVer, smartResizeFactors with
            | true, Some smart => div (parseFloat num) (pick smart factorIndex)
            | _, _ => div (parseFloat num) (pick factors factorIndex)
            end) numbers 0 in
  match floatNumbers with
  | [a; b] => [a; b; a; b]
  | _ => floatNumbers
  end.

(** The value stored under [boxKey]. *)
Definition boxCoords (factors : number * number) (screenContext : ScreenContext)
    (scaleFactor : option number) (floatNumbers : list number) : inputValue :=
  let x1 := nth_error floatNumbers 0 in
  let y1 := nth_error floatNumbers 1 in
  let x2 := orElse (nth_error floatNumbers 2) x1 in
  let y2 := orElse (nth_error floatNumbers 3) y1 in
  let '(widthFactor, heightFactor) := factors in
  if forallb isNumber [x1; y1; x2; y2] then
    VCoords [centre x1 x2 (width screenContext) widthFactor scaleFactor;
             centre y1 y2 (height screenContext) heightFactor scaleFactor]
  else VCoords [].

Definition hasSize (screenContext : option ScreenContext) : option ScreenContext :=
  match screenContext with
  | Some sc => if (truthy (width sc) && truthy (height sc))%bool then Some sc else None
  | None => None
  end.

(** The body of the loop over [Object.entries(params)]. *)
Definition storeParam (factors : number * number) (modelVer : UITarsModelVersion)
    (smartResizeFactors : option (number * number))
    (screenContext : option ScreenContext) (scaleFactor : option number)
    (actionInputs : ActionInputs) (entry : jsstring * jsstring) : ActionInputs :=
  let '(paramName, param) := entry in
  match param with
  | [] => actionInputs
  | _ :: _ =>
      let trimmedParam := trim param in
      if (includes paramName (js "start_box") || includes paramName (js "end_box"))%bool
      then
        let floatNumbers := normalizeBox factors modelVer smartResizeFactors trimmedParam in
        let actionInputs :=
          set (trim paramName) (VString (JSON_stringify floatNumbers)) actionInputs in
        match hasSize screenContext with
        | Some sc =>
            let boxKey := if includes paramName (js "start_box")
                          then js "start_coords" else js "end_coords" in
            set boxKey (boxCoords factors sc scaleFactor floatNumbers) actionInputs
        | None => actionInputs
        end
      else set (trim paramName) (VString trimmedParam) actionInputs
  end.

(** The object pushed onto [actions] for the result of [parseAction]. *)
Definition toParsed (factors : number * number) (modelVer : UITarsModelVersion)
    (smartResizeFactors : option (number * number))
    (screenContext : option ScreenContext) (scaleFactor : option number)
    (reflection thought : option jsstring)
    (actionInstance : option ActionCall) : PredictionParsed :=
  let '(actionType, actionInputs) :=
    match actionInstance with
    | Some call =>
        (function call,
         fold_left (storeParam factors modelVer smartResizeFactors screenContext scaleFactor)
                   (entries (args call)) empty)
    | None => (Some [], empty)
    end in
  mkParsed reflection (match thought with Some t => t | None => [] end)
           actionType actionInputs.

(** The body of the loop over [allActions]. *)
Definition parseToken (factors : number * number) (modelVer : UITarsModelVersion)
    (smartResizeFactors : option (number * number))
    (screenContext : option ScreenContext) (scaleFactor : option number)
    (reflection thought : option jsstring)
    (actions : list PredictionParsed) (rawStr : jsstring) : M (list PredictionParsed) :=
  actionInstance <- parseAction (unescape rawStr) ;;
  ret (actions ++ [toParsed factors modelVer smartResizeFactors screenContext
                            scaleFactor reflection thought actionInstance]).

Definition resolveSmartResize (modelVer : UITarsModelVersion)
    (screenContext : option ScreenContext) : M (option (number * number)) :=
  match screenContext with
  | Some sc =>
      if (isV1_5 modelVer && truthy (height sc) && truthy (width sc))%bool
      then smartResizeForV15 (height sc) (width sc)
                             MAX_RATIO IMAGE_FACTOR MIN_PIXELS MAX_PIXELS_V1_5
      else ret None
  | None => ret None
  end.

Definition withDefault {A : Type} (d : A) (v : option A) : A :=
  match v with Some a => a | None => d end.

(** An argument that is [None] is omitted or [undefined]. *)
Definition parseActionVlm (text : jsstring) (factors : option (number * number))
    (mode : option Mode) (screenContext : option ScreenContext)
    (scaleFactor : option number) (modelVer : option UITarsModelVersion)
  : M (list PredictionParsed) :=
  let factors := withDefault (ofZ 1000, ofZ 1000) factors in
  let mode := withDefault bc mode in
  let modelVer := withDefault V1_0 modelVer in
  smartResizeFactors <- resolveSmartResize modelVer screenContext ;;
  let text := trim text in
  seg <- segment mode text ;;
  let '(reflection, thought, actionStr) := seg in
  actionStr <- defined actionStr ;;
  let allActions := tokenize actionStr in
  forOf allActions
        (parseToken factors modelVer smartResizeFactors screenContext scaleFactor
                    reflection thought)
        [].

(** *** [actionParser] *)

Inductive Factor : Type :=
| Scalar (f : number)
| Pair (widthFactor heightFactor : number).

Record Params : Type := mkParams {
  prediction : jsstring;
  factor : Factor;
  screenContext : option ScreenContext;
  scaleFactor : option number;
  mode : option Mode;
  modelVer : option UITarsModelVersion
}.

Record Parsed : Type := mkResult { parsed : list PredictionParsed }.

Definition actionParser (params : Params) : M Parsed :=
  parsed <- parseActionVlm (prediction params)
                           (Some match factor params with
                                 | Scalar f => (f, f)
                                 | Pair w h => (w, h)
                                 end)
                           (mode params) (screenContext params)
                           (scaleFactor params) (modelVer params) ;;
  ret (mkResult parsed).

End Parser.

End ActionParser.

(* ------------------------------------------------------------------------- *)
(** ** The Ollama model: the messages of a chat request *)

(** [convertToOllamaMessages] of the class [OllamaModel], the method that
    turns the conversations and the images of a call into the messages of
    the request.  The source types [conversations] as [any[]]; an element is
    taken here with the two fields the method reads, both strings. *)
Module OllamaModel.

(** An element of [conversations]: the fields [from] and [value]. *)
Record Conversation : Type := mkConversation {
  from : jsstring;
  value : jsstring
}.

(** A message of the chat request.  [images] is an optional property: it
    is [None] when the message has no such property; an element of the
    array is [None] when it is [undefined]. *)
Record OllamaMessage : Type := mkMessage {
  role : jsstring;
  content : jsstring;
  images : option (list (option jsstring))
}.

(** The callback of [conversations.forEach], on the variables it closes
    over: the array [messages] and the counter [imageIndex]. *)
Definition pushMessage (imgs : list jsstring)
    (st : list OllamaMessage * nat) (conv : Conversation) : list OllamaMessage * nat :=
  let '(messages, imageIndex) := st in
  let role := if jseqb (from conv) (js "human") then js "user" else js "assistant" in
  let message := mkMessage role (value conv) None in
  if (jseqb (value conv) (js "<image>") && Nat.ltb imageIndex (length imgs))%bool then
    let message := mkMessage role (value conv) (Some [nth_error imgs imageIndex]) in
    (messages ++ [message], S imageIndex)
  else (messages ++ [message], imageIndex).

Definition convertToOllamaMessages (conversations : list Conversation)
    (imgs : list jsstring) : list OllamaMessage :=
  fst (fold_left (pushMessage imgs) conversations ([], 0)).

End OllamaModel.

(* ------------------------------------------------------------------------- *)
(** ** A configuration for worked examples *)

Module Sample.

Import ActionParser.

(** Values for the constants of [@ui-tars/shared/types]; the properties
    below hold for every value of them. *)
Definition MAX_RATIO : number := ofZ 200.
Definition IMAGE_FACTOR : number := ofZ 28.
Definition MIN_PIXELS : number := ofZ (100 * 28 * 28).
Definition MAX_PIXELS_V1_5 : number := ofZ (16384 * 28 * 28).

(** The case mapping restricted to Basic Latin; it agrees with
    [toLowerCase] on the strings of the examples, which are ASCII. *)
Definition toLowerCase (s : jsstring) : jsstring :=
  map (fun c => if inRange 65%N 90%N c then (c + 32)%N else c) s.

Definition parseAction : jsstring -> M (option ActionCall) :=
  ActionParser.parseAction toLowerCase.

Definition parseActionVlm :=
  ActionParser.parseActionVlm MAX_RATIO IMAGE_FACTOR MIN_PIXELS MAX_PIXELS_V1_5 toLowerCase.

Definition actionParser : Params -> M Parsed :=
  ActionParser.actionParser MAX_RATIO IMAGE_FACTOR MIN_PIXELS MAX_PIXELS_V1_5 toLowerCase.

(** A text given line by line. *)
Definition lines (l : list jsstring) : jsstring := join [LF] l.

(** A prediction whose second action line cannot be parsed. *)
Definition unparsableSecond : jsstring :=
  lines [js "Thought: try"; js "Action: click(start_box='(100,200)')"; js "???"; [];
         js "wait()"].

(** A prediction in the [o1] format with neither thought nor summary. *)
Definition bareOutput : jsstring :=
  lines [js "<Output>"; js "Action: click(start_box='(1,2)')</Output>"].

End Sample.

(* ------------------------------------------------------------------------- *)
(** ** Notions used to state the properties *)

Module Notions.

Import JsObject ActionParser.

(** *** Matching *)

(** [defines i r]: every match of [r] leaves capture group [i] defined. *)
Fixpoint defines (i : nat) (r : regex) : bool :=
  match r with
  | Seq a b => (defines i a && negb (existsb (Nat.eqb i) (groups b))) || defines i b
  | Alt a b => defines i a && defines i b
  | Grp j a => Nat.eqb i j || defines i a
  | Plus _ a => defines i a
  | Ahead a => defines i a
  | _ => false
  end.

(** What a match of [r] from [x] to [z] guarantees about group [i]. *)
Definition post (i : nat) (r : regex) (x z : state) : Prop :=
  (defines i r = true -> capture i (caps z) <> None)
  /\ (existsb (Nat.eqb i) (groups r) = false -> capture i (caps z) = capture i (caps x)).

(** *** Effects *)

(** A computation that returns [a], whatever the console holds, and only
    appends to the console. *)
Definition returns {A : Type} (m : M A) (a : A) : Prop :=
  exists l, forall c, m c = (Returned a, c ++ l).

(** A computation that returns [a] and writes nothing. *)
Definition quiet {A : Type} (m : M A) (a : A) : Prop :=
  forall c, m c = (Returned a, c).

(** The value returned by [parseAction]. *)
Definition parseActionResult (toLowerCase : jsstring -> jsstring)
    (actionStr : jsstring) : option ActionCall :=
  match fst (parseAction toLowerCase actionStr []) with
  | Returned r => r
  | Thrown _ => None
  end.

(** *** The action marker *)

(** One of the two keywords starts at the head of [s]. *)
Definition markerAt (s : jsstring) : bool := existsb (startsWith s) actionKeywords.

(** The text after the last marker of [s], if [s] has a marker. *)
Fixpoint afterLast (s : jsstring) : option jsstring :=
  match s with
  | [] => None
  | _ :: t =>
      match afterLast t with
      | Some r => Some r
      | None => if markerAt s then Some (skipn 7 s) else None
      end
  end.

(** *** Lines *)

(** [s] without its leading newlines. *)
Fixpoint dropNewlines (s : jsstring) : jsstring :=
  match s with
  | c :: t => if N.eqb LF c then dropNewlines t else s
  | [] => []
  end.

(** The lines of [s]: the texts between one newline and the next. *)
Fixpoint linesOf (s : jsstring) (piece : jsstring) : list jsstring :=
  match s with
  | [] => [rev piece]
  | c :: t => if N.eqb LF c then rev piece :: linesOf t [] else linesOf t (c :: piece)
  end.

Definition notBlank (a : jsstring) : bool := negb (jseqb (trim a) []).

(** *** Smart resize *)

(** A Number greater than zero. *)
Definition positive (x : number) : Prop := ltb (ofZ 0) x = true.


End Notions.
Import Notions.

(* ------------------------------------------------------------------------- *)
(** ** The texts of a pattern *)

Module Language.

(** The texts a pattern can consume, captures and context left aside: an
    assertion consumes nothing. *)
Fixpoint denote (r : regex) (w : jsstring) : Prop :=
  match r with
  | Eps | Bol | Eol | Ahead _ | NotBehind _ => w = []
  | Chr p => exists c, w = [c] /\ p c = true
  | Seq a b => exists u v, w = u ++ v /\ denote a u /\ denote b v
  | Alt a b => denote a w \/ denote b w
  | Grp _ a => denote a w
  | Star _ a => exists l, w = concat l /\ Forall (denote a) l
  | Plus _ a => exists u l, w = u ++ concat l /\ denote a u /\ Forall (denote a) l
  | Opt _ a => w = [] \/ denote a w
  end.

(** A match of [r] that starts in [x] and hands [z] to its continuation:
    it consumed a text of [r] and, if [r] has no group, left the captures
    as they were. *)
Definition stepOf (r : regex) (x z : state) : Prop :=
  exists w, suf x = w ++ suf z /\ pre z = rev w ++ pre x /\ denote r w
            /\ (groups r = [] -> caps z = caps x).

(** The continuation that the matcher gives to the body of group [i]
    entered in [x]: it records the capture and goes on with [k]. *)
Definition afterGrp (i : nat) (k : cont) (x : state) : cont :=
  fun y => k (mkState (pre y) (suf y) ((i, consumed x y) :: caps y)).

End Language.
Import Language.

(* ------------------------------------------------------------------------- *)
(** ** The shapes of the texts the parser reads *)

Module Shapes.

Import JsObject ActionParser.

(** *** Calls *)

(** A text of the form [name(args)]: a name of one or more word
    characters, and arguments without a line terminator. *)
Definition isCallText (s name args : jsstring) : Prop :=
  s = name ++ [40%N] ++ args ++ [41%N] /\ name <> [] /\ forallb isWordChar name = true
  /\ forallb (fun c => negb (isLineTerminator c)) args = true.

(** The pieces the argument pattern repeats: a code unit that is neither a
    comma nor a single quote, or a text between single quotes. *)
Inductive argAtom : Type :=
| Plain (c : codeunit)
| Quoted (v : jsstring).

Definition atomText (a : argAtom) : jsstring :=
  match a with
  | Plain c => [c]
  | Quoted v => SQUOTE :: v ++ [SQUOTE]
  end.

Definition atomOk (a : argAtom) : bool :=
  match a with
  | Plain c => negb (existsb (N.eqb c) [44%N; SQUOTE])
  | Quoted v => forallb (fun c => negb (existsb (N.eqb c) [SQUOTE])) v
  end.

Definition atomsText (l : list argAtom) : jsstring := concat (map atomText l).

(** An argument: one or more pieces. *)
Definition isArgument (item : jsstring) : Prop :=
  exists l, l <> [] /\ forallb atomOk l = true /\ item = atomsText l.

(** The pattern that the argument pattern repeats. *)
Definition pairAtom : regex :=
  Grp 1 (Alt (noneOf [44%N; SQUOTE])
             (Seq (lit1 SQUOTE) (Seq (Star true (noneOf [SQUOTE])) (lit1 SQUOTE)))).

(** *** Quotes *)

Definition isQuote (c : codeunit) : bool := existsb (N.eqb c) [SQUOTE; DQUOTE].

Definition dropLeadingQuote (s : jsstring) : jsstring :=
  match s with
  | c :: t => if isQuote c then t else s
  | [] => []
  end.

Fixpoint dropTrailingQuote (s : jsstring) : jsstring :=
  match s with
  | [] => []
  | [c] => if isQuote c then [] else [c]
  | c :: t => c :: dropTrailingQuote t
  end.

(** *** Calls with keyword arguments *)

(** The text of a call with keyword arguments, as the models write it:
    the name, and between parentheses the pairs [key='value'] separated by
    a comma and a space. *)
Definition pairText (kv : jsstring * jsstring) : jsstring :=
  fst kv ++ js "='" ++ snd kv ++ js "'".

Definition callText (name : jsstring) (pairs : list (jsstring * jsstring)) : jsstring :=
  name ++ js "(" ++ join (js ", ") (map pairText pairs) ++ js ")".

(** A key of word characters, and a value that holds no single quote, no
    line terminator and neither of the tags [<bbox>] and [<point>]. *)
Definition isPlainPair (kv : jsstring * jsstring) : Prop :=
  forallb isWordChar (fst kv) = true
  /\ forallb (fun c => negb (N.eqb c SQUOTE) && negb (isLineTerminator c))%bool (snd kv) = true
  /\ includes (snd kv) (js "<bbox>") = false
  /\ includes (snd kv) (js "<point>") = false.

(** *** Numerals, boxes and coordinates *)

(** A decimal numeral without sign or exponent: digits, and possibly a
    point followed by digits. *)
Definition isNumeral (w : jsstring) : Prop :=
  exists i f, w = i ++ f /\ i <> [] /\ forallb isDigit i = true
    /\ (f = [] \/ exists d, f = 46%N :: d /\ d <> [] /\ forallb isDigit d = true).

(** The class of the replace that removes the brackets of a box value. *)
Definition isBracket (c : codeunit) : bool := existsb (N.eqb c) [40%N; 41%N; 91%N; 93%N].

(** A fragment of a box value: a text, not empty, without comma and
    without bracket. *)
Definition isFragment (x : jsstring) : Prop :=
  x <> [] /\ forallb (fun c => negb (N.eqb c 44 || isBracket c))%bool x = true.


(** What the heuristic fallback can put into [kwargs]. *)
Definition heuristicEntry (actionFound : jsstring) (kv : jsstring * jsstring) : Prop :=
  (fst kv = js "start_box"
   /\ exists x y, snd kv = js "(" ++ x ++ js "," ++ y ++ js ")" /\ isNumeral x /\ isNumeral y)
  \/ (fst kv = js "content" /\ actionFound = js "type" /\ trim (snd kv) = snd kv).

(** *** The end of a thought *)

(** The lookahead of the thought patterns holds before [s]: white space
    and a marker follow, or nothing does. *)
Definition stopsBefore (s : jsstring) : bool :=
  match s with
  | [] => true
  | _ :: _ => markerAt (trimStart s)
  end.

(** *** The screen of a smart resize *)

(** The quotient that [smartResizeForV15] compares with [maxRatio]. *)
Definition aspectRatio (sc : ScreenContext) : number :=
  div (Math_max (height sc) (width sc)) (Math_min (height sc) (width sc)).

(** The screen for which [parseActionVlm] calls [smartResizeForV15], if it
    calls it. *)
Definition resizedScreen (modelVer : UITarsModelVersion)
    (screenContext : option ScreenContext) : option ScreenContext :=
  match screenContext with
  | Some sc =>
      if (isV1_5 modelVer && truthy (height sc) && truthy (width sc))%bool
      then Some sc else None
  | None => None
  end.

End Shapes.
Import Shapes.

(* ------------------------------------------------------------------------- *)
(** ** Notions for the messages of the Ollama model *)

Module OllamaNotions.

Import OllamaModel.

Definition isPlaceholder (conv : Conversation) : bool := jseqb (value conv) (js "<image>").

(** The number of [<image>] placeholders among [l]. *)
Definition placeholders (l : list Conversation) : nat := length (filter isPlaceholder l).

(** The images a message carries. *)
Definition attached (m : OllamaMessage) : list (option jsstring) :=
  match images m with Some l => l | None => [] end.

(** The messages pushed for [l] when [imageIndex] is [idx]. *)
Fixpoint pushed (imgs : list jsstring) (l : list Conversation) (idx : nat)
  : list OllamaMessage :=
  match l with
  | [] => []
  | conv :: t =>
      let role := if jseqb (from conv) (js "human") then js "user" else js "assistant" in
      if (isPlaceholder conv && Nat.ltb idx (length imgs))%bool
      then mkMessage role (value conv) (Some [nth_error imgs idx]) :: pushed imgs t (S idx)
      else mkMessage role (value conv) None :: pushed imgs t idx
  end.

End OllamaNotions.

(* ------------------------------------------------------------------------- *)
(** ** The library functions at work *)

Module Examples.

Import JsObject ActionParser.

Example split_on_newlines :
  split newlines (Sample.lines [js "a"; []; js "b"; []]) = [js "a"; js "b"; []].
Proof. vm_compute. reflexivity. Qed.

Example split_on_marker :
  split actionMarker (Sample.lines [js "Thought: x"; js "Action: click()"])
  = [js "Thought: x" ++ [LF]; js " click()"].
Proof. vm_compute. reflexivity. Qed.

Example thought_is_lazy_up_to_the_marker :
  option_map (group 1)
             (exec thoughtPattern
                   (Sample.lines [js "Thought: click the button"; js "Action: click()"]))
  = Some (Some (js "click the button")).
Proof. vm_compute. reflexivity. Qed.

Example o1_thought_is_trimmed_by_the_pattern :
  option_map (group 1) (exec o1ThoughtPattern (js "<Thought>  a b  </Thought>"))
  = Some (Some (js "a b")).
Proof. vm_compute. reflexivity. Qed.

Example preprocess_point_spellings :
  preprocess
    (js " drag(start_point='<|box_start|>(1,2)<|box_end|>', end_point='(3,4)', point='(5,6)')")
  = js "drag(start_box='(1,2)', end_box='(3,4)', start_box='(5,6)')".
Proof. vm_compute. reflexivity. Qed.

Example argument_pairs_keep_quoted_commas :
  matchAll argPairPattern (js "content='a, b', start_box='(1,2)'")
  = [js "content='a, b'"; js " start_box='(1,2)'"].
Proof. vm_compute. reflexivity. Qed.

Example quotes_are_stripped_once :
  replaceAll surroundingQuotes [] (js "'it's'") = js "it's".
Proof. vm_compute. reflexivity. Qed.

Example parseFloat_prefix :
  parseFloat (js " 3.5px") = div (ofZ 7) (ofZ 2) /\ parseFloat (js "abc") = NaN
  /\ parseFloat (js "1e3") = ofZ 1000 /\ parseFloat (js "-.5") = div (ofZ (-1)) (ofZ 2).
Proof. vm_compute. repeat split. Qed.

Example toString_shortest :
  toString (div (ofZ 1) (ofZ 10)) = js "0.1"
  /\ toString (div (ofZ 1) (ofZ 3)) = js "0.3333333333333333"
  /\ toString (add (div (ofZ 1) (ofZ 10)) (div (ofZ 2) (ofZ 10))) = js "0.30000000000000004"
  /\ toString (ofZ (10 ^ 21)) = js "1e+21"
  /\ toString (div (ofZ 1) (ofZ 10000000)) = js "1e-7"
  /\ toString (ofZ (-1234)) = js "-1234".
Proof. vm_compute. repeat split. Qed.

Example round_half_up :
  Math_round (parseFloat (js "2.5")) = ofZ 3
  /\ Math_round (parseFloat (js "-2.5")) = ofZ (-2)
  /\ Math_round (parseFloat (js "0.49999999999999994")) = ofZ 0
  /\ Math_floor (parseFloat (js "-0.5")) = ofZ (-1)
  /\ Math_ceil (parseFloat (js "2.1")) = ofZ 3.
Proof. vm_compute. repeat split. Qed.

Example stringify_numbers :
  JSON_stringify [NaN; div (ofZ 1) (ofZ 5); Infinity; ofZ 3] = js "[null,0.2,null,3]".
Proof. vm_compute. reflexivity. Qed.

Example entries_put_array_indices_first :
  entries (set (js "1") 1
             (set (js "10") 2 (set (js "b") 3 (set (js "2") 4 (set (js "01") 5 empty)))))
  = [(js "1", 1); (js "2", 4); (js "10", 2); (js "01", 5); (js "b", 3)].
Proof. vm_compute. reflexivity. Qed.

Example heuristic_reads_coordinates_and_text :
  fst (Sample.parseAction (js "Type text: 'hello' at [10, 20.5]") [])
  = Returned (Some (mkCall (Some (js "type"))
                           [(js "start_box", js "(10,20.5)"); (js "content", js "hello")])).
Proof. vm_compute. reflexivity. Qed.

Example aspect_ratio_failure_is_logged :
  smartResizeForV15 (ofZ 5) (ofZ 1001) Sample.MAX_RATIO Sample.IMAGE_FACTOR
                    Sample.MIN_PIXELS Sample.MAX_PIXELS_V1_5 []
  = (Returned None, [AspectRatioTooLarge (ofZ 200) (div (ofZ 1001) (ofZ 5))]).
Proof. vm_compute. reflexivity. Qed.

End Examples.

(* ------------------------------------------------------------------------- *)
(** ** Facts about the matcher *)

Module RegexFacts.

Lemma capture_clear (i : nat) (gs : list nat) (x : state) :
  existsb (Nat.eqb i) gs = false ->
  capture i (caps (clear gs x)) = capture i (caps x).
Proof.
  intros Hi. unfold clear; simpl.
  induction (caps x) as [|[j v] c IH]; simpl; [reflexivity|].
  destruct (existsb (Nat.eqb j) gs) eqn:Hj; simpl.
  - destruct (Nat.eqb i j) eqn:E; [|exact IH].
    apply Nat.eqb_eq in E. subst j. congruence.
  - rewrite IH. reflexivity.
Qed.

Lemma existsb_app_false (i : nat) (l1 l2 : list nat) :
  existsb (Nat.eqb i) (l1 ++ l2) = false ->
  existsb (Nat.eqb i) l1 = false /\ existsb (Nat.eqb i) l2 = false.
Proof. rewrite existsb_app. apply orb_false_elim. Qed.

(** One admitted iteration of a quantified atom, followed by the rest of the
    loop: [E] is the equation of the iteration, [atom] the guarantee of the
    atom and [IH] that of the remaining iterations. *)
Ltac iteration atom IH E :=
  let z1 := fresh "z1" in let Hk := fresh "Hk" in
  let Hd := fresh "Hd" in let Hf := fresh "Hf" in
  let z := fresh "z" in let Hz := fresh "Hz" in
  let Hd' := fresh "Hd'" in let Hf' := fresh "Hf'" in
  apply atom in E; destruct E as [z1 [Hk [Hd Hf]]];
  match type of Hk with
  | (if ?b then _ else _) = _ => destruct b; [|discriminate]
  end;
  apply IH in Hk; destruct Hk as [z [Hz [Hf' Hd']]];
  exists z; split; [exact Hz|]; split;
  [ let Hi := fresh "Hi" in
    intros Hi; rewrite (Hf' Hi), (Hf Hi); apply capture_clear; exact Hi
  | intros ? ?; apply Hd'; auto ].

Section Loop.

Variable i : nat.
Variable a : regex.
(** The matcher of the quantified atom hands every result to its
    continuation, with the guarantees of [post]. *)
Hypothesis atom :
  forall k x y, mtch a k x = Some y -> exists z, k z = Some y /\ post i a x z.

Lemma repeatMatcher_post (g : bool) (k : cont) (n : nat) :
  forall x y,
    repeatMatcher (mtch a) (groups a) g k n x = Some y ->
    exists z, k z = Some y
      /\ (existsb (Nat.eqb i) (groups a) = false -> capture i (caps z) = capture i (caps x))
      /\ (defines i a = true -> capture i (caps x) <> None -> capture i (caps z) <> None).
Proof.
  induction n as [|n IH]; intros x y H.
  - simpl in H. exists x.
    destruct g; [simpl in H|]; destruct (k x) eqn:K; try discriminate;
      (split; [congruence | split; auto]).
  - simpl in H. destruct g.
    + match type of H with
      | match ?e with _ => _ end = _ => destruct e as [w|] eqn:E
      end.
      * inversion H; subst w. iteration atom IH E.
      * exists x. split; [exact H | split; auto].
    + destruct (k x) as [w|] eqn:K.
      * exists x. split; [congruence | split; auto].
      * iteration atom IH H.
Qed.

End Loop.

(** The single iteration of an optional atom; [E] is its equation. *)
Ltac once_more IHa E :=
  let z := fresh "z" in let Hk := fresh "Hk" in
  let Hd := fresh "Hd" in let Hf := fresh "Hf" in
  apply IHa in E; destruct E as [z [Hk [Hd Hf]]];
  match type of Hk with
  | (if ?b then _ else _) = _ => destruct b; [|discriminate]
  end;
  exists z; split; [exact Hk|]; split; simpl; [discriminate|];
  let G := fresh "G" in
  intros G; rewrite (Hf G); apply capture_clear; exact G.

(** Every result of a matcher is a result of its continuation. *)
Theorem mtch_post (i : nat) (r : regex) :
  forall k x y, mtch r k x = Some y -> exists z, k z = Some y /\ post i r x z.
Proof.
  induction r as [ | p | a IHa b IHb | a IHa b IHb | j a IHa | g a IHa | g a IHa
                   | g a IHa | | | a IHa | l ]; intros k x y H; simpl in H.
  - (* Eps *) exists x. split; [exact H | split; [discriminate | reflexivity]].
  - (* Chr *)
    destruct (suf x) as [|c t] eqn:S; [discriminate|].
    destruct (p c); [|discriminate].
    exists (advance c t x). split; [exact H | split; [discriminate | reflexivity]].
  - (* Seq *)
    apply IHa in H. destruct H as [z1 [H [Hd1 Hf1]]].
    apply IHb in H. destruct H as [z [H [Hd2 Hf2]]].
    exists z. split; [exact H|]. split; simpl.
    + intros D. apply orb_true_iff in D. destruct D as [D|D]; [|auto].
      apply andb_true_iff in D. destruct D as [D1 D2].
      apply negb_true_iff in D2. rewrite (Hf2 D2). auto.
    + intros G. apply existsb_app_false in G. destruct G as [G1 G2].
      rewrite (Hf2 G2). auto.
  - (* Alt *)
    destruct (mtch a k x) as [w|] eqn:E.
    + inversion H; subst w. apply IHa in E. destruct E as [z [E [Hd Hf]]].
      exists z. split; [exact E|]. split; simpl.
      * intros D. apply andb_true_iff in D. tauto.
      * intros G. apply existsb_app_false in G. tauto.
    + apply IHb in H. destruct H as [z [E' [Hd Hf]]].
      exists z. split; [exact E'|]. split; simpl.
      * intros D. apply andb_true_iff in D. tauto.
      * intros G. apply existsb_app_false in G. tauto.
  - (* Grp *)
    apply IHa in H. destruct H as [z1 [H [Hd Hf]]].
    eexists. split; [exact H|]. split; simpl.
    + intros D. destruct (Nat.eqb i j); [discriminate|]. simpl in D. auto.
    + intros G. apply orb_false_elim in G. destruct G as [G1 G2].
      rewrite G1. auto.
  - (* Star *)
    apply (repeatMatcher_post IHa) in H. destruct H as [z [H [Hf _]]].
    exists z. split; [exact H | split; [discriminate | exact Hf]].
  - (* Plus *)
    apply IHa in H. destruct H as [z1 [H [Hd Hf]]].
    apply (repeatMatcher_post IHa) in H. destruct H as [z [H [Hf' Hd']]].
    exists z. split; [exact H|]. split; simpl.
    + intros D. auto.
    + intros G. rewrite (Hf' G), (Hf G). apply capture_clear; exact G.
  - (* Opt *)
    destruct g.
    + match type of H with
      | match ?e with _ => _ end = _ => destruct e as [w|] eqn:E
      end.
      * inversion H; subst w. once_more IHa E.
      * exists x. split; [exact H | split; [discriminate | reflexivity]].
    + destruct (k x) as [w|] eqn:K.
      * exists x. split; [congruence | split; [discriminate | reflexivity]].
      * once_more IHa H.
  - (* Bol *)
    destruct (pre x); [|discriminate].
    exists x. split; [exact H | split; [discriminate | reflexivity]].
  - (* Eol *)
    destruct (suf x); [|discriminate].
    exists x. split; [exact H | split; [discriminate | reflexivity]].
  - (* Ahead *)
    destruct (mtch a Some x) as [y1|] eqn:E; [|discriminate].
    apply IHa in E. destruct E as [z1 [E [Hd Hf]]]. inversion E; subst z1.
    eexists. split; [exact H|]. split; simpl; auto.
  - (* NotBehind *)
    match type of H with
    | (if ?b then _ else _) = _ => destruct b; [discriminate|]
    end.
    exists x. split; [exact H | split; [discriminate | reflexivity]].
Qed.

(** A group that the pattern defines is defined in every result of [exec]. *)
Lemma searchFrom_defined (i : nat) (r : regex) (Hd : defines i r = true) :
  forall s p f, searchFrom r p s = Some f -> exists v, group i f = Some v.
Proof.
  assert (At : forall p s f, matchAt r p s = Some f -> exists v, group i f = Some v).
  { intros p s f H. unfold matchAt in H.
    destruct (mtch r Some (mkState p s [])) as [y|] eqn:E; [|discriminate].
    inversion H; subst f. apply (mtch_post i) in E.
    destruct E as [z [E [D _]]]. inversion E; subst z.
    unfold group; simpl. destruct (capture i (caps y)) as [v|] eqn:C.
    - exists v; reflexivity.
    - exfalso. apply (D Hd). reflexivity. }
  induction s as [|c t IH]; intros p f H; simpl in H.
  - destruct (matchAt r p []) eqn:E; [|discriminate].
    inversion H; subst. eapply At; eauto.
  - destruct (matchAt r p (c :: t)) eqn:E.
    + inversion H; subst. eapply At; eauto.
    + eapply IH; eauto.
Qed.

Lemma exec_defined (i : nat) (r : regex) (s : jsstring) (f : found) :
  defines i r = true -> exec r s = Some f -> exists v, group i f = Some v.
Proof. intros Hd H. eapply searchFrom_defined; eauto. Qed.

(** The loop of a quantifier with two pointwise equal continuations. *)
Lemma repeatMatcher_ext (m : cont -> state -> option state) (gs : list nat) (g : bool)
    (k1 k2 : cont)
    (Hm : forall c1 c2, (forall y, c1 y = c2 y) -> forall x, m c1 x = m c2 x)
    (Hk : forall y, k1 y = k2 y) (n : nat) :
  forall x, repeatMatcher m gs g k1 n x = repeatMatcher m gs g k2 n x.
Proof.
  induction n as [|n IH]; intros x; simpl; rewrite (Hk x).
  - reflexivity.
  - rewrite (Hm _ (fun y => if Nat.ltb (length (suf y)) (length (suf x))
                            then repeatMatcher m gs g k2 n y else None)).
    + reflexivity.
    + intros y. destruct (Nat.ltb _ _); [apply IH | reflexivity].
Qed.

(** A matcher depends on its continuation only through the values of the
    continuation. *)
Lemma mtch_ext (r : regex) :
  forall k1 k2, (forall y, k1 y = k2 y) -> forall x, mtch r k1 x = mtch r k2 x.
Proof.
  induction r as [ | p | a IHa b IHb | a IHa b IHb | j a IHa | g a IHa | g a IHa
                   | g a IHa | | | a IHa | l ]; intros k1 k2 Hk x; simpl.
  - apply Hk.
  - destruct (suf x) as [|c t]; [reflexivity|]. destruct (p c); [apply Hk | reflexivity].
  - apply IHa. intros y. apply IHb. exact Hk.
  - rewrite (IHa k1 k2 Hk), (IHb k1 k2 Hk). reflexivity.
  - apply IHa. intros y. apply Hk.
  - apply repeatMatcher_ext; assumption.
  - apply IHa. intros y. apply repeatMatcher_ext; assumption.
  - rewrite (Hk x).
    rewrite (IHa (fun y => if Nat.ltb (length (suf y)) (length (suf x)) then k1 y else None)
                 (fun y => if Nat.ltb (length (suf y)) (length (suf x)) then k2 y else None)).
    + reflexivity.
    + intros y. destruct (Nat.ltb _ _); [apply Hk | reflexivity].
  - destruct (pre x); [apply Hk | reflexivity].
  - destruct (suf x); [apply Hk | reflexivity].
  - destruct (mtch a Some x); [apply Hk | reflexivity].
  - match goal with
    | |- (if ?b then _ else _) = _ => destruct b; [reflexivity | apply Hk]
    end.
Qed.

(** A matcher whose continuation always fails, fails. *)
Lemma mtch_fail (r : regex) (k : cont) (x : state) :
  (forall y, k y = None) -> mtch r k x = None.
Proof.
  intros Hk. destruct (mtch r k x) as [y|] eqn:E; [|reflexivity].
  destruct (mtch_post 0 E) as [z [Hz _]]. rewrite Hk in Hz. discriminate.
Qed.

Lemma repeatMatcher_at_end (a : regex) (gs : list nat) (g : bool) (k : cont)
    (x : state) (n : nat) :
  length (suf x) = 0 ->
  repeatMatcher (mtch a) gs g k n x = repeatMatcher (mtch a) gs g k 0 x.
Proof.
  intros Hx. destruct n as [|n]; [reflexivity|]. simpl.
  rewrite mtch_fail; [reflexivity|].
  intros y. rewrite Hx. reflexivity.
Qed.

(** The bound of [repeatMatcher] never cuts a loop short: every bound that
    is at least the number of remaining code units gives the same result. *)
Theorem repeatMatcher_bound (a : regex) (gs : list nat) (g : bool) (k : cont) (size : nat) :
  forall x n1 n2,
    length (suf x) <= size -> length (suf x) <= n1 -> length (suf x) <= n2 ->
    repeatMatcher (mtch a) gs g k n1 x = repeatMatcher (mtch a) gs g k n2 x.
Proof.
  induction size as [|size IH]; intros x n1 n2 Hs H1 H2.
  - rewrite (@repeatMatcher_at_end a gs g k x n1) by lia.
    rewrite (@repeatMatcher_at_end a gs g k x n2) by lia. reflexivity.
  - destruct (Nat.eq_dec (length (suf x)) 0) as [Z|NZ].
    + rewrite (@repeatMatcher_at_end a gs g k x n1) by exact Z.
      rewrite (@repeatMatcher_at_end a gs g k x n2) by exact Z. reflexivity.
    + destruct n1 as [|n1]; [lia|]. destruct n2 as [|n2]; [lia|]. simpl.
      rewrite (mtch_ext a
                 (k1 := fun y => if Nat.ltb (length (suf y)) (length (suf x))
                                 then repeatMatcher (mtch a) gs g k n1 y else None)
                 (k2 := fun y => if Nat.ltb (length (suf y)) (length (suf x))
                                 then repeatMatcher (mtch a) gs g k n2 y else None)).
      * reflexivity.
      * intros y. destruct (Nat.ltb (length (suf y)) (length (suf x))) eqn:L;
          [|reflexivity].
        apply Nat.ltb_lt in L. apply IH; lia.
Qed.

(** Matching only moves forward: a result is handed to the continuation at
    a position that is not before the starting one.  An iteration of a
    quantified atom therefore consumes nothing exactly when it does not
    shorten the remaining input. *)
Lemma repeatMatcher_forward (a : regex) (gs : list nat) (g : bool) (k : cont)
    (atom : forall k x y, mtch a k x = Some y ->
                          exists z, k z = Some y /\ length (suf z) <= length (suf x))
    (n : nat) :
  forall x y,
    repeatMatcher (mtch a) gs g k n x = Some y ->
    exists z, k z = Some y /\ length (suf z) <= length (suf x).
Proof.
  induction n as [|n IH]; intros x y H; simpl in H.
  - exists x. split; [|apply Nat.le_refl].
    destruct g; destruct (k x); congruence.
  - assert (Hit : forall w,
              mtch a (fun y0 => if Nat.ltb (length (suf y0)) (length (suf x))
                                then repeatMatcher (mtch a) gs g k n y0 else None)
                   (clear gs x) = Some w ->
              exists z, k z = Some w /\ length (suf z) <= length (suf x)).
    { intros w Hw. apply atom in Hw. destruct Hw as [z1 [Hk Hl]].
      destruct (Nat.ltb (length (suf z1)) (length (suf x))) eqn:L; [|discriminate].
      apply Nat.ltb_lt in L. apply IH in Hk. destruct Hk as [z [Hz Hl']].
      exists z. split; [exact Hz|].
      apply Nat.lt_le_incl. eapply Nat.le_lt_trans; eassumption. }
    destruct g.
    + destruct (mtch a _ (clear gs x)) as [w|] eqn:E in H.
      * inversion H; subst w. apply Hit. exact E.
      * exists x. split; [exact H | apply Nat.le_refl].
    + destruct (k x) as [w|] eqn:K.
      * exists x. split; [congruence | apply Nat.le_refl].
      * apply Hit. exact H.
Qed.

Theorem mtch_forward (r : regex) :
  forall k x y, mtch r k x = Some y ->
    exists z, k z = Some y /\ length (suf z) <= length (suf x).
Proof.
  induction r as [ | p | a IHa b IHb | a IHa b IHb | j a IHa | g a IHa | g a IHa
                   | g a IHa | | | a IHa | l ]; intros k x y H; simpl in H.
  - exists x. split; [exact H | apply Nat.le_refl].
  - destruct (suf x) as [|c t] eqn:S; [discriminate|].
    destruct (p c); [|discriminate].
    exists (advance c t x). split; [exact H|].
    simpl. apply Nat.le_succ_diag_r.
  - apply IHa in H. destruct H as [z1 [H L1]].
    apply IHb in H. destruct H as [z [H L2]].
    exists z. split; [exact H | exact (Nat.le_trans _ _ _ L2 L1)].
  - destruct (mtch a k x) as [w|] eqn:E.
    + inversion H; subst w. apply IHa. exact E.
    + apply IHb. exact H.
  - apply IHa in H. destruct H as [z1 [H L]].
    eexists. split; [exact H | exact L].
  - apply (repeatMatcher_forward IHa) in H. exact H.
  - apply IHa in H. destruct H as [z1 [H L1]].
    apply (repeatMatcher_forward IHa) in H. destruct H as [z [H L2]].
    exists z. split; [exact H | exact (Nat.le_trans _ _ _ L2 L1)].
  - assert (Hit : forall w,
              mtch a (fun y0 => if Nat.ltb (length (suf y0)) (length (suf x))
                                then k y0 else None) (clear (groups a) x) = Some w ->
              exists z, k z = Some w /\ length (suf z) <= length (suf x)).
    { intros w Hw. apply IHa in Hw. destruct Hw as [z [Hk L]].
      destruct (Nat.ltb (length (suf z)) (length (suf x))); [|discriminate].
      exists z. split; [exact Hk | exact L]. }
    destruct g.
    + destruct (mtch a _ (clear (groups a) x)) as [w|] eqn:E in H.
      * inversion H; subst w. apply Hit. exact E.
      * exists x. split; [exact H | apply Nat.le_refl].
    + destruct (k x) as [w|] eqn:K.
      * exists x. split; [congruence | apply Nat.le_refl].
      * apply Hit. exact H.
  - exists x. split; [|apply Nat.le_refl]. destruct (pre x); [exact H | discriminate].
  - exists x. split; [|apply Nat.le_refl]. destruct (suf x); [exact H | discriminate].
  - destruct (mtch a Some x) as [y1|]; [|discriminate].
    eexists. split; [exact H | apply Nat.le_refl].
  - exists x. split; [|apply Nat.le_refl].
    match type of H with
    | (if ?b then _ else _) = _ => destruct b; [discriminate | exact H]
    end.
Qed.

End RegexFacts.

(* ------------------------------------------------------------------------- *)
(** ** Facts about effects and the parser *)

Module ParserFacts.

Import JsObject ActionParser RegexFacts.
Local Open Scope js_scope.

Lemma returns_ret {A : Type} (a : A) : returns (ret a) a.
Proof. exists []. intros c. unfold ret. rewrite app_nil_r. reflexivity. Qed.

Lemma quiet_ret {A : Type} (a : A) : quiet (ret a) a.
Proof. intros c. reflexivity. Qed.

Lemma quiet_tryCatch {A : Type} (body : M A) (handler : JsError -> M A) (a : A) :
  quiet body a -> quiet (tryCatch body handler) a.
Proof. intros H c. unfold tryCatch. rewrite H. reflexivity. Qed.

Section Facts.

Variables MAX_RATIO IMAGE_FACTOR MIN_PIXELS MAX_PIXELS_V1_5 : number.
Variable toLowerCase : jsstring -> jsstring.

(** *** [smartResizeForV15] writes at most one line and returns *)

Lemma smartResizeForV15_returns (h w maxRatio factor minPixels maxPixels : number) :
  exists r, returns (smartResizeForV15 h w maxRatio factor minPixels maxPixels) r.
Proof.
  unfold smartResizeForV15.
  destruct (gtb _ maxRatio).
  - exists None. eexists. intros c. reflexivity.
  - destruct (gtb _ maxPixels); [|destruct (ltb _ minPixels)];
      eexists; apply returns_ret.
Qed.

Lemma resolveSmartResize_returns (ver : UITarsModelVersion) (sc : option ScreenContext) :
  exists r, returns (resolveSmartResize MAX_RATIO IMAGE_FACTOR MIN_PIXELS MAX_PIXELS_V1_5 ver sc) r.
Proof.
  unfold resolveSmartResize. destruct sc as [sc|]; [|eexists; apply returns_ret].
  destruct (isV1_5 ver && truthy (height sc) && truthy (width sc))%bool.
  - apply smartResizeForV15_returns.
  - eexists; apply returns_ret.
Qed.

(** *** [parseAction] returns and writes nothing: its [catch] is never entered *)

Lemma heuristicCall_quiet (actionStr actionFound : jsstring) :
  exists kwargs,
    quiet (heuristicCall actionStr actionFound) (Some (mkCall (Some actionFound) kwargs)).
Proof.
  unfold heuristicCall.
  destruct (jseqb actionFound (js "type")).
  - destruct (exec labelledTextPattern actionStr) as [m|] eqn:E1.
    + destruct (exec_defined (i := 1) (eq_refl : defines 1 labelledTextPattern = true) E1)
        as [v Hv].
      rewrite Hv. eexists. intros c. reflexivity.
    + destruct (exec typedTextPattern actionStr) as [m|] eqn:E2.
      * destruct (exec_defined (i := 1) (eq_refl : defines 1 typedTextPattern = true) E2)
          as [v Hv].
        rewrite Hv. eexists. intros c. reflexivity.
      * eexists. intros c. reflexivity.
  - eexists. intros c. reflexivity.
Qed.

Lemma parseActionBody_quiet (actionStr : jsstring) :
  exists r, quiet (parseActionBody toLowerCase actionStr) r.
Proof.
  unfold parseActionBody.
  destruct (exec functionPattern actionStr) as [m|] eqn:E.
  - destruct (exec_defined (i := 2) (eq_refl : defines 2 functionPattern = true) E)
      as [v Hv].
    rewrite Hv. eexists. intros c. reflexivity.
  - destruct (find _ commonActions) as [act|].
    + destruct (heuristicCall_quiet actionStr act) as [kw H]. eexists; exact H.
    + eexists. apply quiet_ret.
Qed.

Lemma parseAction_quiet (actionStr : jsstring) :
  exists r, quiet (parseAction toLowerCase actionStr) r.
Proof.
  unfold parseAction.
  destruct (parseActionBody_quiet (preprocess actionStr)) as [r H].
  exists r. apply quiet_tryCatch. exact H.
Qed.

Lemma parseAction_result (actionStr : jsstring) :
  quiet (parseAction toLowerCase actionStr) (parseActionResult toLowerCase actionStr).
Proof.
  destruct (parseAction_quiet actionStr) as [r H].
  unfold parseActionResult. rewrite H. exact H.
Qed.

(** The first group of the function-call pattern takes part in every match:
    [action_type] is a string. *)
Lemma parseActionResult_function (actionStr : jsstring) (call : ActionCall) :
  parseActionResult toLowerCase actionStr = Some call -> exists f, function call = Some f.
Proof.
  unfold parseActionResult, parseAction, tryCatch.
  generalize (preprocess actionStr); intros s.
  unfold parseActionBody.
  destruct (exec functionPattern s) as [m|] eqn:E.
  - destruct (exec_defined (i := 2) (eq_refl : defines 2 functionPattern = true) E)
      as [v Hv].
    destruct (exec_defined (i := 1) (eq_refl : defines 1 functionPattern = true) E)
      as [f Hf].
    rewrite Hv, Hf. simpl. intros H. inversion H; subst call. exists f. reflexivity.
  - destruct (find _ commonActions) as [act|].
    + destruct (heuristicCall_quiet s act) as [kw H]. rewrite H. simpl.
      intros H'. inversion H'; subst call. exists act. reflexivity.
    + simpl. discriminate.
Qed.

(** *** The [bc] segmentation returns *)

Lemma bcThought_quiet (text : jsstring) : exists rt, quiet (bcThought text) rt.
Proof.
  unfold bcThought.
  destruct (includes text (js "Thought:")).
  - destruct (exec thoughtPattern text) as [m|] eqn:E; [|eexists; apply quiet_ret].
    destruct (exec_defined (i := 1) (eq_refl : defines 1 thoughtPattern = true) E)
      as [v Hv].
    rewrite Hv. eexists. intros c. reflexivity.
  - destruct (startsWith text (js "Reflection:")).
    + destruct (exec reflectionPattern text) as [m|] eqn:E; [|eexists; apply quiet_ret].
      destruct (exec_defined (i := 1) (eq_refl : defines 1 reflectionPattern = true) E)
        as [v1 Hv1].
      destruct (exec_defined (i := 2) (eq_refl : defines 2 reflectionPattern = true) E)
        as [v2 Hv2].
      rewrite Hv1, Hv2. eexists. intros c. reflexivity.
    + destruct (startsWith text (js "Action_Summary:")); [|eexists; apply quiet_ret].
      destruct (exec summaryPattern text) as [m|] eqn:E; [|eexists; apply quiet_ret].
      destruct (exec_defined (i := 1) (eq_refl : defines 1 summaryPattern = true) E)
        as [v Hv].
      rewrite Hv. eexists. intros c. reflexivity.
Qed.

Lemma splitGo_nonempty (r : regex) (s p piece : jsstring) (skip : nat) :
  splitGo r p s piece skip <> [].
Proof.
  revert p piece skip. induction s as [|c t IH]; intros p piece skip; simpl.
  - discriminate.
  - destruct skip; [|apply IH].
    destruct (matchAt r p (c :: t)) as [f|]; [|apply IH].
    destruct (length (matched f)); [destruct piece; [apply IH | discriminate] | discriminate].
Qed.

Lemma lastElement_defined {A : Type} (l : list A) :
  l <> [] -> exists a, lastElement l = Some a.
Proof.
  intros H. unfold lastElement.
  destruct (nth_error l (length l - 1)) as [a|] eqn:E; [exists a; reflexivity|].
  apply nth_error_None in E. destruct l; [congruence | simpl in E; lia].
Qed.

Lemma bcActionStr_defined (text : jsstring) : exists a, bcActionStr text = Some a.
Proof.
  unfold bcActionStr.
  destruct (negb _); [exists text; reflexivity|].
  apply lastElement_defined. destruct text as [|c t].
  - discriminate.
  - apply splitGo_nonempty.
Qed.

Lemma segment_quiet (mode : Mode) (text : jsstring) :
  exists reflection thought actionStr,
    quiet (segment mode text) (reflection, thought, Some actionStr).
Proof.
  destruct mode; simpl.
  - destruct (bcThought_quiet text) as [[r t] H].
    destruct (bcActionStr_defined text) as [a Ha].
    exists r, t, a. intros c. unfold bind. rewrite H, Ha. reflexivity.
  - do 3 eexists. apply quiet_ret.
Qed.

(** *** The loop over the tokens *)

Lemma forOf_parseToken (factors : number * number) (ver : UITarsModelVersion)
    (smart : option (number * number)) (sc : option ScreenContext)
    (sf : option number) (reflection thought : option jsstring) (tokens : list jsstring) :
  forall actions,
    quiet (forOf tokens
                 (parseToken toLowerCase factors ver smart sc sf reflection thought)
                 actions)
          (actions ++ map (fun rawStr =>
                             toParsed factors ver smart sc sf reflection thought
                                      (parseActionResult toLowerCase (unescape rawStr)))
                          tokens).
Proof.
  induction tokens as [|tok rest IH]; intros actions c; simpl.
  - rewrite app_nil_r. reflexivity.
  - unfold bind at 1. unfold parseToken at 1. unfold bind at 1.
    rewrite parseAction_result. unfold ret at 1.
    rewrite IH, <- app_assoc. reflexivity.
Qed.

(** [parseActionVlm] never throws; it returns one entry for each token, in
    order, built from what [parseAction] returns for the token. *)
Theorem parseActionVlm_shape (text : jsstring) (factors : option (number * number))
    (mode : option Mode) (sc : option ScreenContext) (sf : option number)
    (ver : option UITarsModelVersion) :
  exists smart log reflection thought actionStr,
    returns (resolveSmartResize MAX_RATIO IMAGE_FACTOR MIN_PIXELS MAX_PIXELS_V1_5
                                (withDefault V1_0 ver) sc) smart
    /\ quiet (segment (withDefault bc mode) (trim text))
             (reflection, thought, Some actionStr)
    /\ forall c,
         parseActionVlm MAX_RATIO IMAGE_FACTOR MIN_PIXELS MAX_PIXELS_V1_5 toLowerCase
                        text factors mode sc sf ver c
         = (Returned
              (map (fun rawStr =>
                      toParsed (withDefault (ofZ 1000, ofZ 1000) factors)
                               (withDefault V1_0 ver) smart sc sf reflection thought
                               (parseActionResult toLowerCase (unescape rawStr)))
                   (tokenize actionStr)),
            c ++ log).
Proof.
  destruct (resolveSmartResize_returns (withDefault V1_0 ver) sc) as [smart Hs].
  destruct (segment_quiet (withDefault bc mode) (trim text)) as [r [t [a Hseg]]].
  destruct Hs as [log Hlog].
  exists smart, log, r, t, a. split; [exists log; exact Hlog|]. split; [exact Hseg|].
  intros c. unfold parseActionVlm. unfold bind at 1. rewrite Hlog.
  unfold bind at 1. rewrite Hseg. unfold bind at 1. simpl defined. unfold ret at 1.
  rewrite forOf_parseToken. reflexivity.
Qed.

End Facts.

End ParserFacts.
Import ParserFacts.

(* ------------------------------------------------------------------------- *)
(** ** Facts about the action marker *)

Module MarkerFacts.

Import ActionParser ParserFacts.

Lemma matchAt_marker p s :
  matchAt actionMarker p s
  = if markerAt s
    then Some (mkFound (mkState p s [])
                       (mkState (rev (firstn 7 s) ++ p) (skipn 7 s) []))
    else None.
Proof.
  unfold markerAt, matchAt, actionMarker, actionKeywords.
  cbv [js cu lit lit1 oneOf mtch suf pre caps advance existsb app FULLWIDTH_COLON startsWith].
  do 6 (let c := fresh "c" in
        destruct s as [|c s]; [reflexivity|];
        match goal with
        | |- context [N.eqb ?a c] => destruct (N.eqb_spec a c) as [<-|_]; [|reflexivity]
        end; cbv [andb orb]).
  destruct s as [|c5 s]; [reflexivity|].
  destruct (N.eqb_spec (N_of_ascii ":") c5) as [<-|E1]; [reflexivity|].
  destruct (N.eqb_spec 65306 c5) as [<-|E2]; [reflexivity|].
  destruct (N.eqb_spec c5 58) as [->|_]; [elim E1; reflexivity|].
  destruct (N.eqb_spec c5 65306) as [->|_]; [elim E2; reflexivity|].
  reflexivity.
Qed.

Lemma markerAt_shape s :
  markerAt s = true ->
  exists x r, s = js "Action" ++ x :: r /\ (x = 58%N \/ x = FULLWIDTH_COLON).
Proof.
  unfold markerAt, actionKeywords.
  cbv [js cu existsb app FULLWIDTH_COLON startsWith].
  do 6 (let c := fresh "c" in
        destruct s as [|c s]; [discriminate|];
        match goal with
        | |- context [N.eqb ?a c] => destruct (N.eqb_spec a c) as [<-|_]; [|discriminate]
        end; cbv [andb orb]).
  destruct s as [|c5 s]; [discriminate|].
  destruct (N.eqb_spec (N_of_ascii ":") c5) as [<-|E1].
  - intros _. exists 58%N, s. split; [reflexivity | left; reflexivity].
  - destruct (N.eqb_spec 65306 c5) as [<-|E2]; [|discriminate].
    intros _. exists 65306%N, s. split; [reflexivity | right; reflexivity].
Qed.

Lemma afterLast_not_A c t : c <> 65%N -> afterLast (c :: t) = afterLast t.
Proof.
  intros H. simpl. destruct (afterLast t); [reflexivity|].
  unfold markerAt, actionKeywords.
  cbv [js cu existsb app startsWith].
  destruct (N.eqb_spec (N_of_ascii "A") c) as [E|_]; [elim H; rewrite <- E; reflexivity|].
  reflexivity.
Qed.

Lemma afterLast_marker s :
  markerAt s = true ->
  afterLast s = Some (match afterLast (skipn 7 s) with Some r => r | None => skipn 7 s end).
Proof.
  intros H. destruct (markerAt_shape H) as [x [r [-> Hx]]].
  cbv [js cu app]. change (skipn 7 _) with r.
  change (afterLast (?a :: ?t)) with
    (match afterLast t with
     | Some r => Some r
     | None => if markerAt (a :: t) then Some (skipn 7 (a :: t)) else None
     end).
  rewrite !afterLast_not_A;
    try (apply N.eqb_neq; reflexivity);
    try (destruct Hx as [-> | ->]; apply N.eqb_neq; reflexivity).
  destruct (afterLast r); [reflexivity|].
  match goal with
  | |- (if ?b then _ else _) = _ => change b with (markerAt (js "Action" ++ x :: r))
  end.
  rewrite H. reflexivity.
Qed.

Lemma splitGo_skip (r : regex) (n : nat) :
  forall s p piece,
    splitGo r p s piece n = splitGo r (rev (firstn n s) ++ p) (skipn n s) piece 0.
Proof.
  induction n as [|n IH]; intros s p piece.
  - reflexivity.
  - destruct s as [|c t]; [reflexivity|].
    simpl splitGo at 1. rewrite IH. simpl firstn. simpl skipn. simpl rev.
    rewrite <- app_assoc. reflexivity.
Qed.

Lemma lastElement_cons {A : Type} (a : A) (l : list A) :
  l <> [] -> lastElement (a :: l) = lastElement l.
Proof.
  intros H. unfold lastElement. destruct l as [|b l]; [congruence|].
  simpl. rewrite Nat.sub_0_r. reflexivity.
Qed.

Lemma matched_marker (s p q : jsstring) :
  markerAt s = true ->
  length (matched (mkFound (mkState p s []) (mkState q (skipn 7 s) []))) = 7.
Proof.
  intros M. destruct (markerAt_shape M) as [x [r [-> _]]].
  unfold matched, consumed. cbn [f_start f_end suf].
  rewrite length_firstn, length_skipn. cbv [js cu app]. cbn [length]. lia.
Qed.

Lemma splitGo_last (n : nat) :
  forall s, length s <= n -> forall p piece,
    lastElement (splitGo actionMarker p s piece 0)
    = Some (match afterLast s with Some r => r | None => rev piece ++ s end).
Proof.
  induction n as [|n IH]; intros s Hn p piece.
  - destruct s; [|simpl in Hn; lia]. simpl. rewrite app_nil_r. reflexivity.
  - destruct s as [|c t]; [simpl; rewrite app_nil_r; reflexivity|].
    simpl in Hn. simpl splitGo. rewrite matchAt_marker.
    destruct (markerAt (c :: t)) eqn:M.
    + rewrite (matched_marker _ _ M).
      rewrite lastElement_cons by apply splitGo_nonempty.
      rewrite splitGo_skip, (afterLast_marker M).
      destruct (markerAt_shape M) as [x [r [E _]]].
      cbv [js cu app] in E. injection E as -> ->.
      cbn [skipn]. rewrite IH by (simpl in Hn |- *; lia).
      destruct (afterLast r); reflexivity.
    + rewrite IH by lia.
      simpl afterLast. rewrite M. destruct (afterLast t); [reflexivity|].
      simpl. rewrite <- app_assoc. reflexivity.
Qed.


Lemma startsWith_prefix (p : jsstring) :
  forall s, startsWith s p = true <-> exists r, s = p ++ r.
Proof.
  induction p as [|x p IH]; intros s; simpl.
  - split; [intros _; exists s; reflexivity | reflexivity].
  - destruct s as [|y s].
    + split; [discriminate | intros [r H]; discriminate].
    + destruct (N.eqb_spec x y) as [->|N]; simpl.
      * rewrite IH. split; intros [r H]; exists r; [rewrite H | injection H as H]; auto.
      * split; [discriminate | intros [r H]; injection H as H _; congruence].
Qed.

Lemma includes_occurrence (k : jsstring) :
  forall s, includes s k = true -> exists q, startsWith (skipn q s) k = true.
Proof.
  induction s as [|c t IH]; simpl; intros H.
  - destruct (startsWith [] k) eqn:E; [exists 0; exact E | discriminate].
  - destruct (startsWith (c :: t) k) eqn:E; [exists 0; exact E|].
    destruct (IH H) as [q Hq]. exists (S q). exact Hq.
Qed.

Lemma afterLast_None (s : jsstring) :
  afterLast s = None -> forall q, markerAt (skipn q s) = false.
Proof.
  induction s as [|c t IH]; intros H q.
  - destruct q; reflexivity.
  - simpl in H. destruct (afterLast t) eqn:E; [discriminate|].
    destruct (markerAt (c :: t)) eqn:M; [discriminate|].
    destruct q as [|q]; [exact M | apply IH; reflexivity].
Qed.

Lemma afterLast_Some (s : jsstring) :
  forall r, afterLast s = Some r ->
  exists before kw,
    In kw actionKeywords /\ s = before ++ kw ++ r
    /\ forall q, markerAt (skipn q s) = true -> q <= length before.
Proof.
  induction s as [|c t IH]; intros r H; [discriminate|].
  cbn [afterLast] in H. destruct (afterLast t) as [r'|] eqn:E.
  - inversion H; subst r'. destruct (IH r eq_refl) as [b [kw [Hin [Ht Hq]]]].
    exists (c :: b), kw. split; [exact Hin|]. split; [simpl; rewrite <- Ht; reflexivity|].
    intros [|q] M; simpl; [lia|]. apply Hq in M. lia.
  - destruct (markerAt (c :: t)) eqn:M; [|discriminate].
    destruct (markerAt_shape M) as [x [r0 [Es Hx]]].
    rewrite Es in H. cbv [js cu app] in H. cbn [skipn] in H.
    inversion H; subst r0.
    exists [], (js "Action" ++ [x]). split.
    + destruct Hx as [->| ->]; [left | right; left]; reflexivity.
    + split; [rewrite Es; reflexivity|].
      intros [|q] M'; [simpl; lia|]. simpl in M'.
      rewrite (afterLast_None E) in M'. discriminate.
Qed.

End MarkerFacts.
Import MarkerFacts.

(* ------------------------------------------------------------------------- *)
(** ** Facts about the tokens *)

Module TokenFacts.

Import ActionParser MarkerFacts.

Lemma length_dropNewlines (s : jsstring) : length (dropNewlines s) <= length s.
Proof.
  induction s as [|c t IH]; cbn [dropNewlines length]; [lia|].
  destruct (N.eqb LF c); cbn [length]; lia.
Qed.

Lemma repeat_newline (n : nat) :
  forall t p, length t <= n ->
    repeatMatcher (mtch (lit1 LF)) [] true Some n (mkState p t [])
    = Some (mkState (rev (firstn (length t - length (dropNewlines t)) t) ++ p)
                    (dropNewlines t) []).
Proof.
  induction n as [|n IH]; intros t p Hn.
  - destruct t; [reflexivity | simpl in Hn; lia].
  - destruct t as [|c t]; [reflexivity|].
    simpl in Hn. cbn [repeatMatcher mtch lit1 clear suf pre caps filter advance].
    cbn [dropNewlines]. destruct (N.eqb LF c) eqn:E.
    + replace (Nat.ltb (length t) (length (c :: t))) with true
        by (symmetry; apply Nat.ltb_lt; cbn [length]; lia).
      change (advance c t (clear [] (mkState p (c :: t) []))) with (mkState (c :: p) t []).
      change (repeatMatcher _ [] true Some n (mkState (c :: p) t []))
        with (repeatMatcher (mtch (lit1 LF)) [] true Some n (mkState (c :: p) t [])).
      rewrite IH by lia.
      pose proof (length_dropNewlines t).
      replace (length (c :: t) - length (dropNewlines t))
        with (S (length t - length (dropNewlines t))) by (cbn [length]; lia).
      cbn [firstn rev]. rewrite <- app_assoc. reflexivity.
    + replace (length (c :: t) - length (c :: t)) with 0 by lia. reflexivity.
Qed.

Lemma matchAt_newlines (p s : jsstring) :
  matchAt newlines p s
  = match s with
    | c :: t =>
        if N.eqb LF c
        then Some (mkFound (mkState p s [])
                           (mkState (rev (firstn (length t - length (dropNewlines t)) t)
                                     ++ c :: p)
                                    (dropNewlines t) []))
        else None
    | [] => None
    end.
Proof.
  unfold matchAt, newlines.
  destruct s as [|c t]; [reflexivity|].
  change (mtch (Plus true (lit1 LF)) Some (mkState p (c :: t) []))
    with (if N.eqb LF c
          then repeatMatcher (mtch (lit1 LF)) [] true Some (length t)
                             (mkState (c :: p) t [])
          else None).
  destruct (N.eqb LF c); [|reflexivity].
  rewrite repeat_newline by lia. reflexivity.
Qed.

Lemma linesOf_dropNewlines (t : jsstring) :
  filter notBlank (linesOf t []) = filter notBlank (linesOf (dropNewlines t) []).
Proof.
  induction t as [|c t IH]; [reflexivity|].
  cbn [dropNewlines]. destruct (N.eqb LF c) eqn:E; [|reflexivity].
  cbn [linesOf]. rewrite E. cbn [filter rev]. exact IH.
Qed.

Lemma skipn_dropNewlines (t : jsstring) :
  skipn (length t - length (dropNewlines t)) t = dropNewlines t.
Proof.
  induction t as [|c t IH]; [reflexivity|].
  cbn [dropNewlines]. destruct (N.eqb LF c).
  - pose proof (length_dropNewlines t).
    replace (length (c :: t) - length (dropNewlines t))
      with (S (length t - length (dropNewlines t))) by (cbn [length]; lia).
    exact IH.
  - replace (length (c :: t) - length (c :: t)) with 0 by lia. reflexivity.
Qed.

Lemma splitGo_lines (n : nat) :
  forall s, length s <= n -> forall p piece,
    filter notBlank (splitGo newlines p s piece 0) = filter notBlank (linesOf s piece).
Proof.
  induction n as [|n IH]; intros s Hn p piece.
  - destruct s; [reflexivity | simpl in Hn; lia].
  - destruct s as [|c t]; [reflexivity|].
    simpl in Hn. cbn [splitGo linesOf]. rewrite matchAt_newlines.
    destruct (N.eqb LF c) eqn:E.
    + unfold matched, consumed. cbn [f_start f_end suf].
      pose proof (length_dropNewlines t).
      rewrite length_firstn.
      replace (Nat.min (length (c :: t) - length (dropNewlines t)) (length (c :: t)))
        with (S (length t - length (dropNewlines t))) by (cbn [length]; lia).
      cbn [filter]. rewrite splitGo_skip, skipn_dropNewlines.
      rewrite IH by lia. rewrite <- linesOf_dropNewlines. reflexivity.
    + apply IH. lia.
Qed.

Theorem tokenize_lines (s : jsstring) :
  tokenize s = filter notBlank (linesOf s []).
Proof.
  unfold tokenize, split. fold notBlank. destruct s as [|c t].
  - reflexivity.
  - apply (splitGo_lines (n := length (c :: t))). lia.
Qed.

End TokenFacts.
Import TokenFacts.

(* ------------------------------------------------------------------------- *)
(** ** Facts about strings, objects and numbers *)

Module DataFacts.

Import JsObject ActionParser MarkerFacts.

Lemma jseqb_eq (a : jsstring) : forall b, jseqb a b = true <-> a = b.
Proof.
  induction a as [|x a IH]; intros [|y b]; simpl; try (split; [discriminate|discriminate]).
  - split; reflexivity.
  - rewrite andb_true_iff, N.eqb_eq, IH. split.
    + intros [-> ->]; reflexivity.
    + intros H; injection H as -> ->; split; reflexivity.
Qed.

Lemma jseqb_refl (a : jsstring) : jseqb a a = true.
Proof. apply jseqb_eq. reflexivity. Qed.

Lemma get_update {V : Type} (k : jsstring) (v : V) (o : obj V) :
  get k (update k v o) = Some v.
Proof.
  induction o as [|[k' v'] o IH]; simpl.
  - rewrite jseqb_refl. reflexivity.
  - destruct (jseqb k k') eqn:E; simpl.
    + rewrite jseqb_refl. reflexivity.
    + rewrite E. exact IH.
Qed.

Lemma get_set {V : Type} (k : jsstring) (v : V) (o : obj V) :
  k <> js "__proto__" -> get k (set k v o) = Some v.
Proof.
  intros H. unfold set. destruct (jseqb k (js "__proto__")) eqn:E.
  - apply jseqb_eq in E. contradiction.
  - apply get_update.
Qed.

Lemma in_trimStart (c : codeunit) (s : jsstring) :
  isWhiteSpace c = false -> In c s -> In c (trimStart s).
Proof.
  intros Hc. induction s as [|x s IH]; simpl; [auto|].
  intros [->|H].
  - rewrite Hc. left; reflexivity.
  - destruct (isWhiteSpace x); [auto | right; exact H].
Qed.

Lemma in_trim (c : codeunit) (s : jsstring) :
  isWhiteSpace c = false -> In c s -> In c (trim s).
Proof.
  intros Hc H. unfold trim, trimEnd.
  apply -> in_rev. apply in_trimStart; [exact Hc|].
  apply -> in_rev. apply in_trimStart; assumption.
Qed.

Lemma includes_in (c : codeunit) (k s : jsstring) :
  In c k -> includes s k = true -> In c s.
Proof.
  intros Hc H. destruct (includes_occurrence H) as [q Hq].
  apply startsWith_prefix in Hq. destruct Hq as [r Hr].
  assert (In c (skipn q s)) by (rewrite Hr; apply in_or_app; left; exact Hc).
  rewrite <- (firstn_skipn q s). apply in_or_app. right. assumption.
Qed.

(** The key under which a box argument is stored is never [__proto__]. *)
Lemma box_key_is_own (paramName : jsstring) :
  (includes paramName (js "start_box") || includes paramName (js "end_box"))%bool = true ->
  trim paramName <> js "__proto__".
Proof.
  intros H E.
  assert (Hx : In 120%N paramName).
  { apply orb_true_iff in H. destruct H as [H|H];
      refine (includes_in _ H); vm_compute; tauto. }
  apply (in_trim (c := 120%N)) in Hx; [|reflexivity].
  rewrite E in Hx. vm_compute in Hx. intuition discriminate.
Qed.




Lemma storeParam_box (factors : number * number) (ver : UITarsModelVersion)
    (smart : option (number * number)) (sc : option ScreenContext) (sf : option number)
    (actionInputs : ActionInputs) (paramName param : jsstring) :
  param <> [] ->
  (includes paramName (js "start_box") || includes paramName (js "end_box"))%bool = true ->
  storeParam factors ver smart sc sf actionInputs (paramName, param)
  = let floatNumbers := normalizeBox factors ver smart (trim param) in
    let stored := set (trim paramName) (VString (JSON_stringify floatNumbers)) actionInputs in
    match hasSize sc with
    | Some s =>
        set (if includes paramName (js "start_box") then js "start_coords" else js "end_coords")
            (boxCoords factors s sf floatNumbers) stored
    | None => stored
    end.
Proof.
  intros Hp Hbox. unfold storeParam. destruct param as [|c p]; [contradiction|].
  rewrite Hbox. reflexivity.
Qed.

Lemma boxCoords_empty (factors : number * number) (sc : ScreenContext)
    (sf : option number) (floatNumbers : list number) :
  boxCoords factors sc sf floatNumbers = VCoords [] <-> length floatNumbers < 2.
Proof.
  unfold boxCoords. destruct factors as [wf hf].
  destruct floatNumbers as [|a [|b r]]; simpl.
  - split; [lia | reflexivity].
  - split; [lia | reflexivity].
  - destruct r as [|x [|y r]]; simpl; (split; [intros H; discriminate H | lia]).
Qed.




End DataFacts.
Import DataFacts.

(* ------------------------------------------------------------------------- *)
(** ** Properties of the pipeline *)

Import JsObject ActionParser RegexFacts.

Section Pipeline.

Variables MAX_RATIO IMAGE_FACTOR MIN_PIXELS MAX_PIXELS_V1_5 : number.
Variable toLowerCase : jsstring -> jsstring.

(** C4.  For every text and every parameter set, [parseActionVlm] returns
    (it does not throw), and the number of entries it returns is the number
    of segments of the action string, split on runs of one or more newlines,
    that are not made of white space only; these are the lines of the action
    string that are not made of white space only.  When there is no such
    segment the result is the empty sequence. *)
Theorem parsed_count_is_token_count
    (text : jsstring) (factors : option (number * number)) (mode : option Mode)
    (sc : option ScreenContext) (sf : option number) (ver : option UITarsModelVersion)
    (c : console) :
  exists reflection thought actionStr actions c',
    (forall c0, segment (withDefault bc mode) (trim text) c0
                = (Returned (reflection, thought, Some actionStr), c0))
    /\ parseActionVlm MAX_RATIO IMAGE_FACTOR MIN_PIXELS MAX_PIXELS_V1_5 toLowerCase
                      text factors mode sc sf ver c = (Returned actions, c')
    /\ length actions
       = length (filter (fun a => negb (jseqb (trim a) [])) (split newlines actionStr))
    /\ length actions = length (filter notBlank (linesOf actionStr []))
    /\ (filter (fun a => negb (jseqb (trim a) [])) (split newlines actionStr) = []
        -> actions = []).
Proof.
  destruct (parseActionVlm_shape MAX_RATIO IMAGE_FACTOR MIN_PIXELS MAX_PIXELS_V1_5
              toLowerCase text factors mode sc sf ver)
    as [smart [log [r [t [a [_ [Hseg Hrun]]]]]]].
  exists r, t, a. eexists. exists (c ++ log).
  split; [exact Hseg|]. split; [apply Hrun|].
  fold (tokenize a). split; [apply length_map|]. split.
  - rewrite <- tokenize_lines. apply length_map.
  - intros E. rewrite E. reflexivity.
Qed.

(** C5.  A token that fails the function-call pattern and in which, lower
    cased, no word of the vocabulary occurs yields an entry with the empty
    string as [action_type] and no [action_inputs].  The call returns, with
    one entry per token: the entry of every token, before or after the one
    that failed, is made of what [parseAction] returns for that token. *)
Theorem unparsable_token_yields_empty_action
    (text : jsstring) (factors : option (number * number)) (mode : option Mode)
    (sc : option ScreenContext) (sf : option number) (ver : option UITarsModelVersion)
    (reflection thought : option jsstring) (actionStr rawStr : jsstring) (i : nat)
    (Hseg : segment (withDefault bc mode) (trim text) []
            = (Returned (reflection, thought, Some actionStr), []))
    (Htok : nth_error (tokenize actionStr) i = Some rawStr)
    (Hgrammar : exec functionPattern (preprocess (unescape rawStr)) = None)
    (Hvocab : find (fun act => includes (toLowerCase (preprocess (unescape rawStr))) act)
                   commonActions = None)
    (c : console) :
  exists actions c' smart,
    parseActionVlm MAX_RATIO IMAGE_FACTOR MIN_PIXELS MAX_PIXELS_V1_5 toLowerCase
                   text factors mode sc sf ver c = (Returned actions, c')
    /\ length actions = length (tokenize actionStr)
    /\ nth_error actions i
       = Some (mkParsed reflection (match thought with Some t => t | None => [] end)
                        (Some []) empty)
    /\ forall j token,
         nth_error (tokenize actionStr) j = Some token ->
         exists call,
           (forall c0, parseAction toLowerCase (unescape token) c0 = (Returned call, c0))
           /\ nth_error actions j
              = Some (toParsed (withDefault (ofZ 1000, ofZ 1000) factors)
                               (withDefault V1_0 ver) smart sc sf reflection thought call).
Proof.
  destruct (parseActionVlm_shape MAX_RATIO IMAGE_FACTOR MIN_PIXELS MAX_PIXELS_V1_5
              toLowerCase text factors mode sc sf ver)
    as [smart [log [r [t [a [_ [Hseg' Hrun]]]]]]].
  rewrite Hseg' in Hseg. inversion Hseg; subst r t a.
  eexists. exists (c ++ log), smart. split; [apply Hrun|]. split; [apply length_map|].
  split.
  - rewrite nth_error_map, Htok. simpl. f_equal.
    assert (R : parseActionResult toLowerCase (unescape rawStr) = None).
    { unfold parseActionResult, parseAction, tryCatch, parseActionBody.
      rewrite Hgrammar, Hvocab. reflexivity. }
    rewrite R. reflexivity.
  - intros j token Hj. exists (parseActionResult toLowerCase (unescape token)).
    split; [apply parseAction_result|].
    rewrite nth_error_map, Hj. reflexivity.
Qed.

(** C10.  In [o1] mode the call returns, and the thought of every entry is
    the template text: the first capture of the thought pattern, a newline,
    [<Action_Summary>], a newline, the first capture of the summary pattern.
    Where a pattern does not match, the text [null] stands for its capture;
    no entry has an empty thought. *)
Theorem o1_thought_is_template
    (text : jsstring) (factors : option (number * number))
    (sc : option ScreenContext) (sf : option number) (ver : option UITarsModelVersion)
    (c : console) :
  exists actions c' thoughtContent actionSummaryContent,
    parseActionVlm MAX_RATIO IMAGE_FACTOR MIN_PIXELS MAX_PIXELS_V1_5 toLowerCase
                   text factors (Some o1) sc sf ver c = (Returned actions, c')
    /\ match exec o1ThoughtPattern (trim text) with
       | Some m => group 1 m = Some thoughtContent
       | None => thoughtContent = js "null"
       end
    /\ match exec o1SummaryPattern (trim text) with
       | Some m => group 1 m = Some actionSummaryContent
       | None => actionSummaryContent = js "null"
       end
    /\ Forall (fun a => thought a
                        = thoughtContent ++ [LF] ++ js "<Action_Summary>" ++ [LF]
                          ++ actionSummaryContent
                        /\ thought a <> [])
              actions.
Proof.
  destruct (parseActionVlm_shape MAX_RATIO IMAGE_FACTOR MIN_PIXELS MAX_PIXELS_V1_5
              toLowerCase text factors (Some o1) sc sf ver)
    as [smart [log [r [t [a [_ [Hseg Hrun]]]]]]].
  simpl in Hseg. specialize (Hseg []). unfold ret in Hseg.
  inversion Hseg; subst r t a. clear Hseg.
  assert (Hcap : forall p, defines 1 p = true ->
            exists v, toStr (captureOrNull p (trim text)) = v
                      /\ match exec p (trim text) with
                         | Some m => group 1 m = Some v
                         | None => v = js "null"
                         end).
  { intros p Hp. unfold captureOrNull.
    destruct (exec p (trim text)) as [m|] eqn:E.
    - destruct (exec_defined Hp E) as [v Hv]. rewrite Hv.
      exists v. split; reflexivity.
    - exists (js "null"). split; reflexivity. }
  destruct (Hcap o1ThoughtPattern eq_refl) as [tc [Ht Htm]].
  destruct (Hcap o1SummaryPattern eq_refl) as [sc' [Hs Hsm]].
  eexists. exists (c ++ log), tc, sc'.
  split; [apply Hrun|]. split; [exact Htm|]. split; [exact Hsm|].
  apply Forall_forall. intros e He. apply in_map_iff in He.
  destruct He as [tok [He _]]. subst e. unfold toParsed.
  destruct (parseActionResult toLowerCase (unescape tok)); simpl;
    unfold o1Thought; rewrite Ht, Hs; (split; [reflexivity|]);
    destruct tc; discriminate.
Qed.


End Pipeline.

(** C2, as amended.  In [bc] mode, with [t] the text after [trim]: the
    segmentation returns; if [t] contains neither keyword the action string
    is [t]; otherwise [t] is some text, a keyword, and the action string, and
    no keyword starts further to the right in [t]. *)
Theorem bc_action_string_after_last_marker (text : jsstring) :
  let t := trim text in
  exists reflection thought actionStr,
    (forall c, segment bc t c = (Returned (reflection, thought, Some actionStr), c))
    /\ (existsb (fun keyword => includes t keyword) actionKeywords = false ->
        actionStr = t)
    /\ (existsb (fun keyword => includes t keyword) actionKeywords = true ->
        exists before keyword,
          In keyword actionKeywords
          /\ t = before ++ keyword ++ actionStr
          /\ forall q keyword',
               In keyword' actionKeywords ->
               startsWith (skipn q t) keyword' = true -> q <= length before).
Proof.
  intros t.
  destruct (segment_quiet bc t) as [r [th [a Hseg]]].
  exists r, th, a. split; [exact Hseg|].
  assert (Ha : bcActionStr t = Some a).
  { specialize (Hseg []). simpl in Hseg. unfold bind in Hseg.
    destruct (bcThought t []) as [[rt|e] c']; [|discriminate].
    unfold ret in Hseg. injection Hseg as E1 E2 E3 E4. exact E3. }
  unfold bcActionStr in Ha. split.
  - intros E. rewrite E in Ha. simpl in Ha. congruence.
  - intros E. rewrite E in Ha. simpl in Ha.
    assert (Hm : exists q, markerAt (skipn q t) = true).
    { apply existsb_exists in E. destruct E as [kw [Hin Hinc]].
      destruct (includes_occurrence Hinc) as [q Hq]. exists q.
      unfold markerAt. apply existsb_exists. exists kw. split; assumption. }
    assert (Hl : lastElement (split actionMarker t)
                 = Some (match afterLast t with Some r => r | None => t end)).
    { destruct t as [|c0 t0] eqn:Et.
      - destruct Hm as [[|q] Hq]; discriminate.
      - unfold split. rewrite (splitGo_last (n := length (c0 :: t0))) by lia.
        reflexivity. }
    rewrite Hl in Ha. inversion Ha as [Ea]. clear Ha Hl.
    destruct (afterLast t) as [r'|] eqn:El.
    + destruct (afterLast_Some El) as [b [kw [Hin [Ht Hq]]]].
      exists b, kw. split; [exact Hin|]. split; [exact Ht|].
      intros q kw' Hin' Hs. apply Hq. unfold markerAt.
      apply existsb_exists. exists kw'. split; assumption.
    + destruct Hm as [q Hq]. rewrite (afterLast_None El) in Hq. discriminate.
Qed.

(** C2 as stated fails on a text with white space around it: the text [ x]
    contains no keyword, and its action string is [x], not the text. *)
Lemma bc_action_string_is_not_the_original_text :
  existsb (fun keyword => includes (js " x") keyword) actionKeywords = false
  /\ segment bc (trim (js " x")) [] = (Returned (None, None, Some (js "x")), [])
  /\ js "x" <> js " x".
Proof.
  split; [reflexivity|]. split; [reflexivity|]. discriminate.
Qed.

(** C5 at work: of the three tokens of this prediction the second is
    [???]; the parser returns three entries, the second with the empty
    [action_type] and no inputs. *)
Lemma unparsable_token_example :
  exists actions c',
    Sample.parseActionVlm Sample.unparsableSecond None None None None None []
    = (Returned actions, c')
    /\ map action_type actions = [Some (js "click"); Some []; Some (js "wait")]
    /\ nth_error actions 1 = Some (mkParsed None (js "try") (Some []) empty).
Proof.
  destruct (@unparsable_token_yields_empty_action
              Sample.MAX_RATIO Sample.IMAGE_FACTOR Sample.MIN_PIXELS
              Sample.MAX_PIXELS_V1_5 Sample.toLowerCase
              Sample.unparsableSecond None None None None None
              None (Some (js "try"))
              (Sample.lines [js " click(start_box='(100,200)')"; js "???"; [];
                             js "wait()"])
              (js "???") 1 eq_refl eq_refl eq_refl eq_refl [])
    as [actions [c' [smart [Hrun [_ [Hnth _]]]]]].
  exists actions, c'. split; [exact Hrun|]. split; [|exact Hnth].
  vm_compute in Hrun. inversion Hrun; subst actions c'. reflexivity.
Defined.

(** C10 at work: a prediction with neither a thought nor a summary. *)
Lemma o1_thought_null_example :
  exists actions c',
    Sample.parseActionVlm Sample.bareOutput None (Some o1) None None None []
    = (Returned actions, c')
    /\ map thought actions
       = [js "null" ++ [LF] ++ js "<Action_Summary>" ++ [LF] ++ js "null"].
Proof.
  destruct (@o1_thought_is_template
              Sample.MAX_RATIO Sample.IMAGE_FACTOR Sample.MIN_PIXELS Sample.MAX_PIXELS_V1_5
              Sample.toLowerCase Sample.bareOutput None None None None [])
    as [actions [c' [tc [sc [Hrun [Ht [Hs HF]]]]]]].
  exists actions, c'. split; [exact Hrun|].
  vm_compute in Ht. vm_compute in Hs. subst tc sc.
  vm_compute in Hrun. inversion Hrun; subst actions c'. reflexivity.
Defined.




(** C6.  A box argument [(100,200)] is normalized, for every model version
    and when no smart-resize factors apply, to four numbers: the first
    divided by the width factor, the second by the height factor, and the
    two again; with factors 1000 and 1000 and no screen context the value
    stored under the trimmed key is the text [[0.1,0.2,0.1,0.2]]. *)
Theorem point_normalizes_to_degenerate_box
    (paramName : jsstring) (ver : UITarsModelVersion) (sf : option number)
    (actionInputs : ActionInputs) (widthFactor heightFactor : number)
    (Hbox : (includes paramName (js "start_box") || includes paramName (js "end_box"))%bool
            = true) :
  normalizeBox (widthFactor, heightFactor) ver None (js "(100,200)")
  = [div (ofZ 100) widthFactor; div (ofZ 200) heightFactor;
     div (ofZ 100) widthFactor; div (ofZ 200) heightFactor]
  /\ get (trim paramName)
         (storeParam (ofZ 1000, ofZ 1000) ver None None sf actionInputs
                     (paramName, js "(100,200)"))
     = Some (VString (js "[0.1,0.2,0.1,0.2]")).
Proof.
  assert (N : forall wf hf,
            normalizeBox (wf, hf) ver None (js "(100,200)")
            = [div (ofZ 100) wf; div (ofZ 200) hf; div (ofZ 100) wf; div (ofZ 200) hf]).
  { intros wf hf. unfold normalizeBox.
    replace (filter _ (splitComma (replaceAll brackets [] (js "(100,200)")) []))
      with [js "100"; js "200"] by (vm_compute; reflexivity).
    cbn [mapi].
    replace (parseFloat (js "100")) with (ofZ 100) by (vm_compute; reflexivity).
    replace (parseFloat (js "200")) with (ofZ 200) by (vm_compute; reflexivity).
    change (Nat.modulo 0 2) with 0. change (Nat.modulo 1 2) with 1.
    destruct ver; reflexivity. }
  split; [apply N|].
  rewrite storeParam_box by (discriminate || exact Hbox).
  cbn [hasSize]. cbv zeta.
  rewrite get_set by (apply box_key_is_own; exact Hbox).
  change (trim (js "(100,200)")) with (js "(100,200)").
  rewrite N. apply f_equal. apply f_equal. vm_compute. reflexivity.
Qed.


(** C6 at work, for the key [start_box] and through [actionParser]. *)
Lemma point_example :
  get (js "start_box")
      (storeParam (ofZ 1000, ofZ 1000) V1_0 None None None empty
                  (js "start_box", js "(100,200)"))
  = Some (VString (js "[0.1,0.2,0.1,0.2]"))
  /\ Sample.actionParser
       (mkParams (Sample.lines [js "Thought: click the button";
                                js "Action: click(start_box='(100,200)')"])
                 (Pair (ofZ 1000) (ofZ 1000)) None None (Some bc) None) []
     = (Returned (mkResult [mkParsed None (js "click the button") (Some (js "click"))
                                     [(js "start_box", VString (js "[0.1,0.2,0.1,0.2]"))]]),
        []).
Proof.
  split.
  - exact (proj2 (@point_normalizes_to_degenerate_box (js "start_box") V1_0 None empty
                    (ofZ 1000) (ofZ 1000) eq_refl)).
  - vm_compute. reflexivity.
Defined.


(** C7.  When the screen context has a non-zero width and height and the
    box holds at least two numbers, the array stored under [start_coords]
    (for a key containing [start_box], [end_coords] otherwise) has the two
    components round(((x1 + x2) / 2) * width * widthFactor) / widthFactor *
    scaleFactor and the same for y with the height, where x2 and y2 default
    to x1 and y1 and [scaleFactor] to 1. *)
Theorem coords_are_scaled_centre
    (widthFactor heightFactor : number) (ver : UITarsModelVersion)
    (smart : option (number * number)) (sc : ScreenContext) (sf : option number)
    (actionInputs : ActionInputs) (paramName param : jsstring)
    (x1 y1 : number) (rest : list number)
    (Hparam : param <> [])
    (Hbox : (includes paramName (js "start_box") || includes paramName (js "end_box"))%bool
            = true)
    (Hwidth : truthy (width sc) = true) (Hheight : truthy (height sc) = true)
    (Hnumbers : normalizeBox (widthFactor, heightFactor) ver smart (trim param)
                = x1 :: y1 :: rest) :
  let x2 := nth 0 rest x1 in
  let y2 := nth 1 rest y1 in
  let scaleFactor := match sf with Some f => f | None => ofZ 1 end in
  get (if includes paramName (js "start_box") then js "start_coords" else js "end_coords")
      (storeParam (widthFactor, heightFactor) ver smart (Some sc) sf actionInputs
                  (paramName, param))
  = Some (VCoords
            [mul (div (Math_round (mul (mul (div (add x1 x2) (ofZ 2)) (width sc)) widthFactor))
                      widthFactor)
                 scaleFactor;
             mul (div (Math_round (mul (mul (div (add y1 y2) (ofZ 2)) (height sc)) heightFactor))
                      heightFactor)
                 scaleFactor]).
Proof.
  intros x2 y2 scaleFactor.
  rewrite storeParam_box by assumption.
  cbn [hasSize]. rewrite Hwidth, Hheight. cbn [andb]. cbv zeta.
  rewrite get_set by (destruct (includes paramName (js "start_box")); vm_compute; discriminate).
  rewrite Hnumbers. unfold boxCoords, centre, x2, y2, scaleFactor.
  destruct rest as [|a [|b r]]; reflexivity.
Qed.

(** C7 at work: the point [(500,400)] on a 1000 by 800 screen. *)
Lemma coords_example :
  get (js "start_coords")
      (storeParam (ofZ 1000, ofZ 1000) V1_0 None
                  (Some (mkScreen (ofZ 1000) (ofZ 800))) (Some (ofZ 1)) empty
                  (js "start_box", js "(500,400)"))
  = Some (VCoords [ofZ 500; ofZ 320])
  /\ Sample.actionParser
       (mkParams (js "Action: click(start_box='(500,400)')")
                 (Pair (ofZ 1000) (ofZ 1000))
                 (Some (mkScreen (ofZ 1000) (ofZ 800))) (Some (ofZ 1)) None None) []
     = (Returned (mkResult [mkParsed None [] (Some (js "click"))
                                     [(js "start_box", VString (js "[0.5,0.4,0.5,0.4]"));
                                      (js "start_coords", VCoords [ofZ 500; ofZ 320])]]),
        []).
Proof.
  split.
  - refine (eq_trans
              (@coords_are_scaled_centre (ofZ 1000) (ofZ 1000) V1_0 None
                 (mkScreen (ofZ 1000) (ofZ 800)) (Some (ofZ 1)) empty
                 (js "start_box") (js "(500,400)")
                 (div (ofZ 500) (ofZ 1000)) (div (ofZ 400) (ofZ 1000))
                 [div (ofZ 500) (ofZ 1000); div (ofZ 400) (ofZ 1000)]
                 _ eq_refl eq_refl eq_refl _) _).
    + discriminate.
    + vm_compute. reflexivity.
    + vm_compute. reflexivity.
  - vm_compute. reflexivity.
Defined.

(** C1, the code at a box with a fragment that is not a number: the
    fragment parses to NaN, [isNumber] accepts NaN, and the array stored
    under [start_coords] is [NaN, 160], not the empty array. *)
Lemma nan_box_keeps_coords :
  Sample.actionParser
    (mkParams (js "Action: click(start_box='(abc,200)')")
              (Pair (ofZ 1000) (ofZ 1000))
              (Some (mkScreen (ofZ 1000) (ofZ 800))) None None None) []
  = (Returned (mkResult [mkParsed None [] (Some (js "click"))
                                  [(js "start_box", VString (js "[null,0.2,null,0.2]"));
                                   (js "start_coords", VCoords [NaN; ofZ 160])]]),
     []).
Proof. vm_compute. reflexivity. Qed.



(* ------------------------------------------------------------------------- *)
(** ** More facts about strings *)

Module StringFacts.

Import ActionParser MarkerFacts DataFacts.

(** [trimStart] removes a run of white space and nothing else. *)
Lemma trimStart_split (s : jsstring) :
  exists ws, s = ws ++ trimStart s /\ forallb isWhiteSpace ws = true.
Proof.
  induction s as [|c t [ws [E W]]]; simpl.
  - exists []. split; reflexivity.
  - destruct (isWhiteSpace c) eqn:C.
    + exists (c :: ws). simpl. rewrite C, W. split; [f_equal; exact E | reflexivity].
    + exists []. split; reflexivity.
Qed.

Lemma trimStart_head (s : jsstring) (c : codeunit) (t : jsstring) :
  trimStart s = c :: t -> isWhiteSpace c = false.
Proof.
  induction s as [|x s IH]; simpl; [discriminate|].
  destruct (isWhiteSpace x) eqn:X; [exact IH|].
  intros E. inversion E; subst. exact X.
Qed.

Lemma trimStart_fixed (s : jsstring) :
  match s with c :: _ => isWhiteSpace c = false | [] => True end -> trimStart s = s.
Proof. destruct s as [|c t]; simpl; [reflexivity|]. intros ->. reflexivity. Qed.

Lemma trimStart_idem (s : jsstring) : trimStart (trimStart s) = trimStart s.
Proof.
  apply trimStart_fixed. destruct (trimStart s) as [|c t] eqn:E; [exact I|].
  exact (trimStart_head E).
Qed.

Lemma trimStart_app_ws (ws s : jsstring) :
  forallb isWhiteSpace ws = true -> trimStart (ws ++ s) = trimStart s.
Proof.
  induction ws as [|c ws IH]; simpl; [reflexivity|].
  intros H. apply andb_true_iff in H. destruct H as [-> H]. apply IH. exact H.
Qed.

(** [trimStart] of a text that has a unit other than white space. *)
Lemma trimStart_app (s r : jsstring) :
  trimStart s <> [] -> trimStart (s ++ r) = trimStart s ++ r.
Proof.
  induction s as [|c s IH]; simpl; [congruence|].
  destruct (isWhiteSpace c); [exact IH | reflexivity].
Qed.

Lemma trimEnd_idem (s : jsstring) : trimEnd (trimEnd s) = trimEnd s.
Proof. unfold trimEnd. rewrite rev_involutive, trimStart_idem. reflexivity. Qed.

(** [trimEnd] keeps a prefix. *)
Lemma trimEnd_split (s : jsstring) :
  exists ws, s = trimEnd s ++ ws /\ forallb isWhiteSpace ws = true.
Proof.
  unfold trimEnd. destruct (trimStart_split (rev s)) as [ws [E W]].
  exists (rev ws). split.
  - rewrite <- rev_app_distr, <- E, rev_involutive. reflexivity.
  - rewrite forallb_forall in *. intros x Hx. apply W. apply in_rev. exact Hx.
Qed.

Lemma trimStart_trimEnd (s : jsstring) :
  match s with c :: _ => isWhiteSpace c = false | [] => True end ->
  trimStart (trimEnd s) = trimEnd s.
Proof.
  intros H. apply trimStart_fixed.
  destruct (trimEnd_split s) as [ws [E _]].
  destruct (trimEnd s) as [|c t]; [exact I|].
  rewrite E in H. exact H.
Qed.

Theorem trim_idem (s : jsstring) : trim (trim s) = trim s.
Proof.
  unfold trim at 1.
  assert (H : trimStart (trim s) = trim s).
  { unfold trim. apply trimStart_trimEnd.
    destruct (trimStart s) as [|c t] eqn:E; [exact I | exact (trimStart_head E)]. }
  rewrite H. unfold trim. apply trimEnd_idem.
Qed.

Lemma trimEnd_app_ws (s ws : jsstring) :
  forallb isWhiteSpace ws = true -> trimEnd (s ++ ws) = trimEnd s.
Proof.
  intros H. unfold trimEnd. rewrite rev_app_distr, trimStart_app_ws; [reflexivity|].
  rewrite forallb_forall in *. intros x Hx. apply H. apply in_rev. exact Hx.
Qed.

Lemma trimStart_all_ws (ws : jsstring) :
  forallb isWhiteSpace ws = true -> trimStart ws = [].
Proof.
  intros H. rewrite <- (app_nil_r ws). rewrite trimStart_app_ws by exact H. reflexivity.
Qed.

(** White space after a text does not change what [trim] returns. *)
Lemma trim_app_ws (s ws : jsstring) :
  forallb isWhiteSpace ws = true -> trim (s ++ ws) = trim s.
Proof.
  intros H. unfold trim.
  destruct (trimStart s) as [|c t] eqn:E.
  - destruct (trimStart_split s) as [ws' [E' W']]. rewrite E, app_nil_r in E'. subst ws'.
    rewrite trimStart_app_ws by exact W'. rewrite trimStart_all_ws by exact H. reflexivity.
  - rewrite trimStart_app by congruence. rewrite E. apply trimEnd_app_ws. exact H.
Qed.

Lemma skipn_plus {A : Type} (u l : list A) (j : nat) :
  skipn (length u + j) (u ++ l) = skipn j l.
Proof. induction u as [|a u IH]; [reflexivity | exact IH]. Qed.

Lemma forallb_join (q : codeunit -> bool) (sep : jsstring) (l : list jsstring) :
  forallb q sep = true -> Forall (fun x => forallb q x = true) l ->
  forallb q (join sep l) = true.
Proof.
  intros Hsep. induction 1 as [|a l Ha Hl IH]; [reflexivity|].
  destruct l as [|b l]; [exact Ha|].
  change (join sep (a :: b :: l)) with (a ++ sep ++ join sep (b :: l)).
  rewrite !forallb_app, Ha, Hsep, IH. reflexivity.
Qed.

Lemma indexOf_app (k v : jsstring) (c : codeunit) :
  ~ In c k -> indexOf (k ++ c :: v) c = Some (length k).
Proof.
  induction k as [|x k IH]; intros H; cbn [app indexOf length].
  - rewrite N.eqb_refl. reflexivity.
  - destruct (N.eqb_spec x c) as [E|E]; [elim H; left; exact E|].
    rewrite IH by (intros H'; apply H; right; exact H'). reflexivity.
Qed.

Lemma indexOf_none (s : jsstring) (c : codeunit) : ~ In c s -> indexOf s c = None.
Proof.
  induction s as [|x s IH]; intros H; cbn [indexOf]; [reflexivity|].
  destruct (N.eqb_spec x c) as [E|E]; [elim H; left; exact E|].
  rewrite IH by (intros H'; apply H; right; exact H'). reflexivity.
Qed.

Lemma startsWith_app (a s : jsstring) : startsWith (a ++ s) a = true.
Proof. apply startsWith_prefix. exists s. reflexivity. Qed.




Lemma word_is_not_space (c : codeunit) : isWordChar c = true -> isWhiteSpace c = false.
Proof.
  intros H. destruct (isWhiteSpace c) eqn:W; [|reflexivity]. exfalso.
  unfold isWordChar, isDigit, inRange in H. unfold isWhiteSpace, inRange in W.
  cbn [existsb] in W.
  repeat match goal with
         | H : (_ || _)%bool = true |- _ => apply orb_true_iff in H; destruct H as [H|H]
         | H : (_ && _)%bool = true |- _ => apply andb_true_iff in H; destruct H
         | H : N.eqb _ _ = true |- _ => apply N.eqb_eq in H
         | H : N.leb _ _ = true |- _ => apply N.leb_le in H
         end; try discriminate; lia.
Qed.

Lemma word_is_not_terminator (c : codeunit) :
  isWordChar c = true -> negb (isLineTerminator c) = true.
Proof.
  intros H. destruct (isLineTerminator c) eqn:W; [|reflexivity]. exfalso.
  unfold isWordChar, isDigit, inRange in H. unfold isLineTerminator in W.
  cbn [existsb] in W.
  repeat match goal with
         | H : (_ || _)%bool = true |- _ => apply orb_true_iff in H; destruct H as [H|H]
         | H : (_ && _)%bool = true |- _ => apply andb_true_iff in H; destruct H
         | H : N.eqb _ _ = true |- _ => apply N.eqb_eq in H
         | H : N.leb _ _ = true |- _ => apply N.leb_le in H
         end; try discriminate; lia.
Qed.

Lemma word_is_not_equals (k : jsstring) : forallb isWordChar k = true -> ~ In 61%N k.
Proof.
  intros H Hin. rewrite forallb_forall in H. apply H in Hin. discriminate.
Qed.

Lemma trimStart_no_ws (s : jsstring) :
  forallb (fun c => negb (isWhiteSpace c)) s = true -> trimStart s = s.
Proof.
  intros H. apply trimStart_fixed. destruct s as [|c t]; [exact I|].
  simpl in H. apply andb_true_iff in H. destruct H as [H _].
  apply negb_true_iff in H. exact H.
Qed.

Lemma trim_no_ws (s : jsstring) :
  forallb (fun c => negb (isWhiteSpace c)) s = true -> trim s = s.
Proof.
  intros H. unfold trim, trimEnd. rewrite (trimStart_no_ws H).
  rewrite trimStart_no_ws; [apply rev_involutive|].
  rewrite forallb_forall in *. intros x Hx. apply H. apply in_rev. exact Hx.
Qed.

Lemma trim_word (ws k : jsstring) :
  forallb isWhiteSpace ws = true -> forallb isWordChar k = true -> trim (ws ++ k) = k.
Proof.
  intros Hws Hk. unfold trim. rewrite trimStart_app_ws by exact Hws.
  apply trim_no_ws. rewrite forallb_forall in *. intros x Hx.
  apply negb_true_iff, word_is_not_space, Hk, Hx.
Qed.

Lemma trim_quoted (v : jsstring) : trim (SQUOTE :: v ++ [SQUOTE]) = SQUOTE :: v ++ [SQUOTE].
Proof.
  unfold trim. cbn [trimStart]. change (isWhiteSpace SQUOTE) with false. cbv iota.
  unfold trimEnd. cbn [rev]. rewrite rev_app_distr. cbn [rev app trimStart].
  change (isWhiteSpace SQUOTE) with false. cbv iota.
  cbn [rev]. rewrite rev_app_distr, rev_involutive. reflexivity.
Qed.

End StringFacts.
Import StringFacts.

(* ------------------------------------------------------------------------- *)
(** ** The matcher accepts only texts of the pattern *)

Module MatchFacts.

Lemma clear_nil (x : state) : clear [] x = x.
Proof.
  destruct x as [p s c]. unfold clear. simpl. f_equal.
  induction c as [|kv c IH]; simpl; [reflexivity | rewrite IH; reflexivity].
Qed.

Section Loop.

Variable a : regex.
Hypothesis atom :
  forall k x y, mtch a k x = Some y -> exists z, k z = Some y /\ stepOf a x z.

Lemma repeatMatcher_sound (g : bool) (k : cont) (n : nat) :
  forall x y,
    repeatMatcher (mtch a) (groups a) g k n x = Some y ->
    exists z, k z = Some y
      /\ exists l, suf x = concat l ++ suf z /\ pre z = rev (concat l) ++ pre x
                   /\ Forall (denote a) l /\ (groups a = [] -> caps z = caps x).
Proof.
  assert (Stop : forall x y, k x = Some y ->
            exists z, k z = Some y
              /\ exists l, suf x = concat l ++ suf z /\ pre z = rev (concat l) ++ pre x
                           /\ Forall (denote a) l /\ (groups a = [] -> caps z = caps x)).
  { intros x y K. exists x. split; [exact K|]. exists []. simpl. auto. }
  induction n as [|n IH]; intros x y H.
  - simpl in H. apply Stop. destruct g; destruct (k x); congruence.
  - assert (Go : forall w,
              mtch a (fun y0 => if Nat.ltb (length (suf y0)) (length (suf x))
                                then repeatMatcher (mtch a) (groups a) g k n y0 else None)
                   (clear (groups a) x) = Some w ->
              exists z, k z = Some w
                /\ exists l, suf x = concat l ++ suf z /\ pre z = rev (concat l) ++ pre x
                             /\ Forall (denote a) l /\ (groups a = [] -> caps z = caps x)).
    { intros w Hw. apply atom in Hw. destruct Hw as [z1 [Hk [u [Hs [Hp [Hd Hc]]]]]].
      destruct (Nat.ltb (length (suf z1)) (length (suf x))); [|discriminate].
      apply IH in Hk. destruct Hk as [z [Hz [l [Hs' [Hp' [Hd' Hc']]]]]].
      exists z. split; [exact Hz|]. exists (u :: l). simpl in Hs, Hp. simpl concat.
      split; [rewrite Hs, Hs', app_assoc; reflexivity|].
      split; [rewrite Hp', Hp, rev_app_distr, app_assoc; reflexivity|].
      split; [constructor; assumption|].
      intros G. rewrite (Hc' G), (Hc G), G, clear_nil. reflexivity. }
    simpl in H. destruct g.
    + destruct (mtch a _ (clear (groups a) x)) as [w|] eqn:E in H.
      * inversion H; subst w. apply Go. exact E.
      * apply Stop. exact H.
    + destruct (k x) as [w|] eqn:K.
      * apply Stop. congruence.
      * apply Go. exact H.
Qed.

End Loop.

(** The matcher accepts only texts of the pattern: what it hands to its
    continuation lies a text of the pattern further on. *)
Theorem mtch_sound (r : regex) :
  forall k x y, mtch r k x = Some y -> exists z, k z = Some y /\ stepOf r x z.
Proof.
  induction r as [ | p | a IHa b IHb | a IHa b IHb | j a IHa | g a IHa | g a IHa
                   | g a IHa | | | a IHa | l ]; intros k x y H; simpl in H.
  - exists x. split; [exact H|]. exists []. simpl. auto.
  - destruct (suf x) as [|c t] eqn:S; [discriminate|].
    destruct (p c) eqn:P; [|discriminate].
    exists (advance c t x). split; [exact H|]. exists [c]. simpl.
    repeat split; eauto.
  - apply IHa in H. destruct H as [z1 [H [u [Hs [Hp [Hd Hc]]]]]].
    apply IHb in H. destruct H as [z [H [v [Hs' [Hp' [Hd' Hc']]]]]].
    exists z. split; [exact H|]. exists (u ++ v).
    split; [rewrite Hs, Hs', app_assoc; reflexivity|].
    split; [rewrite Hp', Hp, rev_app_distr, app_assoc; reflexivity|].
    split; [exists u, v; auto|].
    simpl. intros G. apply app_eq_nil in G. destruct G as [G1 G2].
    rewrite (Hc' G2), (Hc G1). reflexivity.
  - destruct (mtch a k x) as [w|] eqn:E.
    + inversion H; subst w. apply IHa in E. destruct E as [z [E [w [Hs [Hp [Hd Hc]]]]]].
      exists z. split; [exact E|]. exists w. repeat split; auto.
      * left; exact Hd.
      * simpl. intros G. apply app_eq_nil in G. tauto.
    + apply IHb in H. destruct H as [z [E' [w [Hs [Hp [Hd Hc]]]]]].
      exists z. split; [exact E'|]. exists w. repeat split; auto.
      * right; exact Hd.
      * simpl. intros G. apply app_eq_nil in G. tauto.
  - apply IHa in H. destruct H as [z1 [H [w [Hs [Hp [Hd Hc]]]]]].
    eexists. split; [exact H|]. exists w. simpl. repeat split; auto. discriminate.
  - apply (repeatMatcher_sound IHa) in H.
    destruct H as [z [H [l [Hs [Hp [Hd Hc]]]]]].
    exists z. split; [exact H|]. exists (concat l). repeat split; auto.
    exists l. auto.
  - apply IHa in H. destruct H as [z1 [H [u [Hs [Hp [Hd Hc]]]]]].
    apply (repeatMatcher_sound IHa) in H.
    destruct H as [z [H [l [Hs' [Hp' [Hd' Hc']]]]]].
    exists z. split; [exact H|]. exists (u ++ concat l). simpl in Hs, Hp.
    split; [rewrite Hs, Hs', app_assoc; reflexivity|].
    split; [rewrite Hp', Hp, rev_app_distr, app_assoc; reflexivity|].
    split; [exists u, l; auto|].
    simpl. intros G. rewrite (Hc' G), (Hc G), G, clear_nil. reflexivity.
  - assert (Go : forall w,
              mtch a (fun y0 => if Nat.ltb (length (suf y0)) (length (suf x))
                                then k y0 else None) (clear (groups a) x) = Some w ->
              exists z, k z = Some w /\ stepOf (Opt g a) x z).
    { intros w Hw. apply IHa in Hw. destruct Hw as [z [Hk [u [Hs [Hp [Hd Hc]]]]]].
      destruct (Nat.ltb (length (suf z)) (length (suf x))); [|discriminate].
      exists z. split; [exact Hk|]. exists u. simpl in Hs, Hp. repeat split; auto.
      - right; exact Hd.
      - simpl. intros G. rewrite (Hc G), G, clear_nil. reflexivity. }
    assert (Stop : forall w, k x = Some w -> exists z, k z = Some w /\ stepOf (Opt g a) x z).
    { intros w K. exists x. split; [exact K|]. exists []. simpl. auto. }
    destruct g.
    + destruct (mtch a _ (clear (groups a) x)) as [w|] eqn:E in H.
      * inversion H; subst w. apply Go. exact E.
      * apply Stop. exact H.
    + destruct (k x) as [w|] eqn:K.
      * apply Stop. congruence.
      * apply Go. exact H.
  - exists x. split; [destruct (pre x); [exact H | discriminate]|]. exists []. simpl. auto.
  - exists x. split; [destruct (suf x); [exact H | discriminate]|]. exists []. simpl. auto.
  - destruct (mtch a Some x) as [y1|] eqn:E; [|discriminate].
    apply IHa in E. destruct E as [z1 [E [w [Hs [Hp [Hd Hc]]]]]]. inversion E; subst z1.
    eexists. split; [exact H|]. exists []. simpl. repeat split; auto.
  - exists x. split.
    + match type of H with
      | (if ?b then _ else _) = _ => destruct b; [discriminate | exact H]
      end.
    + exists []. simpl. auto.
Qed.

End MatchFacts.
Import MatchFacts.

(* ------------------------------------------------------------------------- *)
(** ** Tools for following a match *)

Module MatchTools.

(** *** The steps of the matcher *)

Lemma mtch_seq (a b : regex) (k : cont) (x : state) :
  mtch (Seq a b) k x = mtch a (mtch b k) x.
Proof. reflexivity. Qed.

Lemma mtch_grp (i : nat) (a : regex) (k : cont) (x : state) :
  mtch (Grp i a) k x
  = mtch a (fun y => k (mkState (pre y) (suf y) ((i, consumed x y) :: caps y))) x.
Proof. reflexivity. Qed.

Lemma mtch_chr (q : codeunit -> bool) (k : cont) (pr : jsstring) (c : codeunit)
    (t : jsstring) (cs : list (nat * jsstring)) :
  mtch (Chr q) k (mkState pr (c :: t) cs)
  = if q c then k (mkState (c :: pr) t cs) else None.
Proof. reflexivity. Qed.

Lemma mtch_bol (k : cont) (s : jsstring) (cs : list (nat * jsstring)) :
  mtch Bol k (mkState [] s cs) = k (mkState [] s cs).
Proof. reflexivity. Qed.

Lemma mtch_eol (k : cont) (pr : jsstring) (cs : list (nat * jsstring)) :
  mtch Eol k (mkState pr [] cs) = k (mkState pr [] cs).
Proof. reflexivity. Qed.

Lemma mtch_chr_nil (q : codeunit -> bool) (k : cont) (pr : jsstring)
    (cs : list (nat * jsstring)) :
  mtch (Chr q) k (mkState pr [] cs) = None.
Proof. reflexivity. Qed.

Lemma mtch_lit1_nil (c : codeunit) (k : cont) (pr : jsstring)
    (cs : list (nat * jsstring)) :
  mtch (lit1 c) k (mkState pr [] cs) = None.
Proof. reflexivity. Qed.

Lemma mtch_lit1 (c : codeunit) (k : cont) (pr t : jsstring) (cs : list (nat * jsstring)) :
  mtch (lit1 c) k (mkState pr (c :: t) cs) = k (mkState (c :: pr) t cs).
Proof. unfold lit1. rewrite mtch_chr, N.eqb_refl. reflexivity. Qed.

(** A literal matches exactly where the text continues with it. *)
Lemma lit_run (l : jsstring) (k : cont) :
  forall p s cs,
    mtch (lit l) k (mkState p s cs)
    = if startsWith s l then k (mkState (rev l ++ p) (skipn (length l) s) cs) else None.
Proof.
  induction l as [|a l IH]; intros p s cs.
  - reflexivity.
  - destruct l as [|b l].
    + unfold lit, lit1. destruct s as [|d t]; [reflexivity|].
      rewrite mtch_chr. cbn [startsWith]. rewrite andb_true_r.
      destruct (N.eqb_spec a d) as [->|_]; reflexivity.
    + change (lit (a :: b :: l)) with (Seq (lit1 a) (lit (b :: l))).
      rewrite mtch_seq. unfold lit1. destruct s as [|d t]; [reflexivity|].
      rewrite mtch_chr. cbn [startsWith]. destruct (N.eqb_spec a d) as [->|_]; [|reflexivity].
      rewrite IH. cbn [andb length skipn rev]. rewrite <- !app_assoc. reflexivity.
Qed.

(** One step along a sequence of patterns: from the equation [H] of a
    matcher, the state [z] handed on and the text [w] consumed. *)
Ltac along H z w Hs Hp Hd Hc :=
  apply mtch_sound in H;
  destruct H as [z [H [w [Hs [Hp [Hd Hc]]]]]];
  try specialize (Hc eq_refl); cbv beta in H.

(** *** What a match consumed *)

Lemma consumed_app (p p' w s : jsstring) (c c' : list (nat * jsstring)) :
  consumed (mkState p (w ++ s) c) (mkState p' s c') = w.
Proof.
  unfold consumed. cbn [suf]. rewrite length_app.
  replace (length w + length s - length s) with (length w) by lia.
  rewrite firstn_app, Nat.sub_diag, firstn_all. cbn [firstn]. apply app_nil_r.
Qed.

Lemma consumed_step (x z : state) (w : jsstring) :
  suf x = w ++ suf z -> consumed x z = w.
Proof.
  intros H. unfold consumed. rewrite H, length_app.
  replace (length w + length (suf z) - length (suf z)) with (length w) by lia.
  rewrite firstn_app, Nat.sub_diag, firstn_all. cbn [firstn]. apply app_nil_r.
Qed.

(** A successful attempt at a position consumed a text of the pattern. *)
Lemma matchAt_sound (r : regex) (p s : jsstring) (f : found) :
  matchAt r p s = Some f ->
  exists w, s = w ++ suf (f_end f) /\ denote r w /\ matched f = w
            /\ f_start f = mkState p s [] /\ pre (f_end f) = rev w ++ p.
Proof.
  unfold matchAt. destruct (mtch r Some (mkState p s [])) as [y|] eqn:E; [|discriminate].
  intros H. inversion H; subst f. clear H. cbn [f_start f_end].
  apply mtch_sound in E. destruct E as [z [Hz [w [Hs [Hp [Hd _]]]]]].
  inversion Hz; subst z. cbn [suf pre] in Hs, Hp.
  exists w. repeat split; auto.
  unfold matched. cbn [f_start f_end]. apply consumed_step. exact Hs.
Qed.

Lemma denote_lit (l w : jsstring) : denote (lit l) w -> w = l.
Proof.
  revert w. induction l as [|c l IH]; intros w H.
  - exact H.
  - destruct l as [|d l].
    + destruct H as [c' [-> E]]. apply N.eqb_eq in E. subst. reflexivity.
    + destruct H as [u [v [-> [[c' [-> E]] Hv]]]]. apply N.eqb_eq in E. subst c'.
      rewrite (IH v Hv). reflexivity.
Qed.

Lemma denote_liti_length (l w : jsstring) : denote (liti l) w -> length w = length l.
Proof.
  revert w. induction l as [|c l IH]; intros w H.
  - simpl in H. subst. reflexivity.
  - destruct l as [|d l].
    + destruct H as [c' [-> E]]. reflexivity.
    + destruct H as [u [v [-> [[c' [-> E]] Hv]]]].
      simpl. rewrite (IH v Hv). reflexivity.
Qed.

(** A literal matches where the text continues with it. *)
Lemma mtch_lit (l : jsstring) (k : cont) :
  forall p s c, mtch (lit l) k (mkState p (l ++ s) c) = k (mkState (rev l ++ p) s c).
Proof.
  induction l as [|a l IH]; intros p s c.
  - reflexivity.
  - destruct l as [|b l].
    + cbn [lit lit1 mtch suf app]. rewrite N.eqb_refl. reflexivity.
    + change (lit (a :: b :: l)) with (Seq (lit1 a) (lit (b :: l))).
      cbn [mtch lit1 suf app]. rewrite N.eqb_refl.
      change (advance a (b :: l ++ s) (mkState p (a :: b :: l ++ s) c))
        with (mkState (a :: p) ((b :: l) ++ s) c).
      rewrite IH. cbn [rev]. rewrite <- !app_assoc. reflexivity.
Qed.

Lemma denote_class_star (g : bool) (p : codeunit -> bool) (w : jsstring) :
  denote (Star g (Chr p)) w -> forallb p w = true.
Proof.
  intros [l [-> F]]. induction F as [|u l [c [-> P]] F IH]; [reflexivity|].
  simpl. rewrite P. exact IH.
Qed.

Lemma denote_class_plus (g : bool) (p : codeunit -> bool) (w : jsstring) :
  denote (Plus g (Chr p)) w -> w <> [] /\ forallb p w = true.
Proof.
  intros [u [l [-> [[c [-> P]] F]]]]. split; [discriminate|].
  simpl. rewrite P. apply (@denote_class_star g). exists l. auto.
Qed.

(** *** Replacing *)

Lemma replaceGo_skip (r : regex) (rep : jsstring) (n : nat) :
  forall s p, n <= length s ->
    replaceGo r rep p s n = replaceGo r rep (rev (firstn n s) ++ p) (skipn n s) 0.
Proof.
  induction n as [|n IH]; intros s p H.
  - reflexivity.
  - destruct s as [|c t]; [simpl in H; lia|].
    simpl in H. cbn [replaceGo firstn skipn rev]. rewrite IH by lia.
    rewrite <- app_assoc. reflexivity.
Qed.

Lemma replaceGo_cons_skip (r : regex) (rep : jsstring) (p w s : jsstring) :
  w <> [] ->
  match w ++ s with
  | [] => []
  | c :: t => replaceGo r rep (c :: p) t (pred (length w))
  end = replaceGo r rep (rev w ++ p) s 0.
Proof.
  intros H. destruct w as [|c w]; [congruence|]. cbn [app length pred].
  rewrite replaceGo_skip by (rewrite length_app; lia).
  rewrite firstn_app, Nat.sub_diag, firstn_all, skipn_app, Nat.sub_diag, skipn_all.
  cbn [firstn skipn rev app]. rewrite app_nil_r, <- app_assoc. reflexivity.
Qed.

(** One step of a global replace at a position where the pattern matches
    a text that is not empty. *)
Lemma replaceGo_match (r : regex) (rep p s : jsstring) (f : found) (w : jsstring) :
  matchAt r p s = Some f -> matched f = w -> w <> [] ->
  forall rest, s = w ++ rest ->
    replaceGo r rep p s 0 = rep ++ replaceGo r rep (rev w ++ p) rest 0.
Proof.
  intros M Hw Hne rest ->.
  destruct w as [|c w]; [congruence|].
  cbn [app replaceGo]. cbn [app] in M. rewrite M, Hw. cbn [length].
  f_equal. apply (@replaceGo_cons_skip r rep p (c :: w) rest). discriminate.
Qed.

Lemma replaceGo_no_match (r : regex) (rep p : jsstring) (c : codeunit) (t : jsstring) :
  matchAt r p (c :: t) = None ->
  replaceGo r rep p (c :: t) 0 = c :: replaceGo r rep (c :: p) t 0.
Proof. intros M. cbn [replaceGo]. rewrite M. reflexivity. Qed.

(** Replacing every match of a literal by the literal gives the text back. *)
Lemma replace_literal_by_itself (l : jsstring) (n : nat) :
  l <> [] ->
  forall s p, length s <= n -> replaceGo (lit l) l p s 0 = s.
Proof.
  intros Hl. induction n as [|n IH]; intros s p Hn.
  - destruct s; [|simpl in Hn; lia]. cbn [replaceGo].
    destruct (matchAt (lit l) p []) as [f|] eqn:M; [|reflexivity].
    apply matchAt_sound in M. destruct M as [w [E [D _]]].
    apply denote_lit in D. subst w. destruct l; [congruence | discriminate].
  - destruct (matchAt (lit l) p s) as [f|] eqn:M.
    + pose proof M as M'. apply matchAt_sound in M'.
      destruct M' as [w [E [D [Hm _]]]]. apply denote_lit in D. subst w.
      rewrite (replaceGo_match l M Hm Hl E).
      rewrite IH; [symmetry; exact E|].
      rewrite E, length_app in Hn. destruct l; [congruence|]. simpl in Hn. lia.
    + destruct s as [|c t].
      * cbn [replaceGo]. rewrite M. reflexivity.
      * rewrite (replaceGo_no_match _ M). rewrite IH by (simpl in Hn; lia). reflexivity.
Qed.

(** Replacing every unit of a class by nothing filters the class out. *)
Lemma replace_class_by_nothing (q : codeunit -> bool) (s : jsstring) :
  forall p, replaceGo (Chr q) [] p s 0 = filter (fun c => negb (q c)) s.
Proof.
  induction s as [|c t IH]; intros p.
  - reflexivity.
  - cbn [filter]. destruct (q c) eqn:Q.
    + assert (M : matchAt (Chr q) p (c :: t)
                  = Some (mkFound (mkState p (c :: t) []) (mkState (c :: p) t [])))
        by (unfold matchAt; cbn [mtch suf]; rewrite Q; reflexivity).
      rewrite (@replaceGo_match (Chr q) [] p (c :: t) _ [c] M
                 (consumed_app p (c :: p) [c] t [] []) ltac:(discriminate) t eq_refl).
      cbn [negb app rev]. apply IH.
    + assert (M : matchAt (Chr q) p (c :: t) = None)
        by (unfold matchAt; cbn [mtch suf]; rewrite Q; reflexivity).
      rewrite (replaceGo_no_match _ M). cbn [negb]. rewrite IH. reflexivity.
Qed.

(** *** Searching *)

(** A pattern that starts with [^] matches at the start only. *)
Lemma searchFrom_anchored (r : regex) (s : jsstring) :
  forall p, p <> [] -> searchFrom (Seq Bol r) p s = None.
Proof.
  induction s as [|c t IH]; intros p Hp.
  - cbn [searchFrom]. unfold matchAt. rewrite mtch_seq. cbn [mtch pre].
    destruct p; [congruence | reflexivity].
  - cbn [searchFrom]. unfold matchAt at 1. rewrite mtch_seq. cbn [mtch pre].
    destruct p; [congruence|]. apply IH. discriminate.
Qed.

Lemma exec_anchored (r : regex) (s : jsstring) :
  exec (Seq Bol r) s = matchAt (Seq Bol r) [] s.
Proof.
  unfold exec. destruct s as [|c t]; cbn [searchFrom].
  - destruct (matchAt _ [] []); reflexivity.
  - destruct (matchAt _ [] (c :: t)); [reflexivity|].
    apply searchFrom_anchored. discriminate.
Qed.

Lemma exec_at_start (r : regex) (s : jsstring) (f : found) :
  matchAt r [] s = Some f -> exec r s = Some f.
Proof. intros M. unfold exec. destruct s; cbn [searchFrom]; rewrite M; reflexivity. Qed.

(** The result of a search is the result of an attempt at some position. *)
Lemma searchFrom_matchAt (r : regex) (s : jsstring) :
  forall p f, searchFrom r p s = Some f ->
    exists p' s', matchAt r p' s' = Some f /\ rev p' ++ s' = rev p ++ s.
Proof.
  induction s as [|c t IH]; intros p f H; cbn [searchFrom] in H.
  - destruct (matchAt r p []) eqn:E; [|discriminate].
    inversion H; subst. exists p, []. auto.
  - destruct (matchAt r p (c :: t)) eqn:E.
    + inversion H; subst. exists p, (c :: t). auto.
    + apply IH in H. destruct H as [p' [s' [M Es]]].
      exists p', s'. split; [exact M|]. rewrite Es. cbn [rev].
      rewrite <- app_assoc. reflexivity.
Qed.

Lemma exec_matchAt (r : regex) (s : jsstring) (f : found) :
  exec r s = Some f -> exists p' s', matchAt r p' s' = Some f /\ rev p' ++ s' = s.
Proof. intros H. apply searchFrom_matchAt in H. exact H. Qed.

Lemma matchAt_run (r : regex) (p s : jsstring) (f : found) :
  matchAt r p s = Some f ->
  mtch r Some (mkState p s []) = Some (f_end f) /\ f_start f = mkState p s [].
Proof.
  unfold matchAt. destruct (mtch r Some (mkState p s [])) as [y|]; [|discriminate].
  intros H. inversion H; subst f. split; reflexivity.
Qed.

Lemma denote_lit1 (c : codeunit) (w : jsstring) : denote (lit1 c) w -> w = [c].
Proof. apply (@denote_lit [c]). Qed.

End MatchTools.
Import MatchTools.

(* ------------------------------------------------------------------------- *)
(** ** Loops over a class of code units *)

Module ClassLoops.

(** The loop of a quantified class, one code unit at a time. *)
Lemma greedy_class_nil (q : codeunit -> bool) (k : cont) (n : nat) (pr : jsstring)
    (cs : list (nat * jsstring)) :
  repeatMatcher (mtch (Chr q)) [] true k n (mkState pr [] cs) = k (mkState pr [] cs).
Proof. destruct n; reflexivity. Qed.

Lemma greedy_class_cons (q : codeunit -> bool) (k : cont) (pr : jsstring) (c : codeunit)
    (t : jsstring) (cs : list (nat * jsstring)) :
  repeatMatcher (mtch (Chr q)) [] true k (length (c :: t)) (mkState pr (c :: t) cs)
  = if q c then
      match repeatMatcher (mtch (Chr q)) [] true k (length t) (mkState (c :: pr) t cs) with
      | Some z => Some z
      | None => k (mkState pr (c :: t) cs)
      end
    else k (mkState pr (c :: t) cs).
Proof.
  cbn [length repeatMatcher mtch]. rewrite clear_nil. cbn [suf].
  destruct (q c); [|reflexivity].
  cbn [advance suf pre caps length].
  replace (Nat.ltb (length t) (S (length t))) with true
    by (symmetry; apply Nat.ltb_lt; lia).
  reflexivity.
Qed.

Lemma lazy_class_nil (q : codeunit -> bool) (k : cont) (n : nat) (pr : jsstring)
    (cs : list (nat * jsstring)) :
  repeatMatcher (mtch (Chr q)) [] false k n (mkState pr [] cs) = k (mkState pr [] cs).
Proof. destruct n; simpl; destruct (k _); reflexivity. Qed.

Lemma lazy_class_cons (q : codeunit -> bool) (k : cont) (pr : jsstring) (c : codeunit)
    (t : jsstring) (cs : list (nat * jsstring)) :
  repeatMatcher (mtch (Chr q)) [] false k (length (c :: t)) (mkState pr (c :: t) cs)
  = match k (mkState pr (c :: t) cs) with
    | Some z => Some z
    | None =>
        if q c
        then repeatMatcher (mtch (Chr q)) [] false k (length t) (mkState (c :: pr) t cs)
        else None
    end.
Proof.
  cbn [length repeatMatcher mtch]. rewrite clear_nil. cbn [suf].
  destruct (k _); [reflexivity|].
  destruct (q c); [|reflexivity].
  cbn [advance suf pre caps length].
  replace (Nat.ltb (length t) (S (length t))) with true
    by (symmetry; apply Nat.ltb_lt; lia).
  reflexivity.
Qed.

Lemma star_class (g : bool) (q : codeunit -> bool) (k : cont) (pr s : jsstring)
    (cs : list (nat * jsstring)) :
  mtch (Star g (Chr q)) k (mkState pr s cs)
  = repeatMatcher (mtch (Chr q)) [] g k (length s) (mkState pr s cs).
Proof. reflexivity. Qed.

Lemma plus_class_cons (g : bool) (q : codeunit -> bool) (k : cont) (pr : jsstring)
    (c : codeunit) (t : jsstring) (cs : list (nat * jsstring)) :
  mtch (Plus g (Chr q)) k (mkState pr (c :: t) cs)
  = if q c then repeatMatcher (mtch (Chr q)) [] g k (length t) (mkState (c :: pr) t cs)
    else None.
Proof.
  cbn [mtch groups]. rewrite clear_nil. cbn [suf]. destruct (q c); reflexivity.
Qed.

(** A greedy loop over a class runs to the end of the run of the class
    when the continuation accepts there. *)
Lemma greedy_class_run (q : codeunit -> bool) (k : cont) (w : jsstring) :
  forall pr rest cs z,
    forallb q w = true ->
    match rest with c :: _ => q c = false | [] => True end ->
    k (mkState (rev w ++ pr) rest cs) = Some z ->
    repeatMatcher (mtch (Chr q)) [] true k (length (w ++ rest)) (mkState pr (w ++ rest) cs)
    = Some z.
Proof.
  induction w as [|c w IH]; intros pr rest cs z Hw Hr Hk.
  - cbn [app rev] in *. destruct rest as [|c t].
    + rewrite greedy_class_nil. exact Hk.
    + rewrite greedy_class_cons, Hr. exact Hk.
  - cbn [app]. rewrite greedy_class_cons.
    simpl in Hw. apply andb_true_iff in Hw. destruct Hw as [-> Hw].
    rewrite (IH (c :: pr) rest cs z Hw Hr); [reflexivity|].
    cbn [rev] in Hk. rewrite <- app_assoc in Hk. exact Hk.
Qed.

(** A deeper result of a greedy loop is the result of the loop. *)
Lemma greedy_class_deeper (q : codeunit -> bool) (k : cont) (w : jsstring) :
  forall pr rest cs z,
    forallb q w = true ->
    repeatMatcher (mtch (Chr q)) [] true k (length rest) (mkState (rev w ++ pr) rest cs)
    = Some z ->
    repeatMatcher (mtch (Chr q)) [] true k (length (w ++ rest)) (mkState pr (w ++ rest) cs)
    = Some z.
Proof.
  induction w as [|c w IH]; intros pr rest cs z Hw Hk.
  - exact Hk.
  - cbn [app]. rewrite greedy_class_cons.
    simpl in Hw. apply andb_true_iff in Hw. destruct Hw as [-> Hw].
    rewrite (IH (c :: pr) rest cs z Hw); [reflexivity|].
    cbn [rev] in Hk. rewrite <- app_assoc in Hk. exact Hk.
Qed.

(** A greedy loop over a class whose continuation refuses every position
    that a unit of the class follows: the continuation is tried at the end
    of the run only. *)
Lemma greedy_class_end (q : codeunit -> bool) (k : cont)
    (Hk : forall pr c t cs, q c = true -> k (mkState pr (c :: t) cs) = None) (w : jsstring) :
  forall pr rest cs,
    forallb q w = true ->
    match rest with c :: _ => q c = false | [] => True end ->
    repeatMatcher (mtch (Chr q)) [] true k (length (w ++ rest)) (mkState pr (w ++ rest) cs)
    = k (mkState (rev w ++ pr) rest cs).
Proof.
  induction w as [|c w IH]; intros pr rest cs Hw Hr.
  - cbn [app rev]. destruct rest as [|c t].
    + apply greedy_class_nil.
    + rewrite greedy_class_cons, Hr. reflexivity.
  - cbn [app]. rewrite greedy_class_cons.
    simpl in Hw. apply andb_true_iff in Hw. destruct Hw as [Hc Hw].
    rewrite Hc, (IH (c :: pr) rest cs Hw Hr), (Hk pr c (w ++ rest) cs Hc).
    cbn [rev]. rewrite <- app_assoc. destruct (k _); reflexivity.
Qed.

End ClassLoops.
Import ClassLoops.

(* ------------------------------------------------------------------------- *)
(** ** The function-call, action and coordinate patterns *)

Module CallFacts.

Import ActionParser.

Lemma functionPattern_anchored :
  functionPattern
  = Seq Bol (Seq (Grp 1 (Plus true word))
                 (Seq (lit1 40%N) (Seq (Grp 2 (Star true dot)) (Seq (lit1 41%N) Eol)))).
Proof. reflexivity. Qed.

(** A match of the function-call pattern: the text is a name, [(], the
    arguments, [)], and the groups are the name and the arguments. *)
Lemma functionPattern_sound (s : jsstring) (m : found) :
  exec functionPattern s = Some m ->
  exists name args, isCallText s name args
    /\ group 1 m = Some name /\ group 2 m = Some args.
Proof.
  rewrite functionPattern_anchored, exec_anchored. unfold matchAt.
  destruct (mtch _ Some (mkState [] s [])) as [y|] eqn:E; [|discriminate].
  intros H. inversion H; subst m. clear H. unfold group. cbn [f_end].
  rewrite mtch_seq, mtch_bol, mtch_seq, mtch_grp in E.
  along E z1 w1 Hs1 Hp1 Hd1 Hc1. cbn [suf pre caps] in *.
  apply (@denote_class_plus true) in Hd1. destruct Hd1 as [Hne Hword].
  rewrite mtch_seq in E.
  along E z2 w2 Hs2 Hp2 Hd2 Hc2. cbn [suf pre caps] in *.
  apply denote_lit1 in Hd2. subst w2.
  rewrite mtch_seq, mtch_grp in E.
  along E z3 w3 Hs3 Hp3 Hd3 Hc3. cbn [suf pre caps] in *.
  apply (@denote_class_star true) in Hd3.
  rewrite mtch_seq in E.
  along E z4 w4 Hs4 Hp4 Hd4 Hc4. cbn [suf pre caps] in *.
  apply denote_lit1 in Hd4. subst w4.
  cbn [mtch] in E.
  destruct (suf z4) as [|c t] eqn:S4; [|discriminate]. inversion E; subst y. clear E.
  exists w1, w3. split.
  - split; [|split; [exact Hne | split; [exact Hword | exact Hd3]]].
    rewrite Hs1, Hs2, Hs3, Hs4. reflexivity.
  - rewrite Hc4. cbn [capture Nat.eqb]. rewrite Hc3, Hc2. cbn [capture Nat.eqb].
    split; f_equal; apply consumed_step; [exact Hs1 | exact Hs3].
Qed.

(** A text of the form [name(args)] matches the function-call pattern. *)
Lemma functionPattern_complete (s name args : jsstring) :
  isCallText s name args ->
  exists m, exec functionPattern s = Some m
    /\ group 1 m = Some name /\ group 2 m = Some args.
Proof.
  intros [-> [Hne [Hword Hargs]]].
  rewrite functionPattern_anchored, exec_anchored. unfold matchAt.
  rewrite mtch_seq, mtch_bol, mtch_seq, mtch_grp. unfold word, dot.
  destruct name as [|c0 name]; [congruence|]. clear Hne.
  simpl in Hword. apply andb_true_iff in Hword. destruct Hword as [Hc0 Hword].
  cbn [app]. rewrite plus_class_cons, Hc0.
  set (rest := 40%N :: args ++ [41%N]).
  set (final := mkState (41%N :: rev args ++ 40%N :: rev name ++ [c0]) []
                        [(2, args); (1, c0 :: name)]).
  change ((name ++ 40%N :: args ++ [41%N])) with (name ++ rest).
  rewrite (@greedy_class_run isWordChar _ name [c0] rest [] final Hword eq_refl).
  - eexists. split; [reflexivity|]. split; reflexivity.
  - cbn [suf pre caps].
    change (c0 :: name ++ rest) with ((c0 :: name) ++ rest). rewrite consumed_app.
    unfold rest. rewrite mtch_seq, mtch_lit1, mtch_seq, mtch_grp, star_class.
    apply greedy_class_deeper; [exact Hargs|].
    change (length [41%N]) with (length (41%N :: [])).
    rewrite greedy_class_cons, greedy_class_nil.
    change (negb (isLineTerminator 41%N)) with true. cbv iota.
    cbn [suf pre caps].
    rewrite mtch_seq, mtch_lit1_nil, mtch_seq, mtch_lit1, mtch_eol, consumed_app. reflexivity.
Qed.

Lemma denote_decimal (w : jsstring) : denote decimal w -> isNumeral w.
Proof.
  intros [u [v [-> [Hu Hv]]]]. apply (@denote_class_plus true) in Hu.
  destruct Hu as [Hne Hd]. exists u, v. repeat split; auto.
  destruct Hv as [->|[a [b [-> [Ha Hb]]]]]; [left; reflexivity|].
  apply denote_lit1 in Ha. subst a. apply (@denote_class_plus true) in Hb.
  destruct Hb as [Hne' Hd']. right. exists b. auto.
Qed.

(** The group of the [o1] action pattern holds no line terminator. *)
Lemma o1ActionPattern_group (text : jsstring) (m : found) :
  exec o1ActionPattern text = Some m ->
  exists g, group 1 m = Some g
    /\ forallb (fun c => negb (isLineTerminator c)) g = true.
Proof.
  intros H. apply exec_matchAt in H. destruct H as [p [s [M _]]].
  apply matchAt_run in M. destruct M as [E _]. unfold group.
  generalize dependent (f_end m). intros y E.
  change o1ActionPattern
    with (Seq (lit1 LF) (Seq (lit (js "Action:")) (Seq (Star true space)
            (Seq (Grp 1 (Star false dot))
                 (Seq (Star true space) (lit (js "</Output>"))))))) in E.
  rewrite mtch_seq in E. along E z1 w1 Hs1 Hp1 Hd1 Hc1.
  rewrite mtch_seq in E. along E z2 w2 Hs2 Hp2 Hd2 Hc2.
  rewrite mtch_seq in E. along E z3 w3 Hs3 Hp3 Hd3 Hc3.
  rewrite mtch_seq, mtch_grp in E. along E z4 w4 Hs4 Hp4 Hd4 Hc4.
  along E z5 w5 Hs5 Hp5 Hd5 Hc5. cbn [suf pre caps] in *.
  inversion E; subst y. clear E.
  exists w4. split.
  - rewrite Hc5. cbn [capture Nat.eqb]. f_equal. apply consumed_step. exact Hs4.
  - apply (@denote_class_star false). exact Hd4.
Qed.

(** The groups of the coordinate pattern are numerals. *)
Lemma coordPattern_groups (text : jsstring) (m : found) :
  exec coordPattern text = Some m ->
  exists x y, group 1 m = Some x /\ group 2 m = Some y /\ isNumeral x /\ isNumeral y.
Proof.
  intros H. apply exec_matchAt in H. destruct H as [p [s [M _]]].
  apply matchAt_run in M. destruct M as [E _]. unfold group.
  generalize dependent (f_end m). intros y E.
  change coordPattern
    with (Seq (oneOf [40%N; 91%N; 123%N]) (Seq (Star true space) (Seq (Grp 1 decimal)
            (Seq (Star true space) (Seq (lit1 44%N) (Seq (Star true space)
               (Seq (Grp 2 decimal) (oneOf [93%N; 41%N; 125%N])))))))) in E.
  rewrite mtch_seq in E. along E z1 w1 Hs1 Hp1 Hd1 Hc1.
  rewrite mtch_seq in E. along E z2 w2 Hs2 Hp2 Hd2 Hc2.
  rewrite mtch_seq, mtch_grp in E. along E z3 w3 Hs3 Hp3 Hd3 Hc3.
  rewrite mtch_seq in E. along E z4 w4 Hs4 Hp4 Hd4 Hc4.
  rewrite mtch_seq in E. along E z5 w5 Hs5 Hp5 Hd5 Hc5.
  rewrite mtch_seq in E. along E z6 w6 Hs6 Hp6 Hd6 Hc6.
  rewrite mtch_seq, mtch_grp in E. along E z7 w7 Hs7 Hp7 Hd7 Hc7.
  along E z8 w8 Hs8 Hp8 Hd8 Hc8. cbn [suf pre caps] in *.
  inversion E; subst y. clear E.
  exists w3, w7. rewrite Hc8. cbn [capture Nat.eqb]. rewrite Hc7, Hc6, Hc5, Hc4.
  cbn [capture Nat.eqb].
  split; [f_equal; apply consumed_step; exact Hs3|].
  split; [f_equal; apply consumed_step; exact Hs7|].
  split; apply denote_decimal; assumption.
Qed.

End CallFacts.
Import CallFacts.

(* ------------------------------------------------------------------------- *)
(** ** The argument pattern and the quotes of a value *)

Module ArgumentFacts.

Import ActionParser.

Lemma argPairPattern_atom : argPairPattern = Plus true pairAtom.
Proof. reflexivity. Qed.

(** One piece of an argument, at the head of the text. *)
Lemma pairAtom_step (a : argAtom) (k : cont) (pr t : jsstring) (cs : list (nat * jsstring)) :
  atomOk a = true ->
  mtch pairAtom k (mkState pr (atomText a ++ t) cs)
  = k (mkState (rev (atomText a) ++ pr) t ((1, atomText a) :: cs)).
Proof.
  intros Hok. unfold pairAtom. rewrite mtch_grp.
  set (x := mkState pr (atomText a ++ t) cs).
  set (k' := fun y => k (mkState (pre y) (suf y) ((1, consumed x y) :: caps y))).
  change (mtch (Alt ?a ?b) k' x)
    with (match mtch a k' x with Some z => Some z | None => mtch b k' x end).
  destruct a as [c|v]; cbn [atomText atomOk] in *.
  - unfold noneOf at 1. unfold x at 1. cbn [app]. rewrite mtch_chr, Hok.
    unfold k' at 1. cbn [pre suf caps]. unfold x at 1. rewrite consumed_app.
    cbn [rev app].
    destruct (k _) eqn:K; [reflexivity|].
    unfold x. cbn [app]. rewrite mtch_seq. unfold lit1. rewrite mtch_chr.
    replace (N.eqb SQUOTE c) with false; [reflexivity|].
    symmetry. apply N.eqb_neq. intros <-. discriminate.
  - unfold noneOf at 1. unfold x at 1. cbn [app]. rewrite mtch_chr. cbn [existsb negb N.eqb orb].
    change (N.eqb SQUOTE 44) with false. cbn [orb].
    rewrite N.eqb_refl. cbn [orb negb].
    unfold x. cbn [app]. rewrite <- app_assoc. cbn [app].
    rewrite mtch_seq, mtch_lit1, mtch_seq. unfold noneOf.
    rewrite star_class.
    rewrite greedy_class_end with (w := v) (rest := SQUOTE :: t).
    + rewrite mtch_lit1. unfold k'. cbn [pre suf caps].
      f_equal. f_equal.
      * cbn [rev]. rewrite rev_app_distr. cbn [rev app]. rewrite <- !app_assoc. reflexivity.
      * f_equal. f_equal. unfold x. apply consumed_app.
    + intros pr' c t' cs' Hc. unfold lit1. rewrite mtch_chr.
      replace (N.eqb SQUOTE c) with false; [reflexivity|].
      symmetry. apply N.eqb_neq. intros <-. discriminate.
    + exact Hok.
    + reflexivity.
Qed.

Lemma atomText_length (a : argAtom) : 1 <= length (atomText a).
Proof. destruct a; simpl; lia. Qed.

(** No piece starts at the end of the text or at a comma. *)
Lemma pairAtom_stop (k : cont) (pr rest : jsstring) (cs : list (nat * jsstring)) :
  match rest with c :: _ => c = 44%N | [] => True end ->
  mtch pairAtom k (mkState pr rest cs) = None.
Proof.
  intros H. destruct rest as [|c t]; [reflexivity|]. subst c. reflexivity.
Qed.

(** The loop of the argument pattern runs over all the pieces of an
    argument and stops at the comma or the end that follows. *)
Lemma pairAtom_loop (atoms : list argAtom) :
  forall pr rest cs n,
    forallb atomOk atoms = true ->
    match rest with c :: _ => c = 44%N | [] => True end ->
    length (atomsText atoms ++ rest) <= n ->
    exists cs',
      repeatMatcher (mtch pairAtom) [1] true Some n (mkState pr (atomsText atoms ++ rest) cs)
      = Some (mkState (rev (atomsText atoms) ++ pr) rest cs').
Proof.
  induction atoms as [|a atoms IH]; intros pr rest cs n Hok Hstop Hn.
  - cbn [atomsText map concat app rev]. destruct n as [|n].
    + exists cs. reflexivity.
    + cbn [repeatMatcher]. unfold clear. cbn [pre suf caps].
      rewrite pairAtom_stop by exact Hstop. eexists. reflexivity.
  - simpl in Hok. apply andb_true_iff in Hok. destruct Hok as [Ha Hok].
    unfold atomsText in *. cbn [map concat] in *. rewrite <- app_assoc in *.
    pose proof (atomText_length a) as La.
    destruct n as [|n]; [rewrite length_app in Hn; lia|].
    cbn [repeatMatcher]. unfold clear. cbn [pre suf caps].
    rewrite pairAtom_step by exact Ha. cbn [suf].
    replace (Nat.ltb (length (concat (map atomText atoms) ++ rest))
                     (length (atomText a ++ concat (map atomText atoms) ++ rest)))
      with true by (symmetry; apply Nat.ltb_lt; rewrite (length_app (atomText a)); lia).
    destruct (IH (rev (atomText a) ++ pr) rest
                 ((1, atomText a)
                  :: filter (fun kv => negb (existsb (Nat.eqb (fst kv)) [1])) cs)
                 n Hok Hstop) as [cs' E].
    { rewrite (length_app (atomText a)) in Hn. lia. }
    rewrite E. exists cs'. rewrite rev_app_distr, <- app_assoc. reflexivity.
Qed.

(** An attempt of the argument pattern at the head of an argument takes
    the whole argument. *)
Lemma matchAt_argument (item p rest : jsstring) :
  isArgument item ->
  match rest with c :: _ => c = 44%N | [] => True end ->
  exists f, matchAt argPairPattern p (item ++ rest) = Some f /\ matched f = item.
Proof.
  intros [atoms [Hne [Hok ->]]] Hstop.
  destruct atoms as [|a atoms]; [congruence|]. clear Hne.
  simpl in Hok. apply andb_true_iff in Hok. destruct Hok as [Ha Hok].
  unfold matchAt. rewrite argPairPattern_atom.
  change (mtch (Plus true pairAtom) Some ?x)
    with (mtch pairAtom
            (fun y => repeatMatcher (mtch pairAtom) [1] true Some (length (suf y)) y)
            (clear [1] x)).
  unfold clear. cbn [pre suf caps filter].
  unfold atomsText. cbn [map concat]. rewrite <- app_assoc.
  rewrite pairAtom_step by exact Ha. cbn [suf].
  destruct (@pairAtom_loop atoms (rev (atomText a) ++ p) rest [(1, atomText a)]
              (length (concat (map atomText atoms) ++ rest)) Hok Hstop (Nat.le_refl _))
    as [cs' E].
  unfold atomsText in E. rewrite E.
  eexists. split; [reflexivity|].
  unfold matched. cbn [f_start f_end]. rewrite app_assoc. apply consumed_app.
Qed.

Lemma matchAt_argument_stop (p rest : jsstring) :
  match rest with c :: _ => c = 44%N | [] => True end ->
  matchAt argPairPattern p rest = None.
Proof.
  intros H. unfold matchAt. rewrite argPairPattern_atom.
  change (mtch (Plus true pairAtom) Some ?x)
    with (mtch pairAtom
            (fun y => repeatMatcher (mtch pairAtom) [1] true Some (length (suf y)) y)
            (clear [1] x)).
  unfold clear. cbn [pre suf caps filter]. rewrite pairAtom_stop by exact H. reflexivity.
Qed.

Lemma matchGo_skip (r : regex) (n : nat) :
  forall s p, n <= length s ->
    matchGo r p s n = matchGo r (rev (firstn n s) ++ p) (skipn n s) 0.
Proof.
  induction n as [|n IH]; intros s p H.
  - reflexivity.
  - destruct s as [|c t]; [simpl in H; lia|].
    simpl in H. cbn [matchGo firstn skipn rev]. rewrite IH by lia.
    rewrite <- app_assoc. reflexivity.
Qed.

Lemma matchGo_match (r : regex) (p w rest : jsstring) (f : found) :
  matchAt r p (w ++ rest) = Some f -> matched f = w -> w <> [] ->
  matchGo r p (w ++ rest) 0 = w :: matchGo r (rev w ++ p) rest 0.
Proof.
  intros M Hw Hne. destruct w as [|c w]; [congruence|].
  cbn [app matchGo]. cbn [app] in M. rewrite M, Hw. cbn [length pred]. f_equal.
  rewrite matchGo_skip by (rewrite length_app; lia).
  rewrite firstn_app, Nat.sub_diag, firstn_all, skipn_app, Nat.sub_diag, skipn_all.
  cbn [firstn skipn rev app]. rewrite app_nil_r, <- app_assoc. reflexivity.
Qed.

Lemma isArgument_nonempty (item : jsstring) : isArgument item -> item <> [].
Proof.
  intros [atoms [Hne [_ ->]]]. destruct atoms as [|a atoms]; [congruence|].
  unfold atomsText. cbn [map concat]. pose proof (atomText_length a).
  destruct (atomText a); [simpl in *; lia | discriminate].
Qed.

(** The arguments joined by commas are found again, one by one. *)
Lemma matchGo_arguments (items : list jsstring) :
  Forall isArgument items ->
  forall p, matchGo argPairPattern p (join [44%N] items) 0 = items.
Proof.
  induction 1 as [|item items Hitem Hitems IH]; intros p.
  - cbn [join matchGo]. rewrite matchAt_argument_stop by exact I. reflexivity.
  - destruct items as [|item' items].
    + cbn [join]. rewrite <- (app_nil_r item) at 1.
      destruct (@matchAt_argument item p [] Hitem I) as [f [M Hm]].
      rewrite (matchGo_match M Hm (isArgument_nonempty Hitem)).
      cbn [matchGo]. rewrite matchAt_argument_stop by exact I. reflexivity.
    + change (join [44%N] (item :: item' :: items))
        with (item ++ 44%N :: join [44%N] (item' :: items)).
      destruct (@matchAt_argument item p (44%N :: join [44%N] (item' :: items)) Hitem eq_refl)
        as [f [M Hm]].
      rewrite (matchGo_match M Hm (isArgument_nonempty Hitem)).
      cbn [matchGo]. rewrite matchAt_argument_stop by reflexivity.
      rewrite IH. reflexivity.
Qed.

(** *** The quotes around a value *)

Lemma matchAt_quotes_start (c : codeunit) (t : jsstring) :
  matchAt surroundingQuotes [] (c :: t)
  = if isQuote c
    then Some (mkFound (mkState [] (c :: t) []) (mkState [c] t []))
    else None.
Proof.
  unfold matchAt, surroundingQuotes, oneOf. fold (isQuote c).
  change (mtch (Alt ?a ?b) Some ?x)
    with (match mtch a Some x with Some z => Some z | None => mtch b Some x end).
  rewrite mtch_seq, mtch_bol, mtch_chr, mtch_seq, mtch_chr.
  fold (isQuote c). destruct (isQuote c); [reflexivity|reflexivity].
Qed.

Lemma matchAt_quotes_later (p0 : codeunit) (p : jsstring) (c : codeunit) (t : jsstring) :
  matchAt surroundingQuotes (p0 :: p) (c :: t)
  = if isQuote c
    then match t with
         | [] => Some (mkFound (mkState (p0 :: p) [c] []) (mkState (c :: p0 :: p) [] []))
         | _ :: _ => None
         end
    else None.
Proof.
  unfold matchAt, surroundingQuotes, oneOf.
  cbn [mtch pre suf advance caps]. fold (isQuote c).
  destruct (isQuote c); [|reflexivity]. destruct t; reflexivity.
Qed.

Lemma matchAt_quotes_end (p : jsstring) : matchAt surroundingQuotes p [] = None.
Proof. unfold matchAt, surroundingQuotes. cbn [mtch pre suf oneOf]. destruct p; reflexivity. Qed.

Lemma replace_quotes_later (t : jsstring) :
  forall p0 p, replaceGo surroundingQuotes [] (p0 :: p) t 0 = dropTrailingQuote t.
Proof.
  induction t as [|c t IH]; intros p0 p.
  - cbn [replaceGo]. rewrite matchAt_quotes_end. reflexivity.
  - cbn [replaceGo]. rewrite matchAt_quotes_later.
    destruct (isQuote c) eqn:Q.
    + destruct t as [|d t].
      * unfold matched, consumed. cbn [f_start f_end suf length Nat.sub firstn].
        cbn [replaceGo app]. rewrite matchAt_quotes_end. cbn [dropTrailingQuote].
        rewrite Q. reflexivity.
      * rewrite IH. reflexivity.
    + rewrite IH. destruct t; [cbn [dropTrailingQuote]; rewrite Q|]; reflexivity.
Qed.

(** The replace of line 297 removes at most one quote at each end. *)
Lemma replace_surrounding_quotes (s : jsstring) :
  replaceAll surroundingQuotes [] s = dropTrailingQuote (dropLeadingQuote s).
Proof.
  unfold replaceAll. destruct s as [|c t].
  - cbn [replaceGo]. rewrite matchAt_quotes_end. reflexivity.
  - cbn [replaceGo dropLeadingQuote]. rewrite matchAt_quotes_start.
    destruct (isQuote c) eqn:Q.
    + unfold matched, consumed. cbn [f_start f_end suf length].
      replace (S (length t) - length t) with 1 by lia. cbn [firstn length app].
      apply replace_quotes_later.
    + rewrite replace_quotes_later.
      destruct t; [cbn [dropTrailingQuote]; rewrite Q|]; reflexivity.
Qed.

End ArgumentFacts.
Import ArgumentFacts.

(* ------------------------------------------------------------------------- *)
(** ** The pairs of a call *)

Module PairFacts.

Import JsObject ActionParser.

(** [addPair] in plain terms: the pair is cut at its first [=], both sides
    are trimmed, and the value loses at most one quote at each end. *)
Lemma addPair_cut (kwargs : obj jsstring) (k v : jsstring) :
  ~ In 61%N k ->
  let value := dropTrailingQuote (dropLeadingQuote (trim v)) in
  includes value (js "<bbox>") = false ->
  includes value (js "<point>") = false ->
  addPair kwargs (k ++ 61%N :: v) = JsObject.set (trim k) value kwargs.
Proof.
  intros Hk value Hb Hp. unfold addPair.
  replace (indexOf (k ++ 61%N :: v) 61%N) with (Some (length k))
    by (symmetry; apply indexOf_app; exact Hk).
  unfold substring, substringFrom. cbn [skipn]. rewrite Nat.sub_0_r.
  rewrite firstn_app, Nat.sub_diag, firstn_all. cbn [firstn]. rewrite app_nil_r.
  replace (length k + 1) with (S (length k)) by lia.
  replace (skipn (S (length k)) (k ++ 61%N :: v)) with v
    by (rewrite skipn_app, skipn_all2 by lia;
        replace (S (length k) - length k) with 1 by lia; reflexivity).
  rewrite replace_surrounding_quotes. fold value. rewrite Hb, Hp. reflexivity.
Qed.

Lemma dropTrailingQuote_cons (c : codeunit) (t : jsstring) :
  t <> [] -> dropTrailingQuote (c :: t) = c :: dropTrailingQuote t.
Proof. destruct t; [congruence | reflexivity]. Qed.

Lemma dropTrailingQuote_app (v : jsstring) (q : codeunit) :
  isQuote q = true -> dropTrailingQuote (v ++ [q]) = v.
Proof.
  intros Q. induction v as [|c v IH].
  - cbn [app dropTrailingQuote]. rewrite Q. reflexivity.
  - cbn [app]. rewrite dropTrailingQuote_cons by (destruct v; discriminate).
    rewrite IH. reflexivity.
Qed.

(** One pair [key='value'], with white space before it or not. *)
Lemma addPair_pair (kwargs : obj jsstring) (ws : jsstring) (kv : jsstring * jsstring) :
  forallb isWhiteSpace ws = true -> ~ In 61%N ws -> isPlainPair kv ->
  addPair kwargs (ws ++ pairText kv) = JsObject.set (fst kv) (snd kv) kwargs.
Proof.
  intros Hws Hnot [Hk [Hv [Hb Hp]]]. destruct kv as [k v]. cbn [fst snd] in *.
  unfold pairText. cbn [fst snd js cu app].
  change (cu "=") with 61%N. change (cu "'") with SQUOTE.
  rewrite app_assoc.
  assert (V : dropTrailingQuote (dropLeadingQuote (trim (SQUOTE :: v ++ [SQUOTE]))) = v).
  { rewrite trim_quoted. cbn [dropLeadingQuote]. change (isQuote SQUOTE) with true.
    cbv iota. apply dropTrailingQuote_app. reflexivity. }
  rewrite addPair_cut.
  - rewrite V, trim_word by assumption. reflexivity.
  - intros Hin. apply in_app_or in Hin. destruct Hin as [Hin|Hin];
      [exact (Hnot Hin) | exact (word_is_not_equals Hk Hin)].
  - rewrite V. exact Hb.
  - rewrite V. exact Hp.
Qed.

Lemma atomsText_plain (l : jsstring) (v : jsstring) :
  atomsText (map Plain l ++ [Quoted v]) = l ++ SQUOTE :: v ++ [SQUOTE].
Proof.
  unfold atomsText. induction l as [|c l IH]; cbn [map app concat atomText].
  - rewrite app_nil_r. reflexivity.
  - cbn [map app concat atomText] in IH. rewrite IH. reflexivity.
Qed.

Lemma forallb_map_plain (l : jsstring) :
  forallb atomOk (map Plain l)
  = forallb (fun c => negb (existsb (N.eqb c) [44%N; SQUOTE])) l.
Proof. induction l as [|c l IH]; cbn [map forallb atomOk]; [|rewrite IH]; reflexivity. Qed.

Lemma word_is_plain (c : codeunit) :
  isWordChar c = true -> negb (existsb (N.eqb c) [44%N; SQUOTE]) = true.
Proof.
  intros H. cbn [existsb].
  destruct (N.eqb_spec c 44) as [->|_]; [discriminate|].
  destruct (N.eqb_spec c SQUOTE) as [->|_]; [discriminate|]. reflexivity.
Qed.

Lemma pair_isArgument (ws : jsstring) (kv : jsstring * jsstring) :
  forallb (fun c => negb (existsb (N.eqb c) [44%N; SQUOTE])) ws = true ->
  isPlainPair kv -> isArgument (ws ++ pairText kv).
Proof.
  intros Hws [Hk [Hv _]]. destruct kv as [k v]. cbn [fst snd] in *.
  exists (map Plain (ws ++ k ++ [61%N]) ++ [Quoted v]). split; [|split].
  - destruct (map Plain (ws ++ k ++ [61%N])); discriminate.
  - rewrite forallb_app. apply andb_true_iff. split.
    + rewrite forallb_map_plain.
      apply forallb_forall. intros x Hx.
      apply in_app_or in Hx. destruct Hx as [Hx|Hx].
      * rewrite forallb_forall in Hws. apply Hws. exact Hx.
      * apply in_app_or in Hx. destruct Hx as [Hx|[<-|[]]]; [|reflexivity].
        rewrite forallb_forall in Hk. apply word_is_plain, Hk, Hx.
    + cbn [forallb atomOk]. rewrite andb_true_r.
      apply forallb_forall. intros x Hx. rewrite forallb_forall in Hv. apply Hv in Hx.
      apply andb_true_iff in Hx. destruct Hx as [Hx _]. cbn [existsb]. rewrite orb_false_r.
      exact Hx.
  - rewrite atomsText_plain. unfold pairText. cbn [fst snd js cu app].
    change (cu "=") with 61%N. change (cu "'") with SQUOTE.
    rewrite <- !app_assoc. reflexivity.
Qed.


(** *** A call written out and read back *)

Lemma join_spaced (l : list jsstring) :
  l <> [] -> join [44%N] (map (fun x => 32%N :: x) l) = 32%N :: join [44%N; 32%N] l.
Proof.
  induction l as [|b l IH]; [congruence|]. intros _.
  destruct l as [|c l].
  - reflexivity.
  - change (join [44%N] (map (fun x => 32%N :: x) (b :: c :: l)))
      with ((32%N :: b) ++ [44%N] ++ join [44%N] (map (fun x => 32%N :: x) (c :: l))).
    rewrite IH by discriminate.
    change (join [44%N; 32%N] (b :: c :: l))
      with (b ++ [44%N; 32%N] ++ join [44%N; 32%N] (c :: l)).
    reflexivity.
Qed.

Lemma join_comma_space (a : jsstring) (l : list jsstring) :
  join (js ", ") (a :: l) = join [44%N] (a :: map (fun x => 32%N :: x) l).
Proof.
  destruct l as [|b l]; [reflexivity|].
  change (join [44%N] (a :: map (fun x => 32%N :: x) (b :: l)))
    with (a ++ [44%N] ++ join [44%N] (map (fun x => 32%N :: x) (b :: l))).
  rewrite join_spaced by discriminate. reflexivity.
Qed.

Lemma pairText_one_line (kv : jsstring * jsstring) :
  isPlainPair kv -> forallb (fun c => negb (isLineTerminator c)) (pairText kv) = true.
Proof.
  intros [Hk [Hv _]]. unfold pairText. rewrite !forallb_app.
  apply andb_true_iff. split; [|apply andb_true_iff; split;
                                 [reflexivity | apply andb_true_iff; split; [|reflexivity]]].
  - rewrite forallb_forall in *. intros x Hx. apply word_is_not_terminator, Hk, Hx.
  - rewrite forallb_forall in *. intros x Hx. apply Hv in Hx.
    apply andb_true_iff in Hx. tauto.
Qed.

Lemma fold_pairs (l : list (jsstring * jsstring)) :
  Forall isPlainPair l ->
  forall o, fold_left addPair (map (fun x => 32%N :: x) (map pairText l)) o
            = fold_left (fun o kv => JsObject.set (fst kv) (snd kv) o) l o.
Proof.
  induction 1 as [|kv l Hkv Hl IH]; intros o; [reflexivity|].
  cbn [map fold_left].
  replace (addPair o (32%N :: pairText kv)) with (JsObject.set (fst kv) (snd kv) o);
    [apply IH|].
  symmetry. apply (@addPair_pair o [32%N] kv eq_refl); [|exact Hkv].
  intros [H|[]]. discriminate.
Qed.

Lemma pairText_has_equals (kv : jsstring * jsstring) : In 61%N (pairText kv).
Proof. unfold pairText. apply in_or_app. right. left. reflexivity. Qed.

(** The arguments of a call text, as [parseAction] reads them. *)
Lemma arguments_read_back (pairs : list (jsstring * jsstring)) :
  Forall isPlainPair pairs ->
  let argsStr := join (js ", ") (map pairText pairs) in
  match trim argsStr with
  | _ :: _ => fold_left addPair (matchAll argPairPattern argsStr) empty
  | [] => empty
  end = fold_left (fun o kv => JsObject.set (fst kv) (snd kv) o) pairs empty.
Proof.
  intros H argsStr. destruct pairs as [|kv pairs].
  - reflexivity.
  - assert (Hin : In 61%N (trim argsStr)).
    { apply in_trim; [reflexivity|]. unfold argsStr. cbn [map].
      destruct (map pairText pairs) as [|b l].
      - apply pairText_has_equals.
      - change (join (js ", ") (pairText kv :: b :: l))
          with (pairText kv ++ js ", " ++ join (js ", ") (b :: l)).
        apply in_or_app. left. apply pairText_has_equals. }
    destruct (trim argsStr) as [|c t]; [destruct Hin|]. clear Hin.
    unfold argsStr, matchAll. cbn [map]. rewrite join_comma_space.
    inversion H as [|kv' l' Hkv Hpairs]; subst.
    rewrite matchGo_arguments.
    + cbn [fold_left].
      replace (addPair empty (pairText kv)) with (JsObject.set (fst kv) (snd kv) empty)
        by (symmetry; apply (@addPair_pair empty [] kv eq_refl (fun x => x) Hkv)).
      apply fold_pairs. exact Hpairs.
    + constructor.
      * apply (@pair_isArgument [] kv eq_refl Hkv).
      * clear - Hpairs. induction Hpairs as [|p l Hp Hl IH]; cbn [map]; constructor.
        -- apply (@pair_isArgument [32%N] p eq_refl Hp).
        -- exact IH.
Qed.

Lemma callText_isCallText (name : jsstring) (pairs : list (jsstring * jsstring)) :
  name <> [] -> forallb isWordChar name = true -> Forall isPlainPair pairs ->
  isCallText (callText name pairs) name (join (js ", ") (map pairText pairs)).
Proof.
  intros Hne Hw Hp. split; [reflexivity|]. split; [exact Hne|]. split; [exact Hw|].
  apply forallb_join; [reflexivity|].
  clear - Hp. induction Hp as [|p l Hp Hl IH]; cbn [map]; constructor.
  - apply pairText_one_line. exact Hp.
  - exact IH.
Qed.

(** A call written out, read by [parseAction]. *)
Lemma parseAction_callText (toLowerCase : jsstring -> jsstring) (actionStr name : jsstring)
    (pairs : list (jsstring * jsstring)) (c : console) :
  preprocess actionStr = callText name pairs ->
  name <> [] -> forallb isWordChar name = true -> Forall isPlainPair pairs ->
  parseAction toLowerCase actionStr c
  = (Returned (Some (mkCall (Some name)
                            (fold_left (fun o kv => JsObject.set (fst kv) (snd kv) o)
                                       pairs empty))),
     c).
Proof.
  intros Htext Hne Hw Hpairs.
  destruct (functionPattern_complete (callText_isCallText Hne Hw Hpairs))
    as [m [E [G1 G2]]].
  unfold parseAction, tryCatch, parseActionBody. rewrite Htext, E, G1, G2.
  unfold bind, defined, ret. rewrite (arguments_read_back Hpairs). reflexivity.
Qed.

End PairFacts.
Import PairFacts.

(* ------------------------------------------------------------------------- *)
(** ** The tags around a box and the spaces between its coordinates *)

Module TagFacts.

Import ActionParser.

Section Tags.

(** An opening tag [a] and a closing tag [b], both starting with [<], the
    closing one not starting with the opening one. *)
Variables a b : jsstring.
Hypothesis Ha : exists a', a = 60%N :: a'.
Hypothesis Hb : exists b', b = 60%N :: b'.
Hypothesis Hab : startsWith b a = false.


Lemma matchAt_tags (p s : jsstring) :
  matchAt (Alt (lit a) (lit b)) p s
  = if startsWith s a
    then Some (mkFound (mkState p s []) (mkState (rev a ++ p) (skipn (length a) s) []))
    else if startsWith s b
         then Some (mkFound (mkState p s []) (mkState (rev b ++ p) (skipn (length b) s) []))
         else None.
Proof.
  unfold matchAt.
  change (mtch (Alt ?x ?y) Some ?z)
    with (match mtch x Some z with Some r => Some r | None => mtch y Some z end).
  rewrite !lit_run. destruct (startsWith s a); [reflexivity|].
  destruct (startsWith s b); reflexivity.
Qed.




End Tags.

(** *** Runs of white space *)






(** *** Coordinates between tags *)



End TagFacts.
Import TagFacts.

(* ------------------------------------------------------------------------- *)
(** ** Step 1 of [parseAction] *)

Module StepOneFacts.

Import ActionParser.

(** A text that contains [k] nowhere does not continue with [k] at any
    position. *)
Lemma includes_false (k s : jsstring) :
  includes s k = false -> forall q, startsWith (skipn q s) k = false.
Proof.
  induction s as [|c t IH]; intros H q.
  - simpl in H. destruct q; simpl; destruct (startsWith [] k); congruence.
  - cbn [includes] in H. destruct (startsWith (c :: t) k) eqn:E; [discriminate|].
    destruct q as [|q]; [exact E | apply IH; exact H].
Qed.

Lemma includes_app_r (k u s : jsstring) :
  includes s k = true -> includes (u ++ s) k = true.
Proof.
  intros H. induction u as [|c u IH]; [exact H|].
  cbn [app includes]. rewrite IH. destruct (startsWith (c :: u ++ s) k); reflexivity.
Qed.

Lemma startsWith_app_l (k s v : jsstring) :
  startsWith s k = true -> startsWith (s ++ v) k = true.
Proof.
  intros H. apply startsWith_prefix in H. destruct H as [r ->].
  rewrite <- app_assoc. apply startsWith_app.
Qed.

Lemma includes_app_l (k s v : jsstring) :
  includes s k = true -> includes (s ++ v) k = true.
Proof.
  induction s as [|c s IH]; intros H.
  - simpl in H. destruct (startsWith [] k) eqn:E; [|discriminate].
    destruct k; [|discriminate]. destruct v; reflexivity.
  - cbn [includes] in H. cbn [app includes].
    destruct (startsWith (c :: s) k) eqn:E.
    + pose proof (@startsWith_app_l k (c :: s) v E) as R. cbn [app] in R.
      rewrite R. reflexivity.
    + rewrite (IH H). destruct (startsWith (c :: s ++ v) k); reflexivity.
Qed.

(** What [trim] returns is found in the text. *)
Lemma includes_trim (k s : jsstring) :
  includes s k = false -> includes (trim s) k = false.
Proof.
  intros H. destruct (includes (trim s) k) eqn:E; [|reflexivity].
  destruct (trimStart_split s) as [ws [E1 _]].
  destruct (trimEnd_split (trimStart s)) as [ws' [E2 _]].
  fold (trim s) in E2. rewrite E1, E2 in H.
  rewrite (includes_app_r ws (includes_app_l ws' E)) in H. discriminate.
Qed.

(** A global replace leaves a text in which the pattern matches nowhere. *)
Lemma replaceGo_nowhere (r : regex) (rep : jsstring) (s : jsstring) :
  forall p, (forall q p', matchAt r p' (skipn q s) = None) ->
    replaceGo r rep p s 0 = s.
Proof.
  induction s as [|c t IH]; intros p H.
  - pose proof (H 0 p) as M. cbn [skipn] in M. cbn [replaceGo]. rewrite M. reflexivity.
  - pose proof (H 0 p) as M. cbn [skipn] in M.
    rewrite (replaceGo_no_match _ M). rewrite IH; [reflexivity|].
    intros q p'. apply (H (S q) p').
Qed.

Lemma matchAt_lit (l p s : jsstring) :
  startsWith s l = false -> matchAt (lit l) p s = None.
Proof. intros H. unfold matchAt. rewrite lit_run, H. reflexivity. Qed.

Lemma matchAt_barePoint (p s : jsstring) :
  startsWith s (js "point=") = false -> matchAt barePoint p s = None.
Proof.
  intros H. unfold matchAt, barePoint. rewrite mtch_seq.
  change (mtch (NotBehind ?l) ?k ?x)
    with (if existsb (fun s => startsWith (pre x) (rev s)) l then None else k x).
  destruct (existsb _ _); [reflexivity|]. rewrite lit_run, H. reflexivity.
Qed.

Lemma matchAt_boxMarkers (p s : jsstring) :
  startsWith s (js "<|box_start|>") = false -> startsWith s (js "<|box_end|>") = false ->
  matchAt boxMarkers p s = None.
Proof.
  intros H1 H2. unfold boxMarkers.
  rewrite (@matchAt_tags (js "<|box_start|>") (js "<|box_end|>")), H1, H2. reflexivity.
Qed.

(** A text that continues with [u ++ k] at no position [q] holds [k]
    nowhere [length u] further on. *)
Lemma startsWith_longer (u k s : jsstring) :
  startsWith s (u ++ k) = true -> startsWith (skipn (length u) s) k = true.
Proof.
  intros H. apply startsWith_prefix in H. destruct H as [r ->].
  rewrite <- app_assoc. replace (length u) with (length u + 0) by lia.
  rewrite skipn_plus. cbn [skipn]. apply startsWith_app.
Qed.

(** Step 1 of [parseAction] on a text without box marker and without
    [point=]. *)
Lemma preprocess_untouched (actionStr : jsstring) :
  includes actionStr (js "<|box_start|>") = false ->
  includes actionStr (js "<|box_end|>") = false ->
  includes actionStr (js "point=") = false ->
  preprocess actionStr = trim actionStr.
Proof.
  intros H1 H2 H3. apply includes_trim in H1, H2, H3.
  pose proof (includes_false H1) as S1. pose proof (includes_false H2) as S2.
  pose proof (includes_false H3) as S3. clear H1 H2 H3.
  unfold preprocess, replaceAll.
  rewrite (@replaceGo_nowhere boxMarkers)
    by (intros q p'; apply matchAt_boxMarkers; [apply S1 | apply S2]).
  rewrite (@replaceGo_nowhere barePoint) by (intros q p'; apply matchAt_barePoint, S3).
  rewrite (@replaceGo_nowhere startPoint).
  - apply replaceGo_nowhere. intros q p'. apply matchAt_lit.
    destruct (startsWith (skipn q (trim actionStr)) (js "end_point=")) eqn:E; [|reflexivity].
    apply (@startsWith_longer (js "end_") (js "point=")) in E.
    rewrite skipn_skipn, S3 in E. discriminate.
  - intros q p'. apply matchAt_lit.
    destruct (startsWith (skipn q (trim actionStr)) (js "start_point=")) eqn:E; [|reflexivity].
    apply (@startsWith_longer (js "start_") (js "point=")) in E.
    rewrite skipn_skipn, S3 in E. discriminate.
Qed.

End StepOneFacts.
Import StepOneFacts.

(* ------------------------------------------------------------------------- *)
(** ** The lookahead and the thought pattern *)

Module ThoughtPatternFacts.

Import ActionParser.

Lemma marker_run (p s : jsstring) (cs : list (nat * jsstring)) :
  mtch actionMarker Some (mkState p s cs)
  = if markerAt s
    then Some (mkState (rev (firstn 7 s) ++ p) (skipn 7 s) cs)
    else None.
Proof.
  unfold markerAt, actionMarker, actionKeywords.
  cbv [js cu lit lit1 oneOf mtch suf pre caps advance existsb app FULLWIDTH_COLON startsWith].
  do 6 (let c := fresh "c" in
        destruct s as [|c s]; [reflexivity|];
        match goal with
        | |- context [N.eqb ?a c] => destruct (N.eqb_spec a c) as [<-|_]; [|reflexivity]
        end; cbv [andb orb]).
  destruct s as [|c5 s]; [reflexivity|].
  destruct (N.eqb_spec (N_of_ascii ":") c5) as [<-|E1]; [reflexivity|].
  destruct (N.eqb_spec 65306 c5) as [<-|E2]; [reflexivity|].
  destruct (N.eqb_spec c5 58) as [->|_]; [elim E1; reflexivity|].
  destruct (N.eqb_spec c5 65306) as [->|_]; [elim E2; reflexivity|].
  reflexivity.
Qed.

Lemma marker_refuses_space (pr : jsstring) (c : codeunit) (t : jsstring)
    (cs : list (nat * jsstring)) :
  isWhiteSpace c = true -> mtch actionMarker Some (mkState pr (c :: t) cs) = None.
Proof.
  intros H. rewrite marker_run.
  destruct (markerAt (c :: t)) eqn:M; [|reflexivity].
  apply markerAt_shape in M. destruct M as [x [r [E _]]].
  cbv [js cu app] in E. injection E as -> _. discriminate.
Qed.

Lemma markerAt_head (s : jsstring) :
  markerAt s = true -> trimStart s = s.
Proof.
  intros M. apply markerAt_shape in M. destruct M as [x [r [-> _]]]. reflexivity.
Qed.

(** The lookahead [(?=\s*Action[:...]|$)] as a test on the rest of the
    text. *)
Lemma beforeAction_test (k : cont) (p s : jsstring) (cs : list (nat * jsstring)) :
  mtch beforeAction k (mkState p s cs)
  = if stopsBefore s then k (mkState p s cs) else None.
Proof.
  unfold beforeAction.
  change (mtch (Ahead ?a) k ?x)
    with (match mtch a Some x with
          | Some y => k (mkState (pre x) (suf x) (caps y))
          | None => None
          end).
  change (mtch (Alt ?a ?b) Some ?x)
    with (match mtch a Some x with Some z => Some z | None => mtch b Some x end).
  rewrite mtch_seq. unfold space. rewrite star_class.
  destruct (trimStart_split s) as [ws [E W]].
  assert (Hrest : match trimStart s with c :: _ => isWhiteSpace c = false | [] => True end).
  { destruct (trimStart s) as [|c t] eqn:T; [exact I | exact (trimStart_head T)]. }
  rewrite E at 1 2.
  rewrite (@greedy_class_end isWhiteSpace (mtch actionMarker Some)
             (fun pr c t cs' H => marker_refuses_space pr t cs' H)
             ws p (trimStart s) cs W Hrest).
  rewrite marker_run. cbn [pre suf caps]. clear E W Hrest.
  unfold stopsBefore. destruct s as [|c t].
  - reflexivity.
  - destruct (markerAt (trimStart (c :: t))); reflexivity.
Qed.

(** *** The groups of the thought patterns *)

Lemma lazy_here (m : cont -> state -> option state) (gs : list nat) (k : cont) (n : nat)
    (x z : state) :
  k x = Some z -> repeatMatcher m gs false k n x = Some z.
Proof. intros H. destruct n; simpl; rewrite H; reflexivity. Qed.

(** A text in which no marker starts before [tail], and at the start of
    which the lookahead holds, is white space up to [tail]. *)
Lemma stops_in_white_space (tail : jsstring) (r : jsstring) :
  (forall j, j < length r -> markerAt (skipn j (r ++ tail)) = false) ->
  r <> [] -> stopsBefore (r ++ tail) = true -> forallb isWhiteSpace r = true.
Proof.
  intros Hno Hne S.
  assert (M : markerAt (trimStart (r ++ tail)) = true)
    by (destruct r; [congruence | exact S]).
  clear Hne S. induction r as [|c r IH]; [reflexivity|].
  cbn [app trimStart forallb] in *. destruct (isWhiteSpace c) eqn:W.
  - apply IH; [|exact M]. intros j Hj. apply (Hno (S j)). simpl. lia.
  - pose proof (Hno 0 ltac:(simpl; lia)) as H0. cbn [skipn] in H0. congruence.
Qed.

Lemma stopsBefore_at_tail (tail : jsstring) :
  tail = [] \/ markerAt tail = true -> stopsBefore tail = true.
Proof.
  intros [->|M]; [reflexivity|].
  unfold stopsBefore. destruct tail; [reflexivity|].
  rewrite (markerAt_head M). exact M.
Qed.

(** A lazy loop over a class stops at the first position that its
    continuation accepts. *)
Lemma lazy_class_first (cls : codeunit -> bool) (k : cont) (u : jsstring) :
  forall pr v cs z,
    forallb cls u = true ->
    (forall u1 c u2, u = u1 ++ c :: u2 ->
       k (mkState (rev u1 ++ pr) (c :: u2 ++ v) cs) = None) ->
    k (mkState (rev u ++ pr) v cs) = Some z ->
    repeatMatcher (mtch (Chr cls)) [] false k (length (u ++ v)) (mkState pr (u ++ v) cs)
    = Some z.
Proof.
  induction u as [|c u IH]; intros pr v cs z Hcls Hno Hk.
  - cbn [app rev] in *. apply lazy_here. exact Hk.
  - cbn [app]. rewrite lazy_class_cons.
    pose proof (Hno [] c u eq_refl) as H0. cbn [rev app] in H0. rewrite H0.
    simpl in Hcls. apply andb_true_iff in Hcls. destruct Hcls as [-> Hcls].
    apply IH; [exact Hcls | |].
    + intros u1 c' u2 E. specialize (Hno (c :: u1) c' u2).
      cbn [rev app] in Hno. rewrite <- app_assoc in Hno. apply Hno.
      rewrite E. reflexivity.
    + cbn [rev] in Hk. rewrite <- app_assoc in Hk. exact Hk.
Qed.

Section Group.

(** The group [(c+?)] over the class [cls], followed by the lookahead,
    entered with [pr0] behind it and the captures [cs0], on a body that
    ends where [tail] starts; the units the loop steps over are of the
    class. *)
Variable cls : codeunit -> bool.
Variables body tail : jsstring.
Hypothesis Hcls :
  forall u c r, body = u ++ c :: r -> u <> [] -> stopsBefore (c :: r ++ tail) = false ->
    cls c = true.
Hypothesis Htail : tail = [] \/ markerAt tail = true.
Hypothesis Hfirst : forall q, q < length body -> markerAt (skipn q (body ++ tail)) = false.
Variable i : nat.
Variable pr0 : jsstring.
Variable cs0 : list (nat * jsstring).

Lemma group_loop (r : jsstring) :
  forall u, body = u ++ r -> u <> [] ->
  exists g ws,
    body = g ++ ws /\ forallb isWhiteSpace ws = true
    /\ repeatMatcher (mtch (Chr cls)) [] false
                     (afterGrp i (mtch beforeAction Some) (mkState pr0 (body ++ tail) cs0))
                     (length (r ++ tail)) (mkState (rev u ++ pr0) (r ++ tail) cs0)
       = Some (mkState (rev g ++ pr0) (ws ++ tail) ((i, g) :: cs0)).
Proof.
  induction r as [|c r IH]; intros u E Hu.
  - exists u, []. split; [exact E|]. split; [reflexivity|].
    apply lazy_here. unfold afterGrp. cbn [pre suf caps app].
    rewrite beforeAction_test, (stopsBefore_at_tail Htail).
    rewrite (@consumed_step _ _ u); [reflexivity|].
    cbn [suf]. rewrite E, app_nil_r. reflexivity.
  - destruct (stopsBefore ((c :: r) ++ tail)) eqn:S.
    + exists u, (c :: r). split; [exact E|]. split.
      * apply (@stops_in_white_space tail); [|discriminate | exact S].
        intros j Hj. rewrite <- (Hfirst (q := length u + j)).
        -- rewrite E, <- app_assoc, skipn_plus. reflexivity.
        -- rewrite E, length_app. lia.
      * apply lazy_here. unfold afterGrp. cbn [pre suf caps].
        rewrite beforeAction_test, S.
        rewrite (@consumed_step _ _ u); [reflexivity|].
        cbn [suf]. rewrite E, <- app_assoc. reflexivity.
    + destruct (IH (u ++ [c])) as [g [ws [Eg [W Hrun]]]].
      * rewrite E, <- app_assoc. reflexivity.
      * destruct u; discriminate.
      * exists g, ws. split; [exact Eg|]. split; [exact W|].
        cbn [app]. rewrite lazy_class_cons.
        replace (afterGrp i (mtch beforeAction Some) (mkState pr0 (body ++ tail) cs0)
                          (mkState (rev u ++ pr0) (c :: r ++ tail) cs0))
          with (@None state).
        -- rewrite (Hcls E Hu S). rewrite rev_app_distr in Hrun. exact Hrun.
        -- unfold afterGrp. cbn [pre suf caps]. rewrite beforeAction_test.
           cbn [app] in S. rewrite S. reflexivity.
Qed.

End Group.

(** The group from its first unit on. *)
Lemma group_run (cls : codeunit -> bool) (body tail : jsstring) (i : nat) (pr0 : jsstring)
    (cs0 : list (nat * jsstring)) :
  (forall u c r, body = u ++ c :: r -> stopsBefore (c :: r ++ tail) = false \/ u = [] ->
     cls c = true) ->
  tail = [] \/ markerAt tail = true ->
  (forall q, q < length body -> markerAt (skipn q (body ++ tail)) = false) ->
  body <> [] ->
  exists g ws,
    body = g ++ ws /\ forallb isWhiteSpace ws = true
    /\ mtch (Seq (Grp i (Plus false (Chr cls))) beforeAction) Some
            (mkState pr0 (body ++ tail) cs0)
       = Some (mkState (rev g ++ pr0) (ws ++ tail) ((i, g) :: cs0)).
Proof.
  intros Hcls Htail Hfirst Hne. destruct body as [|c body']; [congruence|].
  destruct (@group_loop cls (c :: body') tail
              (fun u c' r E _ S => Hcls u c' r E (or_introl S)) Htail Hfirst i pr0 cs0
              body' [c] eq_refl ltac:(discriminate)) as [g [ws [E [W Hrun]]]].
  exists g, ws. split; [exact E|]. split; [exact W|].
  rewrite mtch_seq, mtch_grp. cbn [app]. rewrite plus_class_cons.
  rewrite (Hcls [] c body' eq_refl (or_intror eq_refl)).
  unfold afterGrp in Hrun. cbn [rev app] in Hrun. exact Hrun.
Qed.

(** The thought pattern on [Thought: ] followed by a body and, after it,
    the first marker or the end of the text. *)
Lemma thoughtPattern_body (body tail : jsstring) :
  body <> [] ->
  tail = [] \/ markerAt tail = true ->
  (forall q, q < length body -> markerAt (skipn q (body ++ tail)) = false) ->
  exists m g ws,
    exec thoughtPattern (js "Thought: " ++ body ++ tail) = Some m
    /\ group 1 m = Some g /\ body = g ++ ws /\ forallb isWhiteSpace ws = true.
Proof.
  intros Hne Htail Hfirst.
  destruct (@group_run (fun _ => true) body tail 1 (rev (js "Thought: ")) []
              (fun _ _ _ _ _ => eq_refl) Htail Hfirst Hne)
    as [g [ws [E [W Hrun]]]].
  exists (mkFound (mkState [] (js "Thought: " ++ body ++ tail) [])
                  (mkState (rev g ++ rev (js "Thought: ")) (ws ++ tail) [(1, g)])), g, ws.
  split; [|split; [reflexivity | split; assumption]].
  apply exec_at_start. unfold matchAt.
  change thoughtPattern
    with (Seq (lit (js "Thought: ")) (Seq (Grp 1 (Plus false anyUnit)) beforeAction)).
  rewrite mtch_seq, mtch_lit. unfold anyUnit. rewrite app_nil_r.
  rewrite Hrun. reflexivity.
Qed.

Lemma markerAt_not_space (c : codeunit) (t : jsstring) :
  isWhiteSpace c = true -> markerAt (c :: t) = false.
Proof.
  intros H. destruct (markerAt (c :: t)) eqn:M; [|reflexivity].
  apply markerAt_shape in M. destruct M as [x [r [E _]]].
  cbv [js cu app] in E. injection E as -> _. discriminate.
Qed.

Lemma markerAt_in_white_space (ws tail : jsstring) :
  forallb isWhiteSpace ws = true ->
  forall q, q < length ws -> markerAt (skipn q (ws ++ tail)) = false.
Proof.
  induction ws as [|c ws IH]; intros H q Hq; [simpl in Hq; lia|].
  simpl in H. apply andb_true_iff in H. destruct H as [Hc H].
  destruct q as [|q].
  - apply markerAt_not_space. exact Hc.
  - cbn [app skipn]. apply IH; [exact H | simpl in Hq; lia].
Qed.

(** The summary pattern on [Action_Summary: ] followed by a summary on one
    line, white space and a marker; or by a summary that ends the text. *)
Lemma summaryPattern_body (s ws tail : jsstring) :
  s <> [] ->
  forallb (fun c => negb (isLineTerminator c)) s = true ->
  forallb isWhiteSpace ws = true ->
  ws ++ tail = [] \/ markerAt tail = true ->
  (forall q, q < length s -> markerAt (skipn q (s ++ ws ++ tail)) = false) ->
  exists m g ws',
    exec summaryPattern (js "Action_Summary: " ++ s ++ ws ++ tail) = Some m
    /\ group 1 m = Some g /\ s ++ ws = g ++ ws' /\ forallb isWhiteSpace ws' = true.
Proof.
  intros Hne Hline Hws Htail Hfirst.
  assert (Htail' : tail = [] \/ markerAt tail = true).
  { destruct Htail as [E|M]; [left | right; exact M].
    apply app_eq_nil in E. tauto. }
  assert (Hfirst' : forall q, q < length (s ++ ws) ->
            markerAt (skipn q ((s ++ ws) ++ tail)) = false).
  { intros q Hq. rewrite <- app_assoc. destruct (Nat.lt_ge_cases q (length s)) as [L|L].
    - apply Hfirst. exact L.
    - replace q with (length s + (q - length s)) by lia. rewrite skipn_plus.
      apply markerAt_in_white_space; [exact Hws|]. rewrite length_app in Hq. lia. }
  assert (Hcls : forall u c r, s ++ ws = u ++ c :: r ->
            stopsBefore (c :: r ++ tail) = false \/ u = [] ->
            negb (isLineTerminator c) = true).
  { intros u c r E Hc. rewrite forallb_forall in Hline.
    assert (Hspace : forall r', r' <> [] -> forallb isWhiteSpace r' = true ->
              stopsBefore (r' ++ tail) = false -> ws <> [] -> False).
    { intros r' Hne' Hr' S Hw. destruct Htail as [E0|M].
      - apply app_eq_nil in E0. tauto.
      - unfold stopsBefore in S. destruct (r' ++ tail) eqn:Ert.
        + apply app_eq_nil in Ert. tauto.
        + rewrite <- Ert, (trimStart_app_ws tail Hr'), (markerAt_head M), M in S.
          discriminate. }
    apply app_eq_app in E. destruct E as [l [[E1 E2]|[E1 E2]]].
    - destruct l as [|x l].
      + (* the unit is the first of the white space *)
        cbn [app] in E2. rewrite app_nil_r in E1. subst u.
        destruct Hc as [S|E0]; [|congruence]. exfalso.
        apply (Hspace (c :: r)); [discriminate | rewrite E2; exact Hws | exact S |].
        rewrite <- E2. discriminate.
      + (* the unit lies in the summary *)
        injection E2 as -> _. apply Hline. rewrite E1.
        apply in_or_app. right. left. reflexivity.
    - (* the unit lies in the white space *)
      destruct Hc as [S|E0]; [|subst u; destruct s; [congruence | discriminate]].
      exfalso. apply (Hspace (c :: r)); [discriminate | | exact S |].
      + rewrite E2, forallb_app in Hws. apply andb_true_iff in Hws. tauto.
      + rewrite E2. destruct l; discriminate. }
  destruct (@group_run _ (s ++ ws) tail 1 (rev (js "Action_Summary: ")) [] Hcls Htail'
              Hfirst' ltac:(destruct s; [congruence | discriminate]))
    as [g [ws' [E [W Hrun]]]].
  exists (mkFound (mkState [] (js "Action_Summary: " ++ s ++ ws ++ tail) [])
                  (mkState (rev g ++ rev (js "Action_Summary: ")) (ws' ++ tail) [(1, g)])),
         g, ws'.
  split; [|split; [reflexivity | split; assumption]].
  apply exec_at_start. unfold matchAt.
  change summaryPattern
    with (Seq (lit (js "Action_Summary: ")) (Seq (Grp 1 (Plus false dot)) beforeAction)).
  rewrite mtch_seq, mtch_lit. unfold dot. rewrite app_nil_r.
  rewrite <- app_assoc in Hrun. rewrite Hrun. reflexivity.
Qed.

(** The reflection pattern on [Reflection: ], a reflection, the first
    [Action_Summary: ] after its first unit, a summary and, after it, the
    first marker or the end of the text. *)
Lemma reflectionPattern_groups (r s tail : jsstring) :
  r <> [] -> s <> [] ->
  (forall j, 0 < j < length r ->
     startsWith (skipn j (r ++ js "Action_Summary: " ++ s ++ tail)) (js "Action_Summary: ")
     = false) ->
  tail = [] \/ markerAt tail = true ->
  (forall q, q < length s -> markerAt (skipn q (s ++ tail)) = false) ->
  exists m g ws,
    exec reflectionPattern (js "Reflection: " ++ r ++ js "Action_Summary: " ++ s ++ tail)
    = Some m
    /\ group 1 m = Some r /\ group 2 m = Some g
    /\ s = g ++ ws /\ forallb isWhiteSpace ws = true.
Proof.
  intros Hr Hs Hsingle Htail Hfirst.
  set (rest := js "Action_Summary: " ++ s ++ tail) in *.
  set (p1 := rev (js "Reflection: ")).
  destruct r as [|c r'] eqn:Er; [congruence|]. rewrite <- Er in *.
  set (p2 := rev (js "Action_Summary: ") ++ rev r ++ p1).
  assert (Hany : forall l : jsstring, forallb (fun _ : codeunit => true) l = true)
    by (intros l; apply forallb_forall; reflexivity).
  destruct (@group_run (fun _ => true) s tail 2 p2 [(1, r)]
              (fun _ _ _ _ _ => eq_refl) Htail Hfirst Hs)
    as [g [ws [E [W Hrun]]]].
  exists (mkFound (mkState [] (js "Reflection: " ++ r ++ rest) [])
                  (mkState (rev g ++ p2) (ws ++ tail) [(2, g); (1, r)])), g, ws.
  split; [|split; [reflexivity | split; [reflexivity | split; assumption]]].
  apply exec_at_start. unfold matchAt.
  change reflectionPattern
    with (Seq (lit (js "Reflection: "))
              (Seq (Grp 1 (Plus false anyUnit))
                   (Seq (lit (js "Action_Summary: "))
                        (Seq (Grp 2 (Plus false anyUnit)) beforeAction)))).
  rewrite mtch_seq, mtch_lit, mtch_seq, mtch_grp. unfold anyUnit.
  rewrite app_nil_r. fold p1. rewrite Er at 1. cbn [app]. rewrite plus_class_cons.
  cbv beta iota.
  match goal with
  | |- match ?run with Some _ => _ | None => _ end = _ =>
      assert (R : run = Some (mkState (rev g ++ p2) (ws ++ tail) [(2, g); (1, r)]));
        [|rewrite R; reflexivity]
  end.
  apply lazy_class_first.
  - apply Hany.
  - intros u1 c' u2 E'. cbn [pre suf caps]. rewrite mtch_seq, lit_run.
    assert (Sk : skipn (S (length u1)) (r ++ rest) = c' :: u2 ++ rest).
    { rewrite Er, E'. cbn [app skipn]. rewrite <- app_assoc.
      replace (length u1) with (length u1 + 0) by lia. rewrite skipn_plus. reflexivity. }
    pose proof (Hsingle (S (length u1))) as F. rewrite Sk in F.
    rewrite F; [reflexivity|].
    rewrite Er, E'. cbn [length]. rewrite length_app. simpl. lia.
  - cbn [pre suf caps]. rewrite mtch_seq. unfold rest. rewrite mtch_lit.
    rewrite (@consumed_step _ _ r).
    + replace (rev (js "Action_Summary: ") ++ rev r' ++ c :: p1) with p2.
      * exact Hrun.
      * unfold p2. rewrite Er. cbn [rev]. rewrite <- app_assoc. reflexivity.
    + cbn [suf]. rewrite Er. reflexivity.
Qed.

End ThoughtPatternFacts.
Import ThoughtPatternFacts.

(* ------------------------------------------------------------------------- *)
(** ** Runs of [parseActionVlm] *)

Module RunFacts.

Import JsObject ActionParser.

Section Run.

Variables MAX_RATIO IMAGE_FACTOR MIN_PIXELS MAX_PIXELS_V1_5 : number.
Variable toLowerCase : jsstring -> jsstring.

Lemma resolveSmartResize_cases (ver : UITarsModelVersion) (sc : option ScreenContext)
    (c : console) :
  exists smart,
    resolveSmartResize MAX_RATIO IMAGE_FACTOR MIN_PIXELS MAX_PIXELS_V1_5 ver sc c
    = (Returned smart,
       match resizedScreen ver sc with
       | Some s => if gtb (aspectRatio s) MAX_RATIO
                   then c ++ [AspectRatioTooLarge MAX_RATIO (aspectRatio s)] else c
       | None => c
       end)
    /\ match resizedScreen ver sc with
       | Some s => if gtb (aspectRatio s) MAX_RATIO then smart = None
                   else exists wh, smart = Some wh
       | None => smart = None
       end.
Proof.
  unfold resolveSmartResize, resizedScreen. destruct sc as [s|].
  - destruct (isV1_5 ver && truthy (height s) && truthy (width s))%bool.
    + unfold smartResizeForV15. fold (aspectRatio s).
      destruct (gtb (aspectRatio s) MAX_RATIO).
      * exists None. split; reflexivity.
      * destruct (gtb _ MAX_PIXELS_V1_5); [|destruct (ltb _ MIN_PIXELS)];
          eexists; (split; [reflexivity | eexists; reflexivity]).
    + exists None. split; reflexivity.
  - exists None. split; reflexivity.
Qed.

(** A run of [parseActionVlm]: the console is the one [smartResizeForV15]
    leaves, and every token gives one entry. *)
Lemma parseActionVlm_run (text : jsstring) (factors : option (number * number))
    (mode : option Mode) (sc : option ScreenContext) (sf : option number)
    (ver : option UITarsModelVersion) :
  exists r t a,
    quiet (segment (withDefault bc mode) (trim text)) (r, t, Some a)
    /\ forall c smart c',
         resolveSmartResize MAX_RATIO IMAGE_FACTOR MIN_PIXELS MAX_PIXELS_V1_5
                            (withDefault V1_0 ver) sc c = (Returned smart, c') ->
         parseActionVlm MAX_RATIO IMAGE_FACTOR MIN_PIXELS MAX_PIXELS_V1_5 toLowerCase
                        text factors mode sc sf ver c
         = (Returned
              (map (fun rawStr =>
                      toParsed (withDefault (ofZ 1000, ofZ 1000) factors)
                               (withDefault V1_0 ver) smart sc sf r t
                               (parseActionResult toLowerCase (unescape rawStr)))
                   (tokenize a)),
            c').
Proof.
  destruct (segment_quiet (withDefault bc mode) (trim text)) as [r [t [a Hseg]]].
  exists r, t, a. split; [exact Hseg|].
  intros c smart c' Hres. unfold parseActionVlm. unfold bind at 1. rewrite Hres.
  unfold bind at 1. rewrite Hseg. unfold bind at 1. simpl defined. unfold ret at 1.
  rewrite forOf_parseToken. reflexivity.
Qed.

End Run.

(** Without smart-resize factors the model version plays no part. *)
Lemma toParsed_without_smart (factors : number * number) (ver : UITarsModelVersion)
    (sc : option ScreenContext) (sf : option number) (r t : option jsstring)
    (call : option ActionCall) :
  toParsed factors ver None sc sf r t call = toParsed factors V1_0 None sc sf r t call.
Proof. destruct ver; reflexivity. Qed.

(** *** Thought and reflection *)

Lemma bcThought_result (text : jsstring) :
  exists r t,
    quiet (bcThought text) (r, t)
    /\ (r <> None -> startsWith text (js "Reflection:") = true
                     /\ includes text (js "Thought:") = false /\ t <> None)
    /\ (forall v, t = Some v -> trim v = v)
    /\ (forall v, r = Some v -> trim v = v).
Proof.
  unfold bcThought.
  assert (T : forall s v : jsstring, Some (trim s) = Some v -> trim v = v).
  { intros s v E. inversion E. apply trim_idem. }
  assert (N : forall (v : jsstring), @None jsstring = Some v -> trim v = v) by discriminate.
  destruct (includes text (js "Thought:")) eqn:I.
  - destruct (exec thoughtPattern text) as [m|] eqn:E.
    + destruct (exec_defined (i := 1) (eq_refl : defines 1 thoughtPattern = true) E)
        as [v Hv].
      rewrite Hv. do 2 eexists. split; [intros c; reflexivity|].
      split; [congruence|]. split; [apply T | apply N].
    + do 2 eexists. split; [apply quiet_ret|].
      split; [congruence|]. split; apply N.
  - destruct (startsWith text (js "Reflection:")) eqn:R.
    + destruct (exec reflectionPattern text) as [m|] eqn:E.
      * destruct (exec_defined (i := 1) (eq_refl : defines 1 reflectionPattern = true) E)
          as [v1 Hv1].
        destruct (exec_defined (i := 2) (eq_refl : defines 2 reflectionPattern = true) E)
          as [v2 Hv2].
        rewrite Hv1, Hv2. do 2 eexists. split; [intros c; reflexivity|].
        split; [intros _; repeat split; congruence|]. split; apply T.
      * do 2 eexists. split; [apply quiet_ret|].
        split; [congruence|]. split; apply N.
    + destruct (startsWith text (js "Action_Summary:")).
      * destruct (exec summaryPattern text) as [m|] eqn:E.
        -- destruct (exec_defined (i := 1) (eq_refl : defines 1 summaryPattern = true) E)
             as [v Hv].
           rewrite Hv. do 2 eexists. split; [intros c; reflexivity|].
           split; [congruence|]. split; [apply T | apply N].
        -- do 2 eexists. split; [apply quiet_ret|].
           split; [congruence|]. split; apply N.
      * do 2 eexists. split; [apply quiet_ret|].
        split; [congruence|]. split; apply N.
Qed.

Lemma segment_bc_result (text : jsstring) (r t a : option jsstring) :
  quiet (segment bc text) (r, t, a) -> quiet (bcThought text) (r, t).
Proof.
  intros H. destruct (bcThought_result text) as [r' [t' [Hq _]]].
  specialize (H []). simpl in H. unfold bind in H. rewrite Hq in H.
  unfold ret in H. simpl in H. inversion H; subst. exact Hq.
Qed.

End RunFacts.
Import RunFacts.

(* ------------------------------------------------------------------------- *)
(** ** Lines and tokens *)

Module LineFacts.

Import ActionParser.

Lemma linesOf_app (a b : jsstring) :
  forall piece, linesOf (a ++ LF :: b) piece = linesOf a piece ++ linesOf b [].
Proof.
  induction a as [|c a IH]; intros piece.
  - reflexivity.
  - cbn [app linesOf]. destruct (N.eqb LF c).
    + rewrite IH. reflexivity.
    + apply IH.
Qed.

Lemma linesOf_one (a : jsstring) :
  ~ In LF a -> forall piece, linesOf a piece = [rev piece ++ a].
Proof.
  induction a as [|c a IH]; intros H piece.
  - simpl. rewrite app_nil_r. reflexivity.
  - cbn [linesOf]. destruct (N.eqb_spec LF c) as [E|E].
    + elim H. left. symmetry. exact E.
    + rewrite IH by (intros H'; apply H; right; exact H').
      simpl. rewrite <- app_assoc. reflexivity.
Qed.

Lemma linesOf_no_newline (s : jsstring) :
  forall piece, ~ In LF piece -> Forall (fun l => ~ In LF l) (linesOf s piece).
Proof.
  induction s as [|c s IH]; intros piece H.
  - simpl. constructor; [|constructor]. intros H'. apply H. apply in_rev. exact H'.
  - cbn [linesOf]. destruct (N.eqb_spec LF c) as [E|E].
    + constructor.
      * intros H'. apply H. apply in_rev. exact H'.
      * apply IH. intros [].
    + apply IH. intros [H'|H']; [congruence | contradiction].
Qed.

Lemma tokenize_one_line (a : jsstring) :
  ~ In LF a -> tokenize a = if jseqb (trim a) [] then [] else [a].
Proof.
  intros H. rewrite tokenize_lines, (linesOf_one H). simpl. unfold notBlank.
  destruct (jseqb (trim a) []); reflexivity.
Qed.

Lemma no_terminator_no_newline (g : jsstring) :
  forallb (fun c => negb (isLineTerminator c)) g = true -> ~ In LF g.
Proof.
  intros H Hin. rewrite forallb_forall in H. apply H in Hin. discriminate.
Qed.

(** The replace of the loop over the tokens changes nothing. *)
Lemma unescape_trimStart (rawStr : jsstring) : unescape rawStr = trimStart rawStr.
Proof.
  unfold unescape, replaceAll, escapedNewline.
  rewrite (@replace_literal_by_itself [BACKSLASH; 110%N] (length rawStr));
    [reflexivity | discriminate | apply Nat.le_refl].
Qed.

End LineFacts.
Import LineFacts.

(* ------------------------------------------------------------------------- *)
(** ** A prediction from end to end *)

Module PredictionFacts.

Import JsObject ActionParser.

Lemma afterLast_app_r (u s r : jsstring) :
  afterLast s = Some r -> afterLast (u ++ s) = Some r.
Proof.
  intros H. induction u as [|c u IH]; [exact H|].
  cbn [app afterLast]. rewrite IH. reflexivity.
Qed.

Lemma afterLast_nowhere (s : jsstring) :
  (forall q, markerAt (skipn q s) = false) -> afterLast s = None.
Proof.
  induction s as [|c t IH]; intros H; [reflexivity|].
  cbn [afterLast]. rewrite IH by (intros q; apply (H (S q))).
  pose proof (H 0) as H0. cbn [skipn] in H0. rewrite H0. reflexivity.
Qed.

(** The action string of a text whose last marker starts [rest]. *)
Lemma bcActionStr_last (u rest : jsstring) :
  markerAt rest = true ->
  (forall q, 0 < q -> markerAt (skipn q rest) = false) ->
  bcActionStr (u ++ rest) = Some (skipn 7 rest).
Proof.
  intros M Hno.
  assert (A : afterLast (u ++ rest) = Some (skipn 7 rest)).
  { apply afterLast_app_r. rewrite (afterLast_marker M).
    rewrite afterLast_nowhere; [reflexivity|].
    intros q. rewrite skipn_skipn. apply Hno. lia. }
  assert (I : existsb (fun keyword => includes (u ++ rest) keyword) actionKeywords = true).
  { unfold markerAt in M. apply existsb_exists in M. destruct M as [kw [Hin Hs]].
    apply existsb_exists. exists kw. split; [exact Hin|].
    apply includes_app_r. destruct rest as [|c t]; cbn [includes]; rewrite Hs; reflexivity. }
  unfold bcActionStr. rewrite I. cbn [negb].
  destruct (u ++ rest) as [|c0 t0] eqn:E; [discriminate|].
  unfold split. rewrite (splitGo_last (n := length (c0 :: t0))) by lia.
  rewrite A. reflexivity.
Qed.

Lemma callText_one_line (name : jsstring) (pairs : list (jsstring * jsstring)) :
  name <> [] -> forallb isWordChar name = true -> Forall isPlainPair pairs ->
  forallb (fun c => negb (isLineTerminator c)) (callText name pairs) = true
  /\ trimStart (callText name pairs) = callText name pairs.
Proof.
  intros Hne Hw Hp.
  destruct (callText_isCallText Hne Hw Hp) as [E [_ [_ Hargs]]]. split.
  - rewrite E, !forallb_app, Hargs.
    replace (forallb (fun c => negb (isLineTerminator c)) name) with true; [reflexivity|].
    symmetry. apply forallb_forall. intros x Hx. rewrite forallb_forall in Hw.
    apply word_is_not_terminator, Hw, Hx.
  - apply trimStart_fixed. rewrite E. destruct name as [|c name]; [congruence|].
    cbn [app]. simpl in Hw. apply andb_true_iff in Hw. destruct Hw as [Hc _].
    apply word_is_not_space. exact Hc.
Qed.

(** The one token of an action string that is a space and a call. *)
Lemma tokenize_call (name : jsstring) (pairs : list (jsstring * jsstring)) :
  name <> [] -> forallb isWordChar name = true -> Forall isPlainPair pairs ->
  tokenize (32%N :: callText name pairs) = [32%N :: callText name pairs].
Proof.
  intros Hne Hw Hp. destruct (callText_one_line Hne Hw Hp) as [Hline _].
  rewrite tokenize_one_line.
  - assert (Hin : In 40%N (trim (32%N :: callText name pairs))).
    { apply in_trim; [reflexivity|]. right. unfold callText.
      apply in_or_app. right. left. reflexivity. }
    destruct (trim (32%N :: callText name pairs)); [destruct Hin | reflexivity].
  - apply no_terminator_no_newline. cbn [forallb]. rewrite Hline. reflexivity.
Qed.

End PredictionFacts.
Import PredictionFacts.

(* ------------------------------------------------------------------------- *)
(** ** The fragments of a box value *)

Module BoxFacts.

Import ActionParser.

Lemma splitComma_app (x : jsstring) :
  forallb (fun c => negb (N.eqb c 44)) x = true ->
  forall s piece, splitComma (x ++ s) piece = splitComma s (rev x ++ piece).
Proof.
  induction x as [|c x IH]; intros H s piece; [reflexivity|].
  simpl in H. apply andb_true_iff in H. destruct H as [Hc H].
  apply negb_true_iff in Hc. cbn [app splitComma]. rewrite Hc, IH by exact H.
  cbn [rev]. rewrite <- app_assoc. reflexivity.
Qed.

Lemma splitComma_join (frags : list jsstring) :
  Forall (fun x => forallb (fun c => negb (N.eqb c 44)) x = true) frags ->
  frags <> [] -> splitComma (join [44%N] frags) [] = frags.
Proof.
  induction 1 as [|a l Ha Hl IH]; [intros H; elim H; reflexivity|]. intros _.
  destruct l as [|b l].
  - cbn [join]. rewrite <- (app_nil_r a) at 1. rewrite splitComma_app by exact Ha.
    cbn [splitComma]. rewrite app_nil_r, rev_involutive. reflexivity.
  - change (join [44%N] (a :: b :: l)) with (a ++ 44%N :: join [44%N] (b :: l)).
    rewrite splitComma_app by exact Ha. cbn [splitComma N.eqb Pos.eqb].
    rewrite app_nil_r, rev_involutive, IH by discriminate. reflexivity.
Qed.

Lemma filter_none (q : codeunit -> bool) (s : jsstring) :
  forallb q s = true -> filter (fun c => negb (q c)) s = [].
Proof.
  induction s as [|c s IH]; [reflexivity|]. cbn [forallb filter].
  intros H. apply andb_true_iff in H. destruct H as [-> H]. apply IH. exact H.
Qed.

Lemma filter_all (q : codeunit -> bool) (s : jsstring) :
  forallb (fun c => negb (q c)) s = true -> filter (fun c => negb (q c)) s = s.
Proof.
  induction s as [|c s IH]; [reflexivity|]. cbn [forallb filter].
  intros H. apply andb_true_iff in H. destruct H as [-> H]. rewrite IH by exact H.
  reflexivity.
Qed.

Lemma fragment_no_bracket (x : jsstring) :
  isFragment x -> forallb (fun c => negb (isBracket c)) x = true.
Proof.
  intros [_ H]. rewrite forallb_forall in *. intros c Hc. apply H in Hc.
  apply negb_true_iff in Hc. apply orb_false_elim in Hc. destruct Hc as [_ Hc].
  rewrite Hc. reflexivity.
Qed.

Lemma fragment_no_comma (x : jsstring) :
  isFragment x -> forallb (fun c => negb (N.eqb c 44)) x = true.
Proof.
  intros [_ H]. rewrite forallb_forall in *. intros c Hc. apply H in Hc.
  apply negb_true_iff in Hc. apply orb_false_elim in Hc. destruct Hc as [Hc _].
  rewrite Hc. reflexivity.
Qed.

(** The fragments of a box value are found again, whatever brackets
    stand before and after them. *)
Lemma fragments_of_box (opening closing : jsstring) (frags : list jsstring) :
  forallb isBracket opening = true -> forallb isBracket closing = true ->
  Forall isFragment frags -> frags <> [] ->
  filter (fun ori => negb (jseqb ori []))
         (splitComma (replaceAll brackets [] (opening ++ join [44%N] frags ++ closing)) [])
  = frags.
Proof.
  intros Ho Hc Hf Hne. unfold replaceAll, brackets, oneOf.
  rewrite replace_class_by_nothing.
  change (fun c : codeunit => negb (existsb (N.eqb c) [40%N; 41%N; 91%N; 93%N]))
    with (fun c : codeunit => negb (isBracket c)).
  rewrite !filter_app, (filter_none Ho), (filter_none Hc), app_nil_r. cbn [app].
  rewrite filter_all.
  - rewrite splitComma_join; [|clear - Hf; induction Hf; constructor;
                               [apply fragment_no_comma; assumption | assumption]
                              | exact Hne].
    clear - Hf. induction Hf as [|x l Hx Hl IH]; [reflexivity|].
    cbn [filter]. destruct Hx as [Hx _]. destruct x; [congruence|].
    cbn [jseqb negb]. rewrite IH. reflexivity.
  - apply forallb_join; [reflexivity|].
    clear - Hf. induction Hf; constructor; [apply fragment_no_bracket|]; assumption.
Qed.

End BoxFacts.
Import BoxFacts.

(* ------------------------------------------------------------------------- *)
(** ** The heuristic fallback *)

Module HeuristicFacts.

Import JsObject ActionParser.

Lemma set_fresh (k v : jsstring) :
  jseqb k (js "__proto__") = false -> JsObject.set k v (@empty jsstring) = [(k, v)].
Proof. intros H. unfold JsObject.set. rewrite H. reflexivity. Qed.

Lemma heuristicCall_entries (actionStr actionFound : jsstring) :
  exists kwargs,
    quiet (heuristicCall actionStr actionFound) (Some (mkCall (Some actionFound) kwargs))
    /\ Forall (heuristicEntry actionFound) kwargs
    /\ (exec coordPattern actionStr = None -> JsObject.get (js "start_box") kwargs = None).
Proof.
  unfold heuristicCall.
  assert (Hbox : forall m, exec coordPattern actionStr = Some m ->
            exists v, JsObject.set (js "start_box")
                        (js "(" ++ toStr (ofGroup (group 1 m)) ++ js ","
                         ++ toStr (ofGroup (group 2 m)) ++ js ")") (@empty jsstring)
                      = [(js "start_box", v)]
                      /\ heuristicEntry actionFound (js "start_box", v)).
  { intros m E. destruct (coordPattern_groups E) as [x [y [G1 [G2 [Nx Ny]]]]].
    rewrite G1, G2. cbn [ofGroup toStr]. eexists. split; [apply set_fresh; reflexivity|].
    left. split; [reflexivity|]. exists x, y. auto. }
  assert (Hcontent : forall content (kw : obj jsstring),
            jseqb actionFound (js "type") = true ->
            Forall (heuristicEntry actionFound) kw ->
            Forall (heuristicEntry actionFound)
                   (JsObject.set (js "content") (trim content) kw)
            /\ JsObject.get (js "start_box") (JsObject.set (js "content") (trim content) kw)
               = JsObject.get (js "start_box") kw).
  { intros content kw T F. apply jseqb_eq in T.
    assert (Hentry : heuristicEntry actionFound (js "content", trim content)).
    { right. split; [reflexivity|]. split; [exact T | apply trim_idem]. }
    unfold JsObject.set. change (jseqb (js "content") (js "__proto__")) with false.
    cbv iota. clear - F Hentry. induction F as [|[k v] l Hkv Hl IH].
    - cbn [update]. split; [constructor; [exact Hentry | constructor] | reflexivity].
    - cbn [update JsObject.get]. destruct (jseqb (js "content") k) eqn:K.
      + apply jseqb_eq in K. subst k. split; [constructor; assumption | reflexivity].
      + destruct IH as [IH1 IH2]. split; [constructor; assumption|].
        cbn [JsObject.get]. rewrite IH2. reflexivity. }
  assert (Htext : forall r m, exec r actionStr = Some m -> defines 1 r = true ->
            exists v, group 1 m = Some v).
  { intros r m E D. exact (exec_defined D E). }
  destruct (jseqb actionFound (js "type")) eqn:T.
  - destruct (exec coordPattern actionStr) as [mc|] eqn:C.
    + destruct (Hbox mc eq_refl) as [v [Ev Hv]]. rewrite Ev.
      assert (F : Forall (heuristicEntry actionFound) [(js "start_box", v)])
        by (constructor; [exact Hv | constructor]).
      destruct (exec labelledTextPattern actionStr) as [m|] eqn:E1.
      * destruct (Htext _ _ E1 eq_refl) as [w Hw]. rewrite Hw.
        destruct (Hcontent w _ eq_refl F) as [F' _].
        eexists. split; [intros c; reflexivity|]. split; [exact F' | discriminate].
      * destruct (exec typedTextPattern actionStr) as [m|] eqn:E2.
        -- destruct (Htext _ _ E2 eq_refl) as [w Hw]. rewrite Hw.
           destruct (Hcontent w _ eq_refl F) as [F' _].
           eexists. split; [intros c; reflexivity|]. split; [exact F' | discriminate].
        -- eexists. split; [intros c; reflexivity|]. split; [exact F | discriminate].
    + assert (F : Forall (heuristicEntry actionFound) (@empty jsstring)) by constructor.
      destruct (exec labelledTextPattern actionStr) as [m|] eqn:E1.
      * destruct (Htext _ _ E1 eq_refl) as [w Hw]. rewrite Hw.
        destruct (Hcontent w _ eq_refl F) as [F' G].
        eexists. split; [intros c; reflexivity|]. split; [exact F' | intros _; exact G].
      * destruct (exec typedTextPattern actionStr) as [m|] eqn:E2.
        -- destruct (Htext _ _ E2 eq_refl) as [w Hw]. rewrite Hw.
           destruct (Hcontent w _ eq_refl F) as [F' G].
           eexists. split; [intros c; reflexivity|]. split; [exact F' | intros _; exact G].
        -- eexists. split; [intros c; reflexivity|]. split; [exact F | reflexivity].
  - destruct (exec coordPattern actionStr) as [mc|] eqn:C.
    + destruct (Hbox mc eq_refl) as [v [Ev Hv]]. rewrite Ev.
      eexists. split; [intros c; reflexivity|].
      split; [constructor; [exact Hv | constructor] | discriminate].
    + eexists. split; [intros c; reflexivity|]. split; [constructor | reflexivity].
Qed.

End HeuristicFacts.
Import HeuristicFacts.

(* ------------------------------------------------------------------------- *)
(** ** The messages of the Ollama model *)

Module OllamaFacts.

Import OllamaModel OllamaNotions.

Lemma fold_pushMessage (imgs : list jsstring) (l : list Conversation) :
  forall acc idx,
    fst (fold_left (pushMessage imgs) l (acc, idx)) = acc ++ pushed imgs l idx.
Proof.
  induction l as [|conv t IH]; intros acc idx.
  - simpl. rewrite app_nil_r. reflexivity.
  - cbn [fold_left pushed]. unfold isPlaceholder.
    destruct (jseqb (value conv) (js "<image>") && Nat.ltb idx (length imgs))%bool eqn:C.
    + replace (pushMessage imgs (acc, idx) conv)
        with (acc ++ [mkMessage (if jseqb (from conv) (js "human")
                                 then js "user" else js "assistant")
                                (value conv) (Some [nth_error imgs idx])], S idx)
        by (unfold pushMessage; rewrite C; reflexivity).
      rewrite IH, <- app_assoc. reflexivity.
    + replace (pushMessage imgs (acc, idx) conv)
        with (acc ++ [mkMessage (if jseqb (from conv) (js "human")
                                 then js "user" else js "assistant")
                                (value conv) None], idx)
        by (unfold pushMessage; rewrite C; reflexivity).
      rewrite IH, <- app_assoc. reflexivity.
Qed.

Lemma convert_pushed (l : list Conversation) (imgs : list jsstring) :
  convertToOllamaMessages l imgs = pushed imgs l 0.
Proof. unfold convertToOllamaMessages. rewrite fold_pushMessage. reflexivity. Qed.

Lemma pushed_nth (imgs : list jsstring) (l : list Conversation) :
  forall idx i conv,
    nth_error l i = Some conv ->
    nth_error (pushed imgs l idx) i
    = Some (mkMessage (if jseqb (from conv) (js "human") then js "user" else js "assistant")
                      (value conv)
                      (let k := idx + placeholders (firstn i l) in
                       if (isPlaceholder conv && Nat.ltb k (length imgs))%bool
                       then Some [nth_error imgs k] else None)).
Proof.
  induction l as [|c t IH]; intros idx i conv H.
  - destruct i; discriminate.
  - destruct i as [|i].
    + simpl in H. inversion H; subst c. cbn [firstn]. unfold placeholders. cbn [filter length].
      rewrite Nat.add_0_r. cbn [pushed].
      destruct (isPlaceholder conv && Nat.ltb idx (length imgs))%bool; reflexivity.
    + simpl in H. cbn [pushed firstn]. unfold placeholders. cbn [filter].
      destruct (isPlaceholder c) eqn:P; cbn [andb].
      * destruct (Nat.ltb idx (length imgs)) eqn:L; cbn [nth_error length].
        -- rewrite (IH (S idx) i conv H). unfold placeholders.
           replace (S idx + length (filter isPlaceholder (firstn i t)))
             with (idx + S (length (filter isPlaceholder (firstn i t)))) by lia.
           reflexivity.
        -- rewrite (IH idx i conv H). unfold placeholders.
           apply Nat.ltb_ge in L.
           replace (Nat.ltb (idx + length (filter isPlaceholder (firstn i t))) (length imgs))
             with false by (symmetry; apply Nat.ltb_ge; lia).
           replace (Nat.ltb (idx + S (length (filter isPlaceholder (firstn i t)))) (length imgs))
             with false by (symmetry; apply Nat.ltb_ge; lia).
           rewrite !andb_false_r. reflexivity.
      * cbn [nth_error]. rewrite (IH idx i conv H). reflexivity.
Qed.

Lemma pushed_length (imgs : list jsstring) (l : list Conversation) :
  forall idx, length (pushed imgs l idx) = length l.
Proof.
  induction l as [|c t IH]; intros idx; simpl; [reflexivity|].
  destruct (isPlaceholder c && Nat.ltb idx (length imgs))%bool; simpl; rewrite IH; reflexivity.
Qed.

Lemma skipn_nth_error {A : Type} (l : list A) :
  forall n a, nth_error l n = Some a -> skipn n l = a :: skipn (S n) l.
Proof.
  induction l as [|x l IH]; intros [|n] a H; try discriminate.
  - simpl in H. inversion H. reflexivity.
  - simpl in H. simpl. apply IH. exact H.
Qed.

Lemma pushed_attached (imgs : list jsstring) (l : list Conversation) :
  forall idx,
    flat_map attached (pushed imgs l idx)
    = map Some (firstn (placeholders l) (skipn idx imgs)).
Proof.
  induction l as [|c t IH]; intros idx.
  - reflexivity.
  - cbn [pushed]. unfold placeholders. cbn [filter].
    destruct (isPlaceholder c) eqn:P; cbn [andb].
    + destruct (Nat.ltb idx (length imgs)) eqn:L; cbn [flat_map attached images length].
      * rewrite IH. apply Nat.ltb_lt in L.
        destruct (nth_error imgs idx) as [im|] eqn:E;
          [|apply nth_error_None in E; lia].
        rewrite (skipn_nth_error E). reflexivity.
      * rewrite IH. apply Nat.ltb_ge in L.
        rewrite skipn_all2 by exact L. rewrite !firstn_nil. reflexivity.
    + cbn [flat_map attached images app]. apply IH.
Qed.

End OllamaFacts.

(* ------------------------------------------------------------------------- *)
(** ** Further properties of the parser *)

(** *** The helpers of [smartResizeForV15] *)

(** X1.  [roundByFactor], [floorByFactor] and [ceilByFactor] return NaN for
    every number when the factor is zero or NaN. *)
Theorem by_factor_of_zero_is_NaN (num : number) (negative : bool) :
  roundByFactor num (S754_zero negative) = NaN
  /\ floorByFactor num (S754_zero negative) = NaN
  /\ ceilByFactor num (S754_zero negative) = NaN
  /\ roundByFactor num NaN = NaN
  /\ floorByFactor num NaN = NaN
  /\ ceilByFactor num NaN = NaN.
Proof.
  unfold roundByFactor, floorByFactor, ceilByFactor.
  destruct num as [s|s| |s m e]; destruct negative; repeat split; reflexivity.
Qed.

(** *** The console, the thought and the reflection *)

Section Entries.

Variables MAX_RATIO IMAGE_FACTOR MIN_PIXELS MAX_PIXELS_V1_5 : number.
Variable toLowerCase : jsstring -> jsstring.

(** X2.  [parseActionVlm] writes to the console only through
    [smartResizeForV15]: one line when the model version is V1_5, the screen
    has a non-zero width and height and its aspect ratio exceeds
    [MAX_RATIO]; nothing otherwise.  The line of the [catch] block of
    [parseAction] is never written. *)
Theorem console_gets_only_the_aspect_ratio_line
    (text : jsstring) (factors : option (number * number)) (mode : option Mode)
    (sc : option ScreenContext) (sf : option number) (ver : option UITarsModelVersion)
    (c : console) :
  exists actions,
    parseActionVlm MAX_RATIO IMAGE_FACTOR MIN_PIXELS MAX_PIXELS_V1_5 toLowerCase
                   text factors mode sc sf ver c
    = (Returned actions,
       match resizedScreen (withDefault V1_0 ver) sc with
       | Some s => if gtb (aspectRatio s) MAX_RATIO
                   then c ++ [AspectRatioTooLarge MAX_RATIO (aspectRatio s)] else c
       | None => c
       end).
Proof.
  destruct (parseActionVlm_run MAX_RATIO IMAGE_FACTOR MIN_PIXELS MAX_PIXELS_V1_5
              toLowerCase text factors mode sc sf ver) as [r [t [a [_ Hrun]]]].
  destruct (resolveSmartResize_cases MAX_RATIO IMAGE_FACTOR MIN_PIXELS MAX_PIXELS_V1_5
              (withDefault V1_0 ver) sc c) as [smart [Hres _]].
  eexists. apply Hrun. exact Hres.
Qed.

(** X3.  The entries of one result all carry the same thought and the same
    reflection; in [bc] mode both are trimmed texts. *)
Theorem entries_share_thought_and_reflection
    (text : jsstring) (factors : option (number * number)) (mode : option Mode)
    (sc : option ScreenContext) (sf : option number) (ver : option UITarsModelVersion)
    (c : console) :
  exists actions c' sharedReflection sharedThought,
    parseActionVlm MAX_RATIO IMAGE_FACTOR MIN_PIXELS MAX_PIXELS_V1_5 toLowerCase
                   text factors mode sc sf ver c = (Returned actions, c')
    /\ Forall (fun a => reflection a = sharedReflection /\ thought a = sharedThought) actions
    /\ (withDefault bc mode = bc ->
        trim sharedThought = sharedThought
        /\ forall r, sharedReflection = Some r -> trim r = r).
Proof.
  destruct (parseActionVlm_shape MAX_RATIO IMAGE_FACTOR MIN_PIXELS MAX_PIXELS_V1_5
              toLowerCase text factors mode sc sf ver)
    as [smart [log [r [t [a [_ [Hseg Hrun]]]]]]].
  eexists. exists (c ++ log), r, (match t with Some v => v | None => [] end).
  split; [apply Hrun|]. split.
  - apply Forall_forall. intros e He. apply in_map_iff in He.
    destruct He as [tok [He _]]. subst e. unfold toParsed.
    destruct (parseActionResult toLowerCase (unescape tok)); split; reflexivity.
  - intros Hm. rewrite Hm in Hseg. apply segment_bc_result in Hseg.
    destruct (bcThought_result (trim text)) as [r' [t' [Hq [_ [Ht Hr]]]]].
    specialize (Hseg []). rewrite Hq in Hseg. inversion Hseg; subst r' t'.
    split; [|exact Hr].
    destruct t as [v|]; [apply Ht; reflexivity | reflexivity].
Qed.

(** X4.  An entry has a reflection only in [bc] mode, for a text that,
    trimmed, starts with [Reflection:] and does not contain [Thought:]; the
    pattern of line 131 has then matched and given the thought as well. *)
Theorem reflection_needs_the_reflection_prefix
    (text : jsstring) (factors : option (number * number)) (mode : option Mode)
    (sc : option ScreenContext) (sf : option number) (ver : option UITarsModelVersion)
    (c : console) :
  exists actions c',
    parseActionVlm MAX_RATIO IMAGE_FACTOR MIN_PIXELS MAX_PIXELS_V1_5 toLowerCase
                   text factors mode sc sf ver c = (Returned actions, c')
    /\ Forall (fun a => reflection a <> None ->
                        withDefault bc mode = bc
                        /\ startsWith (trim text) (js "Reflection:") = true
                        /\ includes (trim text) (js "Thought:") = false
                        /\ exists m r t,
                             exec reflectionPattern (trim text) = Some m
                             /\ group 1 m = Some r /\ group 2 m = Some t
                             /\ reflection a = Some (trim r) /\ thought a = trim t)
              actions.
Proof.
  destruct (parseActionVlm_shape MAX_RATIO IMAGE_FACTOR MIN_PIXELS MAX_PIXELS_V1_5
              toLowerCase text factors mode sc sf ver)
    as [smart [log [r [t [a [_ [Hseg Hrun]]]]]]].
  eexists. exists (c ++ log). split; [apply Hrun|].
  apply Forall_forall. intros e He. apply in_map_iff in He.
  destruct He as [tok [He _]].
  assert (Hr : reflection e = r /\ thought e = match t with Some v => v | None => [] end).
  { subst e. unfold toParsed.
    destruct (parseActionResult toLowerCase (unescape tok)); split; reflexivity. }
  destruct Hr as [Hr Ht]. rewrite Hr, Ht. clear He Hr Ht.
  intros Hsome. destruct (withDefault bc mode).
  - split; [reflexivity|].
    apply segment_bc_result in Hseg. specialize (Hseg []).
    unfold bcThought in Hseg.
    destruct (includes (trim text) (js "Thought:")).
    { destruct (exec thoughtPattern (trim text)) as [m|] eqn:E.
      - destruct (exec_defined (i := 1) (eq_refl : defines 1 thoughtPattern = true) E)
          as [v Hv].
        rewrite Hv in Hseg. inversion Hseg; subst r. congruence.
      - inversion Hseg; subst r. congruence. }
    destruct (startsWith (trim text) (js "Reflection:")).
    + split; [reflexivity|]. split; [reflexivity|].
      destruct (exec reflectionPattern (trim text)) as [m|] eqn:E.
      * destruct (exec_defined (i := 1) (eq_refl : defines 1 reflectionPattern = true) E)
          as [v1 Hv1].
        destruct (exec_defined (i := 2) (eq_refl : defines 2 reflectionPattern = true) E)
          as [v2 Hv2].
        rewrite Hv1, Hv2 in Hseg. inversion Hseg; subst r t.
        exists m, v1, v2. repeat split; assumption.
      * inversion Hseg; subst r. congruence.
    + destruct (startsWith (trim text) (js "Action_Summary:")).
      * destruct (exec summaryPattern (trim text)) as [m|] eqn:E.
        -- destruct (exec_defined (i := 1) (eq_refl : defines 1 summaryPattern = true) E)
             as [v Hv].
           rewrite Hv in Hseg. inversion Hseg; subst r. congruence.
        -- inversion Hseg; subst r. congruence.
      * inversion Hseg; subst r. congruence.
  - specialize (Hseg []). simpl in Hseg. inversion Hseg; subst r. congruence.
Qed.

(** X5.  For a prediction that, trimmed, is [Thought: ], a body that is not
    empty, and then the first marker of the text or nothing more, every
    entry of the result carries the trimmed body as its thought, and no
    reflection. *)
Theorem thought_is_the_text_before_the_first_marker
    (text body tail : jsstring) (factors : option (number * number)) (mode : option Mode)
    (sc : option ScreenContext) (sf : option number) (ver : option UITarsModelVersion)
    (c : console)
    (Hmode : withDefault bc mode = bc)
    (Htext : trim text = js "Thought: " ++ body ++ tail)
    (Hbody : body <> [])
    (Htail : tail = [] \/ markerAt tail = true)
    (Hfirst : forall q, q < length body -> markerAt (skipn q (body ++ tail)) = false) :
  exists actions c',
    parseActionVlm MAX_RATIO IMAGE_FACTOR MIN_PIXELS MAX_PIXELS_V1_5 toLowerCase
                   text factors mode sc sf ver c = (Returned actions, c')
    /\ Forall (fun a => thought a = trim body /\ reflection a = None) actions.
Proof.
  destruct (parseActionVlm_shape MAX_RATIO IMAGE_FACTOR MIN_PIXELS MAX_PIXELS_V1_5
              toLowerCase text factors mode sc sf ver)
    as [smart [log [r [t [a [_ [Hseg Hrun]]]]]]].
  rewrite Hmode in Hseg. apply segment_bc_result in Hseg. specialize (Hseg []).
  rewrite Htext in Hseg. unfold bcThought in Hseg.
  replace (includes (js "Thought: " ++ body ++ tail) (js "Thought:")) with true in Hseg
    by reflexivity.
  destruct (thoughtPattern_body Hbody Htail Hfirst) as [m [g [ws [E [G [Eb W]]]]]].
  rewrite E, G in Hseg. unfold bind, defined, ret in Hseg.
  inversion Hseg; subst r t. clear Hseg.
  eexists. exists (c ++ log). split; [apply Hrun|].
  apply Forall_forall. intros e He. apply in_map_iff in He.
  destruct He as [tok [He _]]. subst e. unfold toParsed.
  rewrite Eb, (trim_app_ws g W).
  destruct (parseActionResult toLowerCase (unescape tok)); split; reflexivity.
Qed.

(** X6.  In [o1] mode the result has at most one entry: the group of the
    action pattern of line 159 holds no line terminator, so the action
    string is a single line; and when that pattern does not match, the
    result is empty. *)
Theorem o1_gives_at_most_one_entry
    (text : jsstring) (factors : option (number * number))
    (sc : option ScreenContext) (sf : option number) (ver : option UITarsModelVersion)
    (c : console) :
  exists actions c',
    parseActionVlm MAX_RATIO IMAGE_FACTOR MIN_PIXELS MAX_PIXELS_V1_5 toLowerCase
                   text factors (Some o1) sc sf ver c = (Returned actions, c')
    /\ length actions <= 1
    /\ (exec o1ActionPattern (trim text) = None -> actions = []).
Proof.
  destruct (parseActionVlm_shape MAX_RATIO IMAGE_FACTOR MIN_PIXELS MAX_PIXELS_V1_5
              toLowerCase text factors (Some o1) sc sf ver)
    as [smart [log [r [t [a [_ [Hseg Hrun]]]]]]].
  simpl in Hseg. specialize (Hseg []). unfold ret in Hseg.
  inversion Hseg; subst r t a. clear Hseg.
  eexists. exists (c ++ log). split; [apply Hrun|].
  rewrite length_map. unfold o1ActionStr, captureOrNull.
  destruct (exec o1ActionPattern (trim text)) as [m|] eqn:E.
  - destruct (o1ActionPattern_group E) as [g [Hg Hline]]. rewrite Hg. cbn [ofGroup].
    split; [|discriminate].
    rewrite (tokenize_one_line (no_terminator_no_newline Hline)).
    destruct (jseqb (trim g) []); simpl; lia.
  - split; [simpl; lia | reflexivity].
Qed.

End Entries.

(** At work: a thought on one line and an action on the next. *)
Lemma thought_example :
  exists actions c',
    Sample.parseActionVlm
      (Sample.lines [js " Thought: open the menu "; js "Action: click(start_box='(1,2)')"])
      None None None None None []
    = (Returned actions, c')
    /\ map thought actions = [js "open the menu"].
Proof.
  assert (Hfirst : forall q, q < length (js "open the menu " ++ [LF]) ->
            markerAt (skipn q ((js "open the menu " ++ [LF])
                               ++ js "Action: click(start_box='(1,2)')")) = false).
  { intros q Hq. do 15 (destruct q as [|q]; [reflexivity|]). simpl in Hq. lia. }
  destruct (@thought_is_the_text_before_the_first_marker
              Sample.MAX_RATIO Sample.IMAGE_FACTOR Sample.MIN_PIXELS Sample.MAX_PIXELS_V1_5
              Sample.toLowerCase
              (Sample.lines [js " Thought: open the menu ";
                             js "Action: click(start_box='(1,2)')"])
              (js "open the menu " ++ [LF]) (js "Action: click(start_box='(1,2)')")
              None None None None None [] eq_refl eq_refl ltac:(discriminate)
              (or_intror eq_refl) Hfirst)
    as [actions [c' [Hrun HF]]].
  exists actions, c'. split; [exact Hrun|].
  vm_compute in Hrun. inversion Hrun; subst actions c'. reflexivity.
Defined.

(** *** The factors of a smart resize *)

(** X7.  When [smartResizeForV15] is not called (the model version is not
    V1_5, or there is no screen context, or its width or height is zero or
    NaN), the result does not depend on the smart-resize constants and the
    console is left as it was. *)
Theorem no_smart_resize_without_v1_5
    (MAX_RATIO IMAGE_FACTOR MIN_PIXELS MAX_PIXELS_V1_5 : number)
    (MAX_RATIO' IMAGE_FACTOR' MIN_PIXELS' MAX_PIXELS_V1_5' : number)
    (toLowerCase : jsstring -> jsstring)
    (text : jsstring) (factors : option (number * number)) (mode : option Mode)
    (sc : option ScreenContext) (sf : option number) (ver : option UITarsModelVersion)
    (c : console)
    (Hnot : resizedScreen (withDefault V1_0 ver) sc = None) :
  parseActionVlm MAX_RATIO IMAGE_FACTOR MIN_PIXELS MAX_PIXELS_V1_5 toLowerCase
                 text factors mode sc sf ver c
  = parseActionVlm MAX_RATIO' IMAGE_FACTOR' MIN_PIXELS' MAX_PIXELS_V1_5' toLowerCase
                   text factors mode sc sf ver c
  /\ snd (parseActionVlm MAX_RATIO IMAGE_FACTOR MIN_PIXELS MAX_PIXELS_V1_5 toLowerCase
                         text factors mode sc sf ver c) = c.
Proof.
  destruct (parseActionVlm_run MAX_RATIO IMAGE_FACTOR MIN_PIXELS MAX_PIXELS_V1_5
              toLowerCase text factors mode sc sf ver) as [r [t [a [Hseg Hrun]]]].
  destruct (parseActionVlm_run MAX_RATIO' IMAGE_FACTOR' MIN_PIXELS' MAX_PIXELS_V1_5'
              toLowerCase text factors mode sc sf ver) as [r' [t' [a' [Hseg' Hrun']]]].
  specialize (Hseg []). rewrite Hseg' in Hseg. inversion Hseg; subst r' t' a'.
  destruct (resolveSmartResize_cases MAX_RATIO IMAGE_FACTOR MIN_PIXELS MAX_PIXELS_V1_5
              (withDefault V1_0 ver) sc c) as [smart [Hres Hs]].
  destruct (resolveSmartResize_cases MAX_RATIO' IMAGE_FACTOR' MIN_PIXELS' MAX_PIXELS_V1_5'
              (withDefault V1_0 ver) sc c) as [smart' [Hres' Hs']].
  rewrite Hnot in *. subst smart smart'.
  rewrite (Hrun _ _ _ Hres), (Hrun' _ _ _ Hres'). split; reflexivity.
Qed.

(** At work: version V1_0 with a screen, under two sets of constants. *)
Lemma no_smart_resize_example :
  resizedScreen V1_0 (Some (mkScreen (ofZ 1000) (ofZ 800))) = None
  /\ Sample.actionParser
       (mkParams (js "Action: click(start_box='(500,400)')") (Scalar (ofZ 1000))
                 (Some (mkScreen (ofZ 1000) (ofZ 800))) None None (Some V1_0)) []
     = actionParser (ofZ 1) (ofZ 0) NaN NaN Sample.toLowerCase
         (mkParams (js "Action: click(start_box='(500,400)')") (Scalar (ofZ 1000))
                   (Some (mkScreen (ofZ 1000) (ofZ 800))) None None (Some V1_0)) [].
Proof.
  split; [reflexivity|].
  unfold Sample.actionParser, actionParser, bind. cbn [prediction factor mode screenContext scaleFactor modelVer].
  rewrite (proj1 (@no_smart_resize_without_v1_5
                    Sample.MAX_RATIO Sample.IMAGE_FACTOR Sample.MIN_PIXELS
                    Sample.MAX_PIXELS_V1_5 (ofZ 1) (ofZ 0) NaN NaN Sample.toLowerCase
                    (js "Action: click(start_box='(500,400)')")
                    (Some (ofZ 1000, ofZ 1000)) None
                    (Some (mkScreen (ofZ 1000) (ofZ 800))) None (Some V1_0) []
                    eq_refl)).
  reflexivity.
Defined.

(** X8.  Under V1_5, when [smartResizeForV15] fails on the aspect ratio the
    parser falls back to the factors of the call: it returns what it returns
    for V1_0. *)
Theorem failed_smart_resize_falls_back_to_factors
    (MAX_RATIO IMAGE_FACTOR MIN_PIXELS MAX_PIXELS_V1_5 : number)
    (toLowerCase : jsstring -> jsstring)
    (text : jsstring) (factors : option (number * number)) (mode : option Mode)
    (sc : ScreenContext) (sf : option number) (c : console)
    (Hsize : resizedScreen V1_5 (Some sc) = Some sc)
    (Hratio : gtb (aspectRatio sc) MAX_RATIO = true) :
  fst (parseActionVlm MAX_RATIO IMAGE_FACTOR MIN_PIXELS MAX_PIXELS_V1_5 toLowerCase
                      text factors mode (Some sc) sf (Some V1_5) c)
  = fst (parseActionVlm MAX_RATIO IMAGE_FACTOR MIN_PIXELS MAX_PIXELS_V1_5 toLowerCase
                        text factors mode (Some sc) sf (Some V1_0) c).
Proof.
  destruct (parseActionVlm_run MAX_RATIO IMAGE_FACTOR MIN_PIXELS MAX_PIXELS_V1_5
              toLowerCase text factors mode (Some sc) sf (Some V1_5))
    as [r [t [a [Hseg Hrun]]]].
  destruct (parseActionVlm_run MAX_RATIO IMAGE_FACTOR MIN_PIXELS MAX_PIXELS_V1_5
              toLowerCase text factors mode (Some sc) sf (Some V1_0))
    as [r' [t' [a' [Hseg' Hrun']]]].
  specialize (Hseg []). rewrite Hseg' in Hseg. inversion Hseg; subst r' t' a'.
  destruct (resolveSmartResize_cases MAX_RATIO IMAGE_FACTOR MIN_PIXELS MAX_PIXELS_V1_5
              (withDefault V1_0 (Some V1_5)) (Some sc) c) as [smart [Hres Hs]].
  destruct (resolveSmartResize_cases MAX_RATIO IMAGE_FACTOR MIN_PIXELS MAX_PIXELS_V1_5
              (withDefault V1_0 (Some V1_0)) (Some sc) c) as [smart' [Hres' Hs']].
  cbn [withDefault] in *. rewrite Hsize, Hratio in Hs. subst smart.
  assert (E : resizedScreen V1_0 (Some sc) = None)
    by (unfold resizedScreen; reflexivity).
  rewrite E in Hs'. subst smart'.
  rewrite (Hrun _ _ _ Hres), (Hrun' _ _ _ Hres'). cbn [fst withDefault].
  f_equal; try (apply map_ext; intros rawStr; apply toParsed_without_smart).
Qed.

(** At work: a 1001 by 5 screen under V1_5. *)
Lemma smart_resize_fallback_example :
  resizedScreen V1_5 (Some (mkScreen (ofZ 1001) (ofZ 5))) = Some (mkScreen (ofZ 1001) (ofZ 5))
  /\ gtb (aspectRatio (mkScreen (ofZ 1001) (ofZ 5))) Sample.MAX_RATIO = true
  /\ fst (Sample.parseActionVlm (js "Action: click(start_box='(500,400)')") None None
            (Some (mkScreen (ofZ 1001) (ofZ 5))) None (Some V1_5) [])
     = Returned [mkParsed None [] (Some (js "click"))
                          [(js "start_box", VString (js "[0.5,0.4,0.5,0.4]"));
                           (js "start_coords", VCoords [div (ofZ 1001) (ofZ 2); ofZ 2])]].
Proof.
  split; [reflexivity|]. split; [vm_compute; reflexivity|].
  unfold Sample.parseActionVlm.
  rewrite (@failed_smart_resize_falls_back_to_factors
             Sample.MAX_RATIO Sample.IMAGE_FACTOR Sample.MIN_PIXELS Sample.MAX_PIXELS_V1_5
             Sample.toLowerCase (js "Action: click(start_box='(500,400)')") None None
             (mkScreen (ofZ 1001) (ofZ 5)) None [] eq_refl);
    vm_compute; reflexivity.
Defined.

(** *** Tokens *)

(** X9.  Tokenizing goes line by line: the tokens of two texts joined by a
    newline are the tokens of the first followed by those of the second,
    and a text without newline is one token, or none when it holds white
    space only.  No token contains a newline and none is blank. *)
Theorem tokenize_goes_line_by_line (a b : jsstring) :
  tokenize (a ++ [LF] ++ b) = tokenize a ++ tokenize b
  /\ (~ In LF a -> tokenize a = if jseqb (trim a) [] then [] else [a])
  /\ Forall (fun token => ~ In LF token /\ trim token <> []) (tokenize a).
Proof.
  rewrite !tokenize_lines. split; [|split].
  - simpl. rewrite linesOf_app, filter_app. reflexivity.
  - intros H. rewrite (linesOf_one H). simpl. unfold notBlank.
    destruct (jseqb (trim a) []); reflexivity.
  - apply Forall_forall. intros tok Htok. apply filter_In in Htok.
    destruct Htok as [Hin Hnb]. split.
    + pose proof (@linesOf_no_newline a [] (fun H => H)) as F.
      rewrite Forall_forall in F. apply F. exact Hin.
    + unfold notBlank in Hnb. intros E. rewrite E in Hnb. discriminate.
Qed.

(** X10.  The replace of line 177 puts a backslash and [n] where it finds a
    backslash and [n]: the argument handed to [parseAction] is the token
    without its leading white space, and [parseAction] returns for it what
    it returns for the token itself. *)
Theorem unescape_only_trims (toLowerCase : jsstring -> jsstring) (rawStr : jsstring) :
  unescape rawStr = trimStart rawStr
  /\ parseAction toLowerCase (unescape rawStr) = parseAction toLowerCase rawStr.
Proof.
  pose proof (unescape_trimStart rawStr) as E.
  split; [exact E|].
  unfold parseAction. rewrite E.
  replace (preprocess (trimStart rawStr)) with (preprocess rawStr); [reflexivity|].
  unfold preprocess, trim. rewrite trimStart_idem. reflexivity.
Qed.

(** *** Boxes *)

(** X11.  The numbers of a point and of a box: for a value made of two or
    four fragments separated by commas, with any brackets before and after,
    [parseFloat] of each fragment is divided by the width factor (first and
    third fragment) or the height factor (second and fourth), and a point
    is doubled.  The factors are those of [smartResizeForV15] when the
    version is V1_5 and the resize succeeded, those of the call
    otherwise. *)
Theorem point_and_box_are_divided_by_their_factors
    (factors : number * number) (ver : UITarsModelVersion)
    (smart : option (number * number)) (opening closing x1 y1 : jsstring)
    (Hopen : forallb isBracket opening = true)
    (Hclose : forallb isBracket closing = true)
    (Hx1 : isFragment x1) (Hy1 : isFragment y1) :
  let divisors := match smart with
                  | Some s => if isV1_5 ver then s else factors
                  | None => factors
                  end in
  normalizeBox factors ver smart (opening ++ x1 ++ js "," ++ y1 ++ closing)
  = [div (parseFloat x1) (fst divisors); div (parseFloat y1) (snd divisors);
     div (parseFloat x1) (fst divisors); div (parseFloat y1) (snd divisors)]
  /\ forall x2 y2, isFragment x2 -> isFragment y2 ->
       normalizeBox factors ver smart
         (opening ++ x1 ++ js "," ++ y1 ++ js "," ++ x2 ++ js "," ++ y2 ++ closing)
       = [div (parseFloat x1) (fst divisors); div (parseFloat y1) (snd divisors);
          div (parseFloat x2) (fst divisors); div (parseFloat y2) (snd divisors)].
Proof.
  intros divisors. split.
  - unfold normalizeBox.
    replace (opening ++ x1 ++ js "," ++ y1 ++ closing)
      with (opening ++ join [44%N] [x1; y1] ++ closing)
      by (cbn [join js cu app]; repeat (rewrite <- app_assoc; cbn [app]); reflexivity).
    rewrite fragments_of_box by (auto; discriminate).
    cbn [mapi]. change (Nat.modulo 0 2) with 0. change (Nat.modulo 1 2) with 1.
    unfold divisors. destruct ver, smart; reflexivity.
  - intros x2 y2 Hx2 Hy2. unfold normalizeBox.
    replace (opening ++ x1 ++ js "," ++ y1 ++ js "," ++ x2 ++ js "," ++ y2 ++ closing)
      with (opening ++ join [44%N] [x1; y1; x2; y2] ++ closing)
      by (cbn [join js cu app]; repeat (rewrite <- app_assoc; cbn [app]); reflexivity).
    rewrite fragments_of_box by (auto; discriminate).
    cbn [mapi]. change (Nat.modulo 0 2) with 0. change (Nat.modulo 1 2) with 1.
    change (Nat.modulo 2 2) with 0. change (Nat.modulo 3 2) with 1.
    unfold divisors. destruct ver, smart; reflexivity.
Qed.

(** At work: a box between square brackets, under V1_5 with the factors
    of a resize to 1932 by 1092. *)
Lemma box_example :
  normalizeBox (ofZ 1000, ofZ 1000) V1_5 (Some (ofZ 1932, ofZ 1092)) (js "[966,546,1932,1092]")
  = [div (ofZ 1) (ofZ 2); div (ofZ 1) (ofZ 2); ofZ 1; ofZ 1].
Proof.
  assert (F1 : isFragment (js "966")) by (split; [discriminate | reflexivity]).
  assert (F2 : isFragment (js "546")) by (split; [discriminate | reflexivity]).
  assert (F3 : isFragment (js "1932")) by (split; [discriminate | reflexivity]).
  assert (F4 : isFragment (js "1092")) by (split; [discriminate | reflexivity]).
  assert (B1 : forallb isBracket (js "[") = true) by reflexivity.
  assert (B2 : forallb isBracket (js "]") = true) by reflexivity.
  pose proof (@point_and_box_are_divided_by_their_factors
                (ofZ 1000, ofZ 1000) V1_5 (Some (ofZ 1932, ofZ 1092))
                (js "[") (js "]") (js "966") (js "546") B1 B2 F1 F2) as H.
  cbv zeta in H. destruct H as [_ H]. specialize (H (js "1932") (js "1092") F3 F4).
  change (js "[966,546,1932,1092]")
    with (js "[" ++ js "966" ++ js "," ++ js "546" ++ js "," ++ js "1932" ++ js ","
          ++ js "1092" ++ js "]").
  rewrite H. vm_compute. reflexivity.
Defined.

(** X12.  With a screen whose width and height are truthy (neither zero
    nor NaN), the array stored under [start_coords] (or [end_coords]) is
    either empty or a pair, and it is empty exactly when the
    box value gives fewer than two numbers: the test of line 225 lets a
    Number through whatever its value, NaN and the infinities included,
    and holds back only the missing ones. *)
Theorem coords_are_empty_only_for_fewer_than_two_numbers
    (factors : number * number) (ver : UITarsModelVersion)
    (smart : option (number * number)) (sc : ScreenContext) (sf : option number)
    (actionInputs : ActionInputs) (paramName param : jsstring)
    (Hparam : param <> [])
    (Hbox : (includes paramName (js "start_box") || includes paramName (js "end_box"))%bool
            = true)
    (Hwidth : truthy (width sc) = true) (Hheight : truthy (height sc) = true) :
  let boxKey := if includes paramName (js "start_box")
                then js "start_coords" else js "end_coords" in
  (exists coords,
     JsObject.get boxKey
        (storeParam factors ver smart (Some sc) sf actionInputs (paramName, param))
     = Some (VCoords coords)
     /\ (coords = [] \/ length coords = 2))
  /\ (JsObject.get boxKey
        (storeParam factors ver smart (Some sc) sf actionInputs (paramName, param))
      = Some (VCoords [])
      <-> length (normalizeBox factors ver smart (trim param)) < 2).
Proof.
  intros boxKey.
  assert (G : JsObject.get boxKey
                (storeParam factors ver smart (Some sc) sf actionInputs (paramName, param))
              = Some (boxCoords factors sc sf (normalizeBox factors ver smart (trim param)))).
  { rewrite storeParam_box by assumption.
    cbn [hasSize]. rewrite Hwidth, Hheight. cbn [andb]. cbv zeta.
    apply get_set. unfold boxKey.
    destruct (includes paramName (js "start_box")); vm_compute; discriminate. }
  rewrite G. split.
  - unfold boxCoords. destruct factors as [wf hf].
    destruct (forallb isNumber _); eexists; (split; [reflexivity|]); [right | left];
      reflexivity.
  - rewrite <- (boxCoords_empty factors sc sf). split; [intros H; inversion H | intros ->];
      reflexivity.
Qed.

(** At work: a box value with a single number. *)
Lemma single_number_example :
  Sample.actionParser
    (mkParams (js "Action: click(start_box='(5)')") (Scalar (ofZ 1000))
              (Some (mkScreen (ofZ 1000) (ofZ 800))) None None None) []
  = (Returned (mkResult [mkParsed None [] (Some (js "click"))
                                  [(js "start_box", VString (js "[0.005]"));
                                   (js "start_coords", VCoords [])]]),
     [])
  /\ JsObject.get (js "start_coords")
       (storeParam (ofZ 1000, ofZ 1000) V1_0 None (Some (mkScreen (ofZ 1000) (ofZ 800)))
                   None empty (js "start_box", js "(5)"))
     = Some (VCoords []).
Proof.
  split; [vm_compute; reflexivity|].
  assert (Hne : js "(5)" <> []) by discriminate.
  pose proof (@coords_are_empty_only_for_fewer_than_two_numbers
                (ofZ 1000, ofZ 1000) V1_0 None (mkScreen (ofZ 1000) (ofZ 800)) None empty
                (js "start_box") (js "(5)") Hne eq_refl eq_refl eq_refl) as H.
  cbv zeta in H. destruct H as [_ H]. apply H. vm_compute. lia.
Defined.

(** *** [parseAction] *)

(** X13.  [parseAction] returns for every action string and writes nothing:
    the statements inside [try] never throw, so the [catch] block is never
    entered; and when the result is not [null] its [function] is a string. *)
Theorem parseAction_catch_is_unreachable
    (toLowerCase : jsstring -> jsstring) (actionStr : jsstring) (c : console) :
  exists result,
    parseActionBody toLowerCase (preprocess actionStr) c = (Returned result, c)
    /\ parseAction toLowerCase actionStr c = (Returned result, c)
    /\ forall call, result = Some call -> exists name, function call = Some name.
Proof.
  destruct (parseActionBody_quiet toLowerCase (preprocess actionStr)) as [r Hr].
  exists r. split; [apply Hr|].
  assert (Hq : quiet (parseAction toLowerCase actionStr) r)
    by (apply quiet_tryCatch; exact Hr).
  split; [apply Hq|].
  intros call E. apply (@parseActionResult_function toLowerCase actionStr).
  unfold parseActionResult. rewrite Hq. exact E.
Qed.

(** X14.  The function-call pattern of line 280 matches exactly the texts
    [name(args)] with a name of one or more word characters and arguments
    without a line terminator; its groups are then the name and the
    arguments, the arguments running to the last character before the
    closing parenthesis that ends the text. *)
Theorem function_call_pattern_is_name_and_arguments (s : jsstring) :
  (forall m, exec functionPattern s = Some m ->
     exists name args, isCallText s name args
       /\ group 1 m = Some name /\ group 2 m = Some args)
  /\ (forall name args, isCallText s name args ->
        exists m, exec functionPattern s = Some m
          /\ group 1 m = Some name /\ group 2 m = Some args).
Proof.
  split.
  - intros m H. apply functionPattern_sound. exact H.
  - intros name args H. apply functionPattern_complete. exact H.
Qed.

(** X15.  The pattern of line 289 cuts the argument text at the commas that
    stand outside single quotes: arguments joined by commas, each made of
    code units other than comma and quote and of quoted texts, are found
    again one by one, a comma inside quotes staying in its argument. *)
Theorem arguments_are_cut_at_commas_outside_quotes (items : list jsstring)
    (Hitems : Forall isArgument items) :
  matchAll argPairPattern (join (js ",") items) = items.
Proof. apply matchGo_arguments. exact Hitems. Qed.

(** At work: two arguments, the first with a comma between its quotes. *)
Lemma arguments_example :
  matchAll argPairPattern (js "content='a, b', start_box='(1,2)'")
  = [js "content='a, b'"; js " start_box='(1,2)'"].
Proof.
  assert (A1 : isArgument (js "content='a, b'")).
  { exists (map Plain (js "content=") ++ [Quoted (js "a, b")]).
    split; [discriminate | split; reflexivity]. }
  assert (A2 : isArgument (js " start_box='(1,2)'")).
  { exists (map Plain (js " start_box=") ++ [Quoted (js "(1,2)")]).
    split; [discriminate | split; reflexivity]. }
  exact (@arguments_are_cut_at_commas_outside_quotes
           [js "content='a, b'"; js " start_box='(1,2)'"]
           (Forall_cons _ A1 (Forall_cons _ A2 (Forall_nil _)))).
Defined.

(** X16.  A pair is cut at its first [=]: the key is the trimmed text before
    it, the value the trimmed text after it without one quote, single or
    double, at its start and one at its end, whether the two match or not;
    this when the value holds neither tag.  A pair without [=] is
    skipped. *)
Theorem pair_is_cut_at_its_first_equals (kwargs : obj jsstring) (k v : jsstring)
    (Hkey : ~ In 61%N k)
    (Hbbox : includes (dropTrailingQuote (dropLeadingQuote (trim v))) (js "<bbox>") = false)
    (Hpoint : includes (dropTrailingQuote (dropLeadingQuote (trim v))) (js "<point>") = false) :
  addPair kwargs (k ++ js "=" ++ v)
  = JsObject.set (trim k) (dropTrailingQuote (dropLeadingQuote (trim v))) kwargs
  /\ addPair kwargs k = kwargs.
Proof.
  split.
  - apply addPair_cut; assumption.
  - unfold addPair.
    replace (indexOf k 61%N) with (@None nat); [reflexivity|].
    symmetry. apply indexOf_none. exact Hkey.
Qed.

(** At work: an equals sign in the value, and quotes that do not match. *)
Lemma pair_example :
  addPair empty (js " content = " ++ [DQUOTE] ++ js "a=b' ") = [(js "content", js "a=b")].
Proof.
  assert (Hkey : ~ In 61%N (js " content ")).
  { intros H. repeat (destruct H as [H|H]; [discriminate|]). exact H. }
  exact (proj1 (@pair_is_cut_at_its_first_equals empty (js " content ")
                  (js " " ++ [DQUOTE] ++ js "a=b' ") Hkey eq_refl eq_refl)).
Defined.



(** X18.  Writing a call and parsing it gives the call back: when step 1
    leaves the text [name(k1='v1', k2='v2', ...)], with a name and keys of
    word characters and values free of single quotes, line terminators and
    the tags [<bbox>] and [<point>], [parseAction] returns the name as
    [function] and, as [args], the object that the assignments
    [args[k1] = v1], [args[k2] = v2], ... build, in this order.  Commas,
    parentheses, white space and double quotes inside a value are kept. *)
Theorem keyword_call_round_trip
    (toLowerCase : jsstring -> jsstring) (actionStr name : jsstring)
    (pairs : list (jsstring * jsstring)) (c : console)
    (Htext : preprocess actionStr = callText name pairs)
    (Hname : name <> [] /\ forallb isWordChar name = true)
    (Hpairs : Forall isPlainPair pairs) :
  parseAction toLowerCase actionStr c
  = (Returned (Some (mkCall (Some name)
                            (fold_left (fun o kv => JsObject.set (fst kv) (snd kv) o)
                                       pairs empty))),
     c).
Proof.
  destruct Hname as [Hne Hw]. apply parseAction_callText; assumption.
Qed.

(** At work: box markers removed by step 1, and a comma inside a value. *)
Lemma keyword_call_example :
  Sample.parseAction
    (js " click(start_box='<|box_start|>(1,2)<|box_end|>', content='a, b')") []
  = (Returned (Some (mkCall (Some (js "click"))
                            [(js "start_box", js "(1,2)"); (js "content", js "a, b")])),
     []).
Proof.
  unfold Sample.parseAction.
  rewrite (@keyword_call_round_trip Sample.toLowerCase
             (js " click(start_box='<|box_start|>(1,2)<|box_end|>', content='a, b')")
             (js "click") [(js "start_box", js "(1,2)"); (js "content", js "a, b")] []).
  - reflexivity.
  - vm_compute. reflexivity.
  - split; [discriminate | reflexivity].
  - repeat constructor.
Defined.

(** X19.  What the heuristic fallback puts into [args]: at most the key
    [start_box], with a value [(x,y)] whose [x] and [y] are decimal
    numerals (digits, possibly a point and digits), present exactly when
    the coordinate pattern of line 330 matches; and, only when the action
    found is [type], the key [content] with a trimmed text.  No other key
    is ever set. *)
Theorem heuristic_sets_start_box_and_content_only
    (toLowerCase : jsstring -> jsstring) (actionStr : jsstring) (c : console)
    (Hgrammar : exec functionPattern (preprocess actionStr) = None) :
  exists result,
    parseAction toLowerCase actionStr c = (Returned result, c)
    /\ forall call, result = Some call ->
         (forall key value, In (key, value) (args call) ->
            (key = js "start_box"
             /\ exists x y, value = js "(" ++ x ++ js "," ++ y ++ js ")"
                            /\ isNumeral x /\ isNumeral y)
            \/ (key = js "content" /\ function call = Some (js "type")
                /\ trim value = value))
         /\ (exec coordPattern (preprocess actionStr) = None ->
             JsObject.get (js "start_box") (args call) = None).
Proof.
  unfold parseAction, tryCatch, parseActionBody. rewrite Hgrammar.
  destruct (find _ commonActions) as [act|].
  - destruct (heuristicCall_entries (preprocess actionStr) act) as [kw [Hq [F G]]].
    rewrite Hq. eexists. split; [reflexivity|].
    intros call E. inversion E; subst call. cbn [args function]. split; [|exact G].
    intros key value Hin. rewrite Forall_forall in F. apply F in Hin.
    destruct Hin as [[K V]|[K [A V]]]; cbn [fst snd] in *.
    + left. auto.
    + right. subst act. auto.
  - exists None. split; [reflexivity|]. intros call E. discriminate.
Qed.

(** At work: free text with coordinates between mismatched brackets. *)
Lemma heuristic_example :
  Sample.parseAction (js "Please TYPE text: hello at (10, 20.5]") []
  = (Returned (Some (mkCall (Some (js "type"))
                            [(js "start_box", js "(10,20.5)");
                             (js "content", js "hello at (10, 20.5]")])),
     []).
Proof.
  destruct (@heuristic_sets_start_box_and_content_only Sample.toLowerCase
              (js "Please TYPE text: hello at (10, 20.5]") [] eq_refl)
    as [result [Hrun _]].
  unfold Sample.parseAction. rewrite Hrun.
  vm_compute in Hrun. inversion Hrun. reflexivity.
Defined.

(** *** Step 1 *)

(** X20.  Step 1 of [parseAction] only trims a text that contains none of
    [<|box_start|>], [<|box_end|>] and [point=]: nothing else is removed or
    rewritten. *)
Theorem step_one_only_trims (actionStr : jsstring)
    (Hstart : includes actionStr (js "<|box_start|>") = false)
    (Hend : includes actionStr (js "<|box_end|>") = false)
    (Hpoint : includes actionStr (js "point=") = false) :
  preprocess actionStr = trim actionStr.
Proof. apply preprocess_untouched; assumption. Qed.

(** At work: a call whose key is [start_box]. *)
Lemma step_one_example :
  preprocess (js " click(start_box='(1,2)') ") = js "click(start_box='(1,2)')".
Proof.
  rewrite (@step_one_only_trims (js " click(start_box='(1,2)') ") eq_refl eq_refl eq_refl).
  reflexivity.
Defined.

(** *** Predictions in their usual forms *)

Section Prediction.

Variables MAX_RATIO IMAGE_FACTOR MIN_PIXELS MAX_PIXELS_V1_5 : number.
Variable toLowerCase : jsstring -> jsstring.

(** X21.  The prediction in its usual form, from end to end: for a text that,
    trimmed, is [Thought: ], a body, [Action: ] and a call with keyword
    arguments [name(k1='v1', k2='v2', ...)], with no other marker in it and
    a call that step 1 of [parseAction] leaves as it is, the result is one
    entry: no reflection, the trimmed body as thought, the name as action
    type, and as inputs what the loop over the parameters stores for the
    arguments [k1 = v1], [k2 = v2], ... of the call. *)
Theorem thought_and_call_give_one_entry
    (text body name : jsstring) (pairs : list (jsstring * jsstring))
    (factors : option (number * number)) (mode : option Mode)
    (sc : option ScreenContext) (sf : option number) (ver : option UITarsModelVersion)
    (c : console)
    (Hmode : withDefault bc mode = bc)
    (Htext : trim text = js "Thought: " ++ body ++ js "Action: " ++ callText name pairs)
    (Hbody : body <> [])
    (Honce : forall q,
        markerAt (skipn q (body ++ js "Action: " ++ callText name pairs)) = true ->
        q = length body)
    (Hstep1 : preprocess (callText name pairs) = callText name pairs)
    (Hname : name <> [] /\ forallb isWordChar name = true)
    (Hpairs : Forall isPlainPair pairs) :
  exists smart c',
    resolveSmartResize MAX_RATIO IMAGE_FACTOR MIN_PIXELS MAX_PIXELS_V1_5
                       (withDefault V1_0 ver) sc c = (Returned smart, c')
    /\ parseActionVlm MAX_RATIO IMAGE_FACTOR MIN_PIXELS MAX_PIXELS_V1_5 toLowerCase
                      text factors mode sc sf ver c
       = (Returned
            [mkParsed None (trim body) (Some name)
               (fold_left (storeParam (withDefault (ofZ 1000, ofZ 1000) factors)
                                      (withDefault V1_0 ver) smart sc sf)
                          (entries (fold_left (fun o kv => JsObject.set (fst kv) (snd kv) o)
                                              pairs empty))
                          empty)],
          c').
Proof.
  destruct Hname as [Hne Hw].
  set (call := callText name pairs) in *.
  set (tail := js "Action: " ++ call) in *.
  assert (Hfirst : forall q, q < length body -> markerAt (skipn q (body ++ tail)) = false).
  { intros q Hq. destruct (markerAt (skipn q (body ++ tail))) eqn:M; [|reflexivity].
    apply Honce in M. lia. }
  assert (Hlater : forall q, 0 < q -> markerAt (skipn q tail) = false).
  { intros q Hq. destruct (markerAt (skipn q tail)) eqn:M; [|reflexivity].
    rewrite <- (skipn_plus body tail q) in M. apply Honce in M. lia. }
  assert (Hmark : markerAt tail = true) by reflexivity.
  destruct (parseActionVlm_run MAX_RATIO IMAGE_FACTOR MIN_PIXELS MAX_PIXELS_V1_5
              toLowerCase text factors mode sc sf ver) as [r [t [a [Hseg Hrun]]]].
  destruct (resolveSmartResize_cases MAX_RATIO IMAGE_FACTOR MIN_PIXELS MAX_PIXELS_V1_5
              (withDefault V1_0 ver) sc c) as [smart [Hres _]].
  exists smart. eexists. split; [exact Hres|].
  rewrite (Hrun _ _ _ Hres). clear Hrun Hres.
  rewrite Hmode, Htext in Hseg. specialize (Hseg []).
  cbn [segment] in Hseg. unfold bind in Hseg.
  (* the thought *)
  destruct (thoughtPattern_body Hbody (or_intror Hmark) Hfirst) as [m [g [ws [E [G [Eb W]]]]]].
  unfold bcThought in Hseg.
  replace (includes (js "Thought: " ++ body ++ tail) (js "Thought:")) with true in Hseg
    by reflexivity.
  rewrite E, G in Hseg. unfold bind, defined, ret in Hseg. cbn [fst snd] in Hseg.
  (* the action string *)
  replace (js "Thought: " ++ body ++ tail) with ((js "Thought: " ++ body) ++ tail) in Hseg
    by (rewrite <- app_assoc; reflexivity).
  rewrite (bcActionStr_last (js "Thought: " ++ body) Hmark Hlater) in Hseg.
  inversion Hseg; subst r t a. clear Hseg.
  change (skipn 7 tail) with (32%N :: call).
  unfold call in *.
  match goal with
  | |- context [tokenize ?x] =>
      replace (tokenize x) with [x] by (symmetry; apply tokenize_call; assumption)
  end.
  cbn [map].
  rewrite unescape_trimStart. cbn [trimStart]. change (isWhiteSpace 32%N) with true. cbv iota.
  rewrite (proj2 (callText_one_line Hne Hw Hpairs)).
  unfold parseActionResult.
  rewrite (parseAction_callText toLowerCase [] Hstep1 Hne Hw Hpairs).
  cbn [fst]. unfold toParsed. cbn [function args].
  rewrite Eb, (trim_app_ws g W). reflexivity.
Qed.

End Prediction.

(** At work: a thought on one line, a click on the next. *)
Lemma thought_and_call_example :
  Sample.parseActionVlm
    (Sample.lines [js "Thought: open the menu"; js "Action: click(start_box='(1,2)')"])
    None None None None None []
  = (Returned [mkParsed None (js "open the menu") (Some (js "click"))
                        [(js "start_box", VString (js "[0.001,0.002,0.001,0.002]"))]],
     []).
Proof.
  assert (Honce : forall q,
            markerAt (skipn q ((js "open the menu" ++ [LF]) ++ js "Action: "
                               ++ callText (js "click") [(js "start_box", js "(1,2)")]))
            = true -> q = length (js "open the menu" ++ [LF])).
  { intros q Hq. do 14 (destruct q as [|q]; [discriminate Hq|]).
    destruct q as [|q]; [reflexivity|].
    do 40 (destruct q as [|q]; [discriminate Hq|]). discriminate Hq. }
  assert (Hpairs : Forall isPlainPair [(js "start_box", js "(1,2)")]).
  { constructor; [|constructor]. repeat split; reflexivity. }
  assert (Htext : trim (Sample.lines [js "Thought: open the menu";
                                      js "Action: click(start_box='(1,2)')"])
                  = js "Thought: " ++ (js "open the menu" ++ [LF]) ++ js "Action: "
                    ++ callText (js "click") [(js "start_box", js "(1,2)")])
    by (vm_compute; reflexivity).
  assert (Hstep1 : preprocess (callText (js "click") [(js "start_box", js "(1,2)")])
                   = callText (js "click") [(js "start_box", js "(1,2)")])
    by (vm_compute; reflexivity).
  assert (Hbody : js "open the menu" ++ [LF] <> []) by discriminate.
  assert (Hname : js "click" <> [] /\ forallb isWordChar (js "click") = true)
    by (split; [discriminate | reflexivity]).
  destruct (@thought_and_call_give_one_entry
              Sample.MAX_RATIO Sample.IMAGE_FACTOR Sample.MIN_PIXELS Sample.MAX_PIXELS_V1_5
              Sample.toLowerCase
              (Sample.lines [js "Thought: open the menu";
                             js "Action: click(start_box='(1,2)')"])
              (js "open the menu" ++ [LF]) (js "click") [(js "start_box", js "(1,2)")]
              None None None None None [] eq_refl Htext Hbody Honce Hstep1 Hname Hpairs)
    as [smart [c' [Hres Hrun]]].
  unfold Sample.parseActionVlm. rewrite Hrun.
  vm_compute in Hres. inversion Hres; subst smart c'. vm_compute. reflexivity.
Defined.

Section Summaries.

Variables MAX_RATIO IMAGE_FACTOR MIN_PIXELS MAX_PIXELS_V1_5 : number.
Variable toLowerCase : jsstring -> jsstring.

(** X22.  For a prediction that, trimmed, is [Reflection: ], a reflection,
    [Action_Summary: ], a summary, and then the first marker of the rest or
    nothing more, with no [Thought:] in it and no [Action_Summary: ] inside
    the reflection after its first character, every entry of the result
    carries the trimmed reflection as its reflection and the trimmed
    summary as its thought. *)
Theorem reflection_and_summary_are_read
    (text r s tail : jsstring) (factors : option (number * number)) (mode : option Mode)
    (sc : option ScreenContext) (sf : option number) (ver : option UITarsModelVersion)
    (c : console)
    (Hmode : withDefault bc mode = bc)
    (Htext : trim text = js "Reflection: " ++ r ++ js "Action_Summary: " ++ s ++ tail)
    (Hno : includes (trim text) (js "Thought:") = false)
    (Hr : r <> []) (Hs : s <> [])
    (Hsingle : forall j, 0 < j < length r ->
        startsWith (skipn j (r ++ js "Action_Summary: " ++ s ++ tail))
                   (js "Action_Summary: ") = false)
    (Htail : tail = [] \/ markerAt tail = true)
    (Hfirst : forall q, q < length s -> markerAt (skipn q (s ++ tail)) = false) :
  exists actions c',
    parseActionVlm MAX_RATIO IMAGE_FACTOR MIN_PIXELS MAX_PIXELS_V1_5 toLowerCase
                   text factors mode sc sf ver c = (Returned actions, c')
    /\ Forall (fun a => reflection a = Some (trim r) /\ thought a = trim s) actions.
Proof.
  destruct (parseActionVlm_shape MAX_RATIO IMAGE_FACTOR MIN_PIXELS MAX_PIXELS_V1_5
              toLowerCase text factors mode sc sf ver)
    as [smart [log [r0 [t [a [_ [Hseg Hrun]]]]]]].
  rewrite Hmode in Hseg. apply segment_bc_result in Hseg. specialize (Hseg []).
  unfold bcThought in Hseg. rewrite Hno in Hseg. rewrite Htext in Hseg.
  replace (startsWith (js "Reflection: " ++ r ++ js "Action_Summary: " ++ s ++ tail)
                      (js "Reflection:")) with true in Hseg by reflexivity.
  destruct (reflectionPattern_groups Hr Hs Hsingle Htail Hfirst)
    as [m [g [ws [E [G1 [G2 [Es W]]]]]]].
  rewrite E, G1, G2 in Hseg. unfold bind, defined, ret in Hseg.
  inversion Hseg; subst r0 t. clear Hseg.
  eexists. exists (c ++ log). split; [apply Hrun|].
  apply Forall_forall. intros e He. apply in_map_iff in He.
  destruct He as [tok [He _]]. subst e. unfold toParsed.
  rewrite Es, (trim_app_ws g W).
  destruct (parseActionResult toLowerCase (unescape tok)); split; reflexivity.
Qed.

(** X23.  For a prediction that, trimmed, is [Action_Summary: ], a summary on
    one line, white space, and then the first marker of the rest (or a
    summary on one line and nothing more), with no [Thought:] in it, every
    entry of the result carries the trimmed summary as its thought, and no
    reflection. *)
Theorem action_summary_is_the_thought
    (text s ws tail : jsstring) (factors : option (number * number)) (mode : option Mode)
    (sc : option ScreenContext) (sf : option number) (ver : option UITarsModelVersion)
    (c : console)
    (Hmode : withDefault bc mode = bc)
    (Htext : trim text = js "Action_Summary: " ++ s ++ ws ++ tail)
    (Hno : includes (trim text) (js "Thought:") = false)
    (Hs : s <> [])
    (Hline : forallb (fun c => negb (isLineTerminator c)) s = true)
    (Hws : forallb isWhiteSpace ws = true)
    (Htail : ws ++ tail = [] \/ markerAt tail = true)
    (Hfirst : forall q, q < length s -> markerAt (skipn q (s ++ ws ++ tail)) = false) :
  exists actions c',
    parseActionVlm MAX_RATIO IMAGE_FACTOR MIN_PIXELS MAX_PIXELS_V1_5 toLowerCase
                   text factors mode sc sf ver c = (Returned actions, c')
    /\ Forall (fun a => thought a = trim s /\ reflection a = None) actions.
Proof.
  destruct (parseActionVlm_shape MAX_RATIO IMAGE_FACTOR MIN_PIXELS MAX_PIXELS_V1_5
              toLowerCase text factors mode sc sf ver)
    as [smart [log [r0 [t [a [_ [Hseg Hrun]]]]]]].
  rewrite Hmode in Hseg. apply segment_bc_result in Hseg. specialize (Hseg []).
  unfold bcThought in Hseg. rewrite Hno in Hseg. rewrite Htext in Hseg.
  replace (startsWith (js "Action_Summary: " ++ s ++ ws ++ tail) (js "Reflection:"))
    with false in Hseg by reflexivity.
  replace (startsWith (js "Action_Summary: " ++ s ++ ws ++ tail) (js "Action_Summary:"))
    with true in Hseg by reflexivity.
  destruct (summaryPattern_body Hs Hline Hws Htail Hfirst) as [m [g [ws' [E [G [Es W]]]]]].
  rewrite E, G in Hseg. unfold bind, defined, ret in Hseg.
  inversion Hseg; subst r0 t. clear Hseg.
  eexists. exists (c ++ log). split; [apply Hrun|].
  apply Forall_forall. intros e He. apply in_map_iff in He.
  destruct He as [tok [He _]]. subst e. unfold toParsed.
  rewrite <- (trim_app_ws s Hws), Es, (trim_app_ws g W).
  destruct (parseActionResult toLowerCase (unescape tok)); split; reflexivity.
Qed.

End Summaries.

(** At work: a reflection, a summary and an action, one per line. *)
Lemma reflection_example :
  exists actions c',
    Sample.parseActionVlm
      (Sample.lines [js "Reflection: missed the button"; js "Action_Summary: click it again";
                     js "Action: click(start_box='(1,2)')"])
      None None None None None []
    = (Returned actions, c')
    /\ map reflection actions = [Some (js "missed the button")]
    /\ map thought actions = [js "click it again"].
Proof.
  assert (Htext : trim (Sample.lines [js "Reflection: missed the button";
                                      js "Action_Summary: click it again";
                                      js "Action: click(start_box='(1,2)')"])
                  = js "Reflection: " ++ (js "missed the button" ++ [LF])
                    ++ js "Action_Summary: " ++ (js "click it again" ++ [LF])
                    ++ js "Action: click(start_box='(1,2)')")
    by (vm_compute; reflexivity).
  assert (Hno : includes (trim (Sample.lines [js "Reflection: missed the button";
                                              js "Action_Summary: click it again";
                                              js "Action: click(start_box='(1,2)')"]))
                         (js "Thought:") = false)
    by (vm_compute; reflexivity).
  assert (Hr : js "missed the button" ++ [LF] <> []) by discriminate.
  assert (Hs : js "click it again" ++ [LF] <> []) by discriminate.
  assert (Hsingle : forall j, 0 < j < length (js "missed the button" ++ [LF]) ->
            startsWith (skipn j ((js "missed the button" ++ [LF]) ++ js "Action_Summary: "
                                 ++ (js "click it again" ++ [LF])
                                 ++ js "Action: click(start_box='(1,2)')"))
                       (js "Action_Summary: ") = false).
  { intros j [H0 H1]. do 18 (destruct j as [|j]; [try reflexivity; lia|]).
    simpl in H1. lia. }
  assert (Hfirst : forall q, q < length (js "click it again" ++ [LF]) ->
            markerAt (skipn q ((js "click it again" ++ [LF])
                               ++ js "Action: click(start_box='(1,2)')")) = false).
  { intros q Hq. do 15 (destruct q as [|q]; [reflexivity|]). simpl in Hq. lia. }
  destruct (@reflection_and_summary_are_read
              Sample.MAX_RATIO Sample.IMAGE_FACTOR Sample.MIN_PIXELS Sample.MAX_PIXELS_V1_5
              Sample.toLowerCase
              (Sample.lines [js "Reflection: missed the button";
                             js "Action_Summary: click it again";
                             js "Action: click(start_box='(1,2)')"])
              (js "missed the button" ++ [LF]) (js "click it again" ++ [LF])
              (js "Action: click(start_box='(1,2)')")
              None None None None None [] eq_refl Htext Hno Hr Hs Hsingle
              (or_intror eq_refl) Hfirst)
    as [actions [c' [Hrun HF]]].
  exists actions, c'. split; [exact Hrun|].
  vm_compute in Hrun. inversion Hrun; subst actions c'. split; reflexivity.
Defined.

(** At work: a summary and an action, one per line. *)
Lemma action_summary_example :
  exists actions c',
    Sample.parseActionVlm
      (Sample.lines [js "Action_Summary: open the menu"; js "Action: click(start_box='(1,2)')"])
      None None None None None []
    = (Returned actions, c')
    /\ map thought actions = [js "open the menu"]
    /\ map reflection actions = [None].
Proof.
  assert (Htext : trim (Sample.lines [js "Action_Summary: open the menu";
                                      js "Action: click(start_box='(1,2)')"])
                  = js "Action_Summary: " ++ js "open the menu" ++ [LF]
                    ++ js "Action: click(start_box='(1,2)')")
    by (vm_compute; reflexivity).
  assert (Hno : includes (trim (Sample.lines [js "Action_Summary: open the menu";
                                              js "Action: click(start_box='(1,2)')"]))
                         (js "Thought:") = false)
    by (vm_compute; reflexivity).
  assert (Hs : js "open the menu" <> []) by discriminate.
  assert (Hline : forallb (fun c => negb (isLineTerminator c)) (js "open the menu") = true)
    by reflexivity.
  assert (Hws : forallb isWhiteSpace [LF] = true) by reflexivity.
  assert (Hfirst : forall q, q < length (js "open the menu") ->
            markerAt (skipn q (js "open the menu" ++ [LF]
                               ++ js "Action: click(start_box='(1,2)')")) = false).
  { intros q Hq. do 13 (destruct q as [|q]; [reflexivity|]). simpl in Hq. lia. }
  destruct (@action_summary_is_the_thought
              Sample.MAX_RATIO Sample.IMAGE_FACTOR Sample.MIN_PIXELS Sample.MAX_PIXELS_V1_5
              Sample.toLowerCase
              (Sample.lines [js "Action_Summary: open the menu";
                             js "Action: click(start_box='(1,2)')"])
              (js "open the menu") [LF] (js "Action: click(start_box='(1,2)')")
              None None None None None [] eq_refl Htext Hno Hs Hline Hws
              (or_intror eq_refl) Hfirst)
    as [actions [c' [Hrun HF]]].
  exists actions, c'. split; [exact Hrun|].
  vm_compute in Hrun. inversion Hrun; subst actions c'. split; reflexivity.
Defined.

(* ------------------------------------------------------------------------- *)
(** ** Properties of the Ollama model *)

Import OllamaModel OllamaNotions OllamaFacts.

(** X24.  [convertToOllamaMessages] gives one message for each conversation,
    in order: its content is the value of the conversation, its role is
    [user] when the conversation is from [human] and [assistant]
    otherwise; it carries an image exactly when the value is [<image>] and
    fewer placeholders than there are images came before it, and the image
    is then the one at the position that this number of placeholders
    gives, never [undefined]. *)
Theorem messages_follow_the_conversations
    (conversations : list Conversation) (imgs : list jsstring) :
  length (convertToOllamaMessages conversations imgs) = length conversations
  /\ forall i conv,
       nth_error conversations i = Some conv ->
       exists message,
         nth_error (convertToOllamaMessages conversations imgs) i = Some message
         /\ content message = value conv
         /\ role message
            = (if jseqb (from conv) (js "human") then js "user" else js "assistant")
         /\ let seen := placeholders (firstn i conversations) in
            if (isPlaceholder conv && Nat.ltb seen (length imgs))%bool
            then exists img, nth_error imgs seen = Some img
                             /\ images message = Some [Some img]
            else images message = None.
Proof.
  rewrite convert_pushed. split; [apply pushed_length|].
  intros i conv H. rewrite (pushed_nth imgs 0 H). eexists. split; [reflexivity|].
  cbn [content role images]. split; [reflexivity|]. split; [reflexivity|].
  cbn [Nat.add]. cbv zeta.
  destruct (isPlaceholder conv && Nat.ltb (placeholders (firstn i conversations)) (length imgs))%bool
    eqn:E; [|reflexivity].
  apply andb_true_iff in E. destruct E as [_ L]. apply Nat.ltb_lt in L.
  destruct (nth_error imgs (placeholders (firstn i conversations))) as [img|] eqn:N.
  - exists img. split; reflexivity.
  - apply nth_error_None in N. lia.
Qed.

(** X25.  The images attached to the messages, read in the order of the
    messages, are the first images of the list, as many as there are
    [<image>] placeholders (all of them when the placeholders are more):
    no image is skipped, repeated or attached out of order, and an image
    beyond the number of placeholders is dropped. *)
Theorem images_are_attached_in_order
    (conversations : list Conversation) (imgs : list jsstring) :
  flat_map attached (convertToOllamaMessages conversations imgs)
  = map Some (firstn (placeholders conversations) imgs).
Proof. rewrite convert_pushed, pushed_attached. reflexivity. Qed.
